(* ===== verification/_CoqProject ===== *)
-Q . S2P
Prelude.v
CInt.v
Machine.v
Uart.v
Format.v
Probe.v
Debug.v
Boundaries.v
Virt.v
