(* ===== verification/Prelude.v ===== *)
(** * Verification of the capability-boundary diagnostic harness

    The repository holds three bare-metal C programs for a FreeRTOS guest of
    an seL4 virtual machine (qemu-arm-virt).  Each drives the PL011 data
    register at 0x9000000 by polling and prints a trace, so that a memory read
    that faults at a capability boundary shows as a trace that stops.  The
    programs are single-threaded, take no input and never return.

    - src/qemu-arm-virt/freertos_build/minimal_main_debug.c: the debug
      session.  [uart_putc], [uart_puts_safe], the bounded string dump
      [uart_puts_debug], four scenarios ([test_memory_access_patterns]), [delay]
      and a [main] that repeats a labelled dump for ever.
    - .../minimal_main_test_boundaries.c: the boundary test.  Its own copies
      of the driver, [print_hex_addr], an analysis of a long static string
      ([test_4kb_boundary_crossing]), a probe of guest RAM at 0x40000000
      ([test_capdl_frame_pattern]) and a [main] with a periodic message.
    - .../minimal_main_virt.c: the control program.  Two messages sent one
      immediate character at a time, a [delay] and a [main] that repeats the
      greeting.

    ** The files

    - [Prelude] (this file): hint databases, tactics, list facts.
    - [CInt]: [unsigned int], [int] and [char] as [Z] with the wrap-around of
      every implicit conversion written out ([to_uint], [to_int], [to_char]);
      string literals as lists of character codes ([cstr]).
    - [Machine]: the machine the programs run on.  A state is a memory (a
      finite map from addresses to bytes; an absent address is unmapped), the
      trace of reads, writes and device writes, and a counter of loop
      iterations.  A program is a function from a budget and a state to an
      outcome and a state ([M]); it returns ([Done]), traps on an unmapped
      address ([Fault (Trapped a)]) or exhausts the budget ([Fault OutOfFuel]).
      [while] is the loop of C with [Continue] and [Break].  Frame predicates
      ([read_only], [extends], [wf_safe]) and [fuel_stable] come with closure
      lemmas and the tactics [solve_frame] and [solve_fuel].  A loop
      [while (1)] is also a transition system whose step is one round
      ([reach]), equal to the loop of the program round by round
      ([reach_forever], [reach_out_of_fuel]).
    - [Uart]: [uart_putc] and [uart_puts_safe] of minimal_main_debug.c, the
      interface [UartDriver] that says what a byte sink promises, the
      reference walk [scan], and the calculus of [sends] and [stops] in which
      the larger functions are proved.
    - [Format]: the hexadecimal loop ([put_hex32], with [hex_char]) and the
      two decimal offset labels ([put_byte_offset], [put_probe_offset]), over
      any [UartDriver]; decoders [parse_hex] and [parse_dec] that share no code
      with them.
    - [Probe]: [uart_puts_debug], with the test and the body of its loop as
      [dump_cond] and [dump_body].
    - [Debug] (module [Debug]): [test_memory_access_patterns], [delay],
      [main] and one round of its loop, [main_iteration].
    - [Boundaries] (module [Boundaries]): minimal_main_test_boundaries.c,
      with the tests and bodies of its two loops as [analysis_cond],
      [analysis_body] and [probe_body].
    - [Virt] (module [Virt]): minimal_main_virt.c.

    ** How the model corresponds to the code

    A C function is one definition with the function's name; a loop is a
    [while] whose test and body follow the source statement by statement, a
    loop counter being the loop state.  A pointer is its address in [Z]; a
    read of [*p] is [load p] and traps when [p] is unmapped.  The assignment
    to [UART0_DR] is [mmio_write], which appends to the trace and touches no
    memory.  An empty [for] loop over a [volatile] counter is [busy_wait],
    which counts its iterations in [cycles].  A string literal or static array
    is read from memory at the address the layout [lit] gives its text: the
    hypothesis [rodata_ok lit lits μ] says the literals [lits] are mapped there
    with their terminators, and says nothing of any other address.  The local
    array [stack_string] is written to memory when it is initialised
    ([store_bytes]); the [volatile] local [test_byte] is a value.

    The translation units do not share code in C: the driver of
    minimal_main_debug.c lives in [Uart], and the copies of the other two
    programs are definitions of their modules, equal to it by computation
    ([tb_putc_eq], [virt_putc_eq]).

    ** What the theorems show

    - The driver: one byte costs one device write and 10000 iterations and
      cannot fail ([uart_putc_run]); [uart_puts_safe] refines [scan] on every
      memory, with its return, its trap and its unbounded walk
      ([uart_puts_safe_total], [_string], [_trap], [_unbounded], [_frame]).
    - The formatters: eight upper-case digits that read back as the value
      modulo 2^32 ([put_hex32_roundtrip], with the test vector
      [put_hex32_deadbeef] as an example); the decimal labels below 100 and
      what they do from 100 on ([put_byte_offset_run],
      [put_byte_offset_large], [put_probe_offset_run]).
    - The bounded dump: refinement of [scan] bounded by 32
      ([uart_puts_debug_total]), the output on a string and at a trap
      ([_cstring], [_trap]), the order of every read and write, which makes
      the dump causal ([_events]), termination ([_terminates]), the number of
      separators ([_length]), reading the dump back ([_roundtrip]) and the
      dead [break] ([dump_break_dead]).  The lemmas [uart_puts_debug_frame]
      and [uart_puts_debug_budget] are facts of the model, not claims about
      the code.
    - The debug session: the four scenarios, one round, the rounds of
      [main] and that it never returns ([test_memory_access_patterns_run],
      [main_iteration_run], [main_rounds], [main_never_returns], [delay_run]);
      the trap of [main] when the static string of the first scenario runs
      into unmapped memory, with the trace that locates it
      ([main_debug_trap]).
      The periodic loop as a transition system ([reachable]): its invariant by
      induction on the rounds ([loop_invariant]: counter, memory, output and
      iterations after [n] rounds) and that every number of rounds is reached,
      in the state where the loop of [main] stops with that budget
      ([loop_reaches]).
    - The boundary test: the analysis and its marker that never fires
      ([analysis_run], [test_4kb_boundary_crossing_run]); the probe on mapped
      memory, at a trap and on every memory ([test_capdl_frame_pattern_run],
      [_trap], [_total], [probe_body_run]); [main] with its rounds, its trap
      and no return ([main_tb_rounds], [main_tb_trap], [main_tb_never_returns]).
    - The control program: its messages read no memory and it runs on an
      empty memory ([print_freertos_starting_run], [print_hello_message_run],
      [main_virt_rounds], [delay_virt_run], [main_virt_never_returns]).

    Each theorem with a hypothesis is applied to a concrete machine by its
    witness; the machines ([uart_demo], [demo_machine], [debug_machine],
    [debug_cut_machine], [tb_machine], [tb_short_machine]) are built with [layout], [image] and
    [place], and their hypotheses are decided by evaluation.

    ** The budget

    The budget bounds the rounds of every loop of a run.  A settle loop
    needs a budget above 10000, the [delay] of the debug session above 100000,
    the loop of the boundary test above 5000000 and the [delay] of the control
    program above 1000000; every other loop of the programs makes fewer
    rounds than the settle loop (the longest string has 213 characters).  With
    such a budget [uart_puts_debug] and [test_capdl_frame_pattern] end in
    [Done] or [Trapped] on every memory, never in [OutOfFuel], and a larger
    budget changes nothing ([uart_puts_debug_budget]).  For the three [main] and for
    [uart_puts_safe] over memory without a terminator, [OutOfFuel] is the
    observation after that many rounds, and the theorems state the trace at
    that point for every budget.  In the transition system of the periodic
    loop the budget bounds the loops inside one round only, and the number of
    rounds is a parameter of its own.

    ** What is not modelled

    - The timing of the device: a write to the data register is an event,
      with no transmit queue or flag register (the code never reads
      [UART0_FR]).
    - The addresses chosen by the linker and the stack pointer: they are the
      parameters [lit] and [stack_string].  Identical literals have one
      address.  Addresses do not wrap at 2^32.
    - Signed overflow of [iteration], undefined in C: the model wraps, and
      the theorems on rounds are stated below 2^31 rounds.
    - The value of the parameter [count] after [delay] has returned: the
      decrement of [while (count--)] is made at the head of the body, so the
      loop variable ends at 0 where the dead local of C ends at 2^32 - 1.
    - A trap on the write to the data register: the device is always there.
    - What the hypervisor does on a fault: a trap ends the run.
    - The build scripts, the boot code, the linker script and the CapDL
      description, which are not under src/. *)

From Stdlib Require Import ZArith Lia.
From stdpp Require Import base tactics option numbers list.

#[local] Open Scope Z_scope.

(** ** Hint databases

    [mrun] collects the rewrite rules that run one primitive of the machine
    monad or move a state change past another; [frame] the closure lemmas of
    the frame predicates and of [fuel_stable], for [solve_frame] and
    [solve_fuel]. *)

Create HintDb frame discriminated.
Create Rewrite HintDb mrun.

(** ** Tactics *)

(** Turn boolean integer comparisons of the context and goal into
    propositions and finish with [lia]. *)
Ltac zbool :=
  repeat match goal with
         | H : (_ <? _) = true |- _ => apply Z.ltb_lt in H
         | H : (_ <? _) = false |- _ => apply Z.ltb_ge in H
         | H : (_ <=? _) = true |- _ => apply Z.leb_le in H
         | H : (_ <=? _) = false |- _ => apply Z.leb_gt in H
         | H : (_ =? _) = true |- _ => apply Z.eqb_eq in H
         | H : (_ =? _) = false |- _ => apply Z.eqb_neq in H
         | |- (_ <? _) = true => apply Z.ltb_lt
         | |- (_ <? _) = false => apply Z.ltb_ge
         | |- (_ <=? _) = true => apply Z.leb_le
         | |- (_ <=? _) = false => apply Z.leb_gt
         | |- (_ =? _) = true => apply Z.eqb_eq
         | |- (_ =? _) = false => apply Z.eqb_neq
         end;
  try lia.

(** Linear arithmetic with division and remainder by constants: the
    quotients and remainders (floored and truncated) are replaced by their
    defining equations before [lia] runs. *)
Ltac lia_mod := Z.to_euclidean_division_equations; lia.

(** A decidable proposition on concrete data, by evaluation of its
    decision procedure. *)
Ltac by_compute := apply (bool_decide_unpack _); vm_compute; exact I.

(** ** Lists *)

Section lists.
Context {A : Type}.
Implicit Types (l k : list A) (x : A).

Lemma prefix_of_app l k : l `prefix_of` l ++ k.
Proof. by exists k. Qed.

End lists.
