(* ===== verification/CInt.v ===== *)
(** * CInt: the C scalar types of the programs

    The three programs use [unsigned int] (32 bits), [int] (32 bits, two's
    complement) and [char] (8 bits, unsigned on the ARM targets the programs
    are built for).  Values are kept in [Z]; every conversion the C code
    performs implicitly (an [int] passed where a [char] is expected, a pointer
    cast to [unsigned int], an increment of an [int]) is written out with the
    wrap-around functions below.  String literals are Rocq strings turned into
    the list of their character codes. *)

From Stdlib Require Import ZArith Lia Ascii String.
From stdpp Require Import base tactics numbers list strings.
From S2P Require Import Prelude.

#[local] Open Scope Z_scope.

(** ** Conversions *)

(** Conversion to [unsigned int]: reduction modulo 2^32. *)
Definition to_uint (z : Z) : Z := z `mod` 2 ^ 32.

(** Conversion to [int]: the two's-complement representative in
    [-2^31, 2^31). *)
Definition to_int (z : Z) : Z := (z + 2 ^ 31) `mod` 2 ^ 32 - 2 ^ 31.

(** Conversion to [char] (unsigned, 8 bits). *)
Definition to_char (z : Z) : Z := z `mod` 2 ^ 8.

(** The code of a character constant. *)
Definition chr (a : ascii) : Z := Z.of_N (N_of_ascii a).

(** The characters of a string literal, without the terminating NUL. *)
Definition cstr (s : string) : list Z := chr <$> list_ascii_of_string s.

(** The characters a literal cannot hold in the model's concrete syntax:
    the line feed [\n] and the double quote. *)
Definition NL : string := String (ascii_of_nat 10) EmptyString.
Definition DQ : string := String (ascii_of_nat 34) EmptyString.

(** A literal whose characters are all different from NUL. *)
Definition nul_free (bs : list Z) : Prop := Forall (λ b, b ≠ 0) bs.

#[export] Instance nul_free_dec bs : Decision (nul_free bs).
Proof. unfold nul_free. apply _. Defined.

(** ** Ranges *)

Lemma to_uint_range z : 0 ≤ to_uint z < 2 ^ 32.
Proof. apply Z.mod_pos_bound. done. Qed.

Lemma to_int_range z : - 2 ^ 31 ≤ to_int z < 2 ^ 31.
Proof.
  unfold to_int. pose proof (Z.mod_pos_bound (z + 2 ^ 31) (2 ^ 32) eq_refl). lia.
Qed.

Lemma to_char_range z : 0 ≤ to_char z < 256.
Proof. apply (Z.mod_pos_bound z (2 ^ 8)). done. Qed.

Lemma chr_range a : 0 ≤ chr a < 256.
Proof.
  unfold chr. pose proof (N_ascii_bounded a). lia.
Qed.

(** ** Values that fit are unchanged *)

Lemma to_uint_small z : 0 ≤ z < 2 ^ 32 → to_uint z = z.
Proof. intros. unfold to_uint. by apply Z.mod_small. Qed.

Lemma to_int_small z : - 2 ^ 31 ≤ z < 2 ^ 31 → to_int z = z.
Proof. intros. unfold to_int. rewrite Z.mod_small; lia. Qed.

Lemma to_char_small z : 0 ≤ z < 256 → to_char z = z.
Proof. intros. unfold to_char. by apply Z.mod_small. Qed.

Lemma to_char_chr a : to_char (chr a) = chr a.
Proof. apply to_char_small, chr_range. Qed.

Lemma to_uint_idemp z : to_uint (to_uint z) = to_uint z.
Proof. apply to_uint_small, to_uint_range. Qed.

Lemma to_char_idemp z : to_char (to_char z) = to_char z.
Proof. apply to_char_small, to_char_range. Qed.

Lemma to_int_idemp z : to_int (to_int z) = to_int z.
Proof. apply to_int_small, to_int_range. Qed.

(** Overflow of the increment: the successor of [INT_MAX] is [INT_MIN]. *)
Lemma to_int_succ_max : to_int (2 ^ 31 - 1 + 1) = - 2 ^ 31.
Proof. reflexivity. Qed.


(** ** C division and remainder on non-negative operands

    C's [/] and [%] truncate towards zero ([Z.quot], [Z.rem]); on the
    non-negative operands of these programs they agree with [Z.div] and
    [Z.modulo], which [lia] understands. *)

Lemma rem_nonneg a b : 0 ≤ a → 0 < b → a `rem` b = a `mod` b.
Proof. apply Z.rem_mod_nonneg. Qed.

Lemma quot_nonneg a b : 0 ≤ a → 0 < b → a `quot` b = a `div` b.
Proof. apply Z.quot_div_nonneg. Qed.

(** The low nibble, as the programs extract it. *)
Lemma land_15_mod z : Z.land z 15 = z `mod` 16.
Proof. exact (Z.land_ones z 4 ltac:(lia)). Qed.

Lemma land_15_range z : 0 ≤ Z.land z 15 < 16.
Proof. rewrite land_15_mod. lia_mod. Qed.


(** ** String literals *)

Lemma cstr_app s1 s2 : cstr (s1 +:+ s2) = cstr s1 ++ cstr s2.
Proof.
  unfold cstr. induction s1 as [|a s1 IH]; [done|].
  change (chr a :: (chr <$> list_ascii_of_string (s1 +:+ s2)) =
          chr a :: ((chr <$> list_ascii_of_string s1) ++ cstr s2)).
  by rewrite IH.
Qed.

Lemma cstr_length s : length (cstr s) = String.length s.
Proof.
  unfold cstr. rewrite length_fmap.
  induction s as [|a s IH]; [done|]. cbn [list_ascii_of_string length String.length].
  by rewrite IH.
Qed.

Lemma cstr_range s : Forall (λ b, 0 ≤ b < 256) (cstr s).
Proof. unfold cstr. apply Forall_fmap, Forall_true. intros a. apply chr_range. Qed.
