(* ===== verification/Machine.v ===== *)
(** * Machine: the bare-metal execution model

    The programs run on a single core with no operating system: they read
    bytes of guest memory, write to memory-mapped device registers and spin
    in empty loops.  A [machine] is the memory, the trace of the accesses made
    so far and the count of busy-wait iterations executed.  A program is a
    function from a loop budget and a machine to an outcome and the machine it
    leaves ([M]): a read of an address that is not mapped is a [Trapped]
    fault, which stops the program with the trace written up to that point (the
    fault the harness exists to provoke); a loop that exceeds the budget is an
    [OutOfFuel] fault.  [while] is the one loop construct, with [Break]. *)

From Stdlib Require Import ZArith Lia String.
From stdpp Require Import base tactics option numbers list strings gmap.
From S2P Require Import Prelude CInt.

#[local] Open Scope Z_scope.

(** ** State *)

(** What the outside observes of an execution, in program order. *)
Inductive event : Type :=
| EvLoad (addr val : Z)     (* a byte read from memory *)
| EvStore (addr val : Z)    (* a byte written to memory *)
| EvMmio (addr val : Z).    (* a 32-bit write to a device register *)

Record machine : Type := Machine {
  mem : gmap Z Z;           (* the mapped bytes of guest memory *)
  trace : list event;       (* accesses, oldest first *)
  cycles : Z                (* busy-wait iterations executed *)
}.

Inductive fault : Type :=
| Trapped (addr : Z)        (* access to an unmapped address *)
| OutOfFuel.                (* a loop exceeded the budget *)

Inductive outcome (A : Type) : Type :=
| Done (a : A)
| Fault (f : fault).
Arguments Done {A} a.
Arguments Fault {A} f.

(** The result of a loop body: go round again, or leave the loop. *)
Inductive ctl (S : Type) : Type :=
| Continue (s : S)
| Break (s : S).
Arguments Continue {S} s.
Arguments Break {S} s.

#[export] Instance event_eq_dec : EqDecision event.
Proof. solve_decision. Defined.
#[export] Instance fault_eq_dec : EqDecision fault.
Proof. solve_decision. Defined.
#[export] Instance outcome_eq_dec `{EqDecision A} : EqDecision (outcome A).
Proof. solve_decision. Defined.

(** ** The monad *)

Definition M (A : Type) : Type := nat → machine → outcome A * machine.

(** Sequencing of a result with a continuation: a fault ends the program
    and keeps the machine as the fault left it. *)
Definition and_then {A B} (r : outcome A * machine)
    (k : A → machine → outcome B * machine) : outcome B * machine :=
  match r with
  | (Done a, m) => k a m
  | (Fault f, m) => (Fault f, m)
  end.

(** [run c fuel m]: the outcome of [c] started on [m] with loop budget
    [fuel], and the machine it leaves. *)
Definition run {A} (c : M A) (fuel : nat) (m : machine) : outcome A * machine :=
  c fuel m.

#[export] Instance M_ret : MRet M := λ A a _ m, (Done a, m).
#[export] Instance M_bind : MBind M := λ A B k c fuel m,
  and_then (run c fuel m) (λ a m', run (k a) fuel m').
#[export] Instance M_fmap : FMap M := λ A B f c, a ← c; mret (f a).

(** ** State changes *)

(** [advance es n m]: the events [es] happen and [n] busy-wait iterations
    elapse; memory is untouched. *)
Definition advance (es : list event) (n : Z) (m : machine) : machine :=
  Machine (mem m) (trace m ++ es) (cycles m + n).

(** [set_mem μ m]: memory becomes [μ]. *)
Definition set_mem (μ : gmap Z Z) (m : machine) : machine :=
  Machine μ (trace m) (cycles m).

(** [poke a v m]: the byte at [a] becomes [v]. *)
Definition poke (a v : Z) (m : machine) : machine :=
  advance [EvStore a v] 0 (set_mem (<[a:=v]> (mem m)) m).

(** ** Primitive operations *)

(** A byte load [*(char * )a]. *)
Definition load (a : Z) : M Z := λ _ m,
  match mem m !! a with
  | Some v => (Done v, advance [EvLoad a v] 0 m)
  | None => (Fault (Trapped a), m)
  end.

(** A byte store [*(char * )a = v]. *)
Definition store (a v : Z) : M unit := λ _ m,
  match mem m !! a with
  | Some _ => (Done tt, poke a (to_char v) m)
  | None => (Fault (Trapped a), m)
  end.

(** The initialiser of a local array of bytes at [a]: one store per byte,
    in order. *)
Fixpoint store_bytes (a : Z) (bs : list Z) : M unit :=
  match bs with
  | [] => mret tt
  | b :: bs' => store a b;; store_bytes (a + 1) bs'
  end.

(** A store to a device register [*(volatile unsigned int * )a = v]. *)
Definition mmio_write (a v : Z) : M unit := λ _ m,
  (Done tt, advance [EvMmio a (to_uint v)] 0 m).

(** One iteration of an empty loop body. *)
Definition tick : M unit := λ _ m, (Done tt, advance [] 1 m).

(** ** Loops *)

Fixpoint while_fix {S} (n : nat) (cond : S → M bool) (body : S → M (ctl S))
    (s : S) : M S :=
  match n with
  | O => λ _ m, (Fault OutOfFuel, m)
  | S n' =>
      b ← cond s;
      if b : bool then
        r ← body s;
        match r with
        | Continue s' => while_fix n' cond body s'
        | Break s' => mret s'
        end
      else mret s
  end.

(** [while cond body s]: the loop [while (cond) body] over the loop
    variables [s]; it may go round as many times as the budget says. *)
Definition while {S} (cond : S → M bool) (body : S → M (ctl S)) (s : S) : M S :=
  λ fuel, while_fix fuel cond body s fuel.

(** ** Loops as transition systems

    A loop [while (1)] whose body takes the loop variables from [s] to the
    result of [body s], seen as a transition system whose states are the loop
    variables with the machine and whose step is one round.
    [reach body fuel s0 m0 n s m]: entered at [s0] on [m0], the loop is at [s]
    on [m] after [n] rounds, the loops inside a round having the budget
    [fuel]. *)
Inductive reach {S} (body : S → M S) (fuel : nat) (s0 : S) (m0 : machine) :
    nat → S → machine → Prop :=
| reach_entry : reach body fuel s0 m0 0 s0 m0
| reach_round n s m s' m' :
    reach body fuel s0 m0 n s m →
    run (body s) fuel m = (Done s', m') →
    reach body fuel s0 m0 (Datatypes.S n) s' m'.

(** The loop [while (1) { s = body(s); }]. *)
Definition forever {S} (n : nat) (body : S → M S) (s : S) : M S :=
  while_fix n (λ _, mret true) (λ s, s' ← body s; mret (Continue s')) s.

(** ** Observations *)

(** The values written to the device register at [a], oldest first. *)
Definition mmio_writes (a : Z) (es : list event) : list Z :=
  omap (λ e, match e with
             | EvMmio a' v => if decide (a' = a) then Some v else None
             | _ => None
             end) es.

(** The addresses read from memory, oldest first. *)
Definition loads (es : list event) : list Z :=
  omap (λ e, match e with EvLoad a _ => Some a | _ => None end) es.

(** The events of [store_bytes a bs]. *)
Fixpoint store_trace (a : Z) (bs : list Z) : list event :=
  match bs with
  | [] => []
  | b :: bs' => EvStore a (to_char b) :: store_trace (a + 1) bs'
  end.

(** ** Memory contents *)

(** The [n] addresses from [a] on are mapped. *)
Fixpoint mapped (μ : gmap Z Z) (a : Z) (n : nat) : Prop :=
  match n with
  | O => True
  | S n' => is_Some (μ !! a) ∧ mapped μ (a + 1) n'
  end.

(** The bytes [bs] are mapped at [a], [a+1], ... *)
Fixpoint bytes_at (μ : gmap Z Z) (a : Z) (bs : list Z) : Prop :=
  match bs with
  | [] => True
  | b :: bs' => μ !! a = Some b ∧ bytes_at μ (a + 1) bs'
  end.

(** The NUL-terminated string [bs] is mapped at [a]. *)
Definition cstring_at (μ : gmap Z Z) (a : Z) (bs : list Z) : Prop :=
  bytes_at μ a (bs ++ [0]) ∧ nul_free bs.

(** Memory with [bs] written at [a], [a+1], ... *)
Fixpoint place (a : Z) (bs : list Z) (μ : gmap Z Z) : gmap Z Z :=
  match bs with
  | [] => μ
  | b :: bs' => <[a:=b]> (place (a + 1) bs' μ)
  end.

(** The string literals [lits] are in memory where the layout [lit] says. *)
Definition rodata_ok (lit : string → Z) (lits : list string) (μ : gmap Z Z) : Prop :=
  Forall (λ s, cstring_at μ (lit s) (cstr s)) lits.

(** A layout that places the literals [lits] one after the other from
    [base], each followed by its NUL, as a linker would. *)
Fixpoint layout (base : Z) (lits : list string) : list (string * Z) :=
  match lits with
  | [] => []
  | l :: ls => (l, base) :: layout (base + Z.of_nat (String.length l) + 1) ls
  end.

(** The address a layout table gives a literal. *)
Definition lit_at (tbl : list (string * Z)) (l : string) : Z :=
  match list_find (λ p, p.1 = l) tbl with
  | Some (_, (_, a)) => a
  | None => 0
  end.

(** Memory with the literals of a layout table in it. *)
Definition image (tbl : list (string * Z)) (μ : gmap Z Z) : gmap Z Z :=
  foldr (λ p μ, place p.2 (cstr p.1 ++ [0]) μ) μ tbl.

(** Memory holds bytes. *)
Definition wf_mem (μ : gmap Z Z) : Prop := map_Forall (λ _ v, 0 ≤ v < 256) μ.

(** [mapped] and [bytes_at] as tests, for deciding them in time linear in
    the number of bytes. *)
Fixpoint mappedb (μ : gmap Z Z) (a : Z) (n : nat) : bool :=
  match n with
  | O => true
  | S n' => bool_decide (is_Some (μ !! a)) && mappedb μ (a + 1) n'
  end.

Fixpoint bytes_atb (μ : gmap Z Z) (a : Z) (bs : list Z) : bool :=
  match bs with
  | [] => true
  | b :: bs' => bool_decide (μ !! a = Some b) && bytes_atb μ (a + 1) bs'
  end.

Lemma mappedb_spec μ a n : mappedb μ a n = true ↔ mapped μ a n.
Proof.
  revert a. induction n as [|n IH]; intros a; cbn; [done|].
  by rewrite andb_true_iff, IH, bool_decide_eq_true.
Qed.

Lemma bytes_atb_spec μ a bs : bytes_atb μ a bs = true ↔ bytes_at μ a bs.
Proof.
  revert a. induction bs as [|b bs IH]; intros a; cbn; [done|].
  by rewrite andb_true_iff, IH, bool_decide_eq_true.
Qed.

#[export] Instance mapped_dec μ a n : Decision (mapped μ a n) :=
  match mappedb μ a n as b return mappedb μ a n = b → Decision (mapped μ a n) with
  | true => λ H, left (proj1 (mappedb_spec μ a n) H)
  | false => λ H, right (λ H', eq_ind true (λ b, b = false → False)
                                 (λ E, diff_true_false E) _
                                 (eq_sym (proj2 (mappedb_spec μ a n) H')) H)
  end eq_refl.

#[export] Instance bytes_at_dec μ a bs : Decision (bytes_at μ a bs) :=
  match bytes_atb μ a bs as b return bytes_atb μ a bs = b → Decision (bytes_at μ a bs) with
  | true => λ H, left (proj1 (bytes_atb_spec μ a bs) H)
  | false => λ H, right (λ H', eq_ind true (λ b, b = false → False)
                                 (λ E, diff_true_false E) _
                                 (eq_sym (proj2 (bytes_atb_spec μ a bs) H')) H)
  end eq_refl.
#[export] Instance cstring_at_dec μ a bs : Decision (cstring_at μ a bs).
Proof. unfold cstring_at. apply _. Defined.
#[export] Instance rodata_ok_dec lit lits μ : Decision (rodata_ok lit lits μ).
Proof. unfold rodata_ok. apply _. Defined.
#[export] Instance wf_mem_dec μ : Decision (wf_mem μ).
Proof. unfold wf_mem. apply _. Defined.

(** ** Frame predicates *)

(** [preserves R c]: whatever [c] does, and however it ends, the machine it
    leaves is related by [R] to the one it started from. *)
Definition preserves (R : relation machine) {A} (c : M A) : Prop :=
  ∀ fuel m o m', run c fuel m = (o, m') → R m m'.

(** The trace and the cycle count only grow. *)
Definition grows (m m' : machine) : Prop :=
  trace m `prefix_of` trace m' ∧ cycles m ≤ cycles m'.

(** Memory is unchanged. *)
Definition same_mem (m m' : machine) : Prop := mem m' = mem m.

(** Memory that held bytes still does. *)
Definition keeps_wf (m m' : machine) : Prop := wf_mem (mem m) → wf_mem (mem m').

(** A program only adds to the trace and to the cycle count. *)
Abbreviation extends := (preserves grows).

(** A program leaves memory as it found it. *)
Abbreviation read_only := (preserves same_mem).

(** A program keeps memory well formed. *)
Abbreviation wf_safe := (preserves keeps_wf).

(** The result of a program does not depend on the budget once the budget
    is enough for it not to run out. *)
Definition fuel_stable {A} (c : M A) : Prop :=
  ∀ fuel fuel' m o m', run c fuel m = (o, m') → o ≠ Fault OutOfFuel →
    (fuel ≤ fuel')%nat → run c fuel' m = (o, m').

(** * Lemmas *)

(** ** State changes *)

Lemma advance_id m : advance [] 0 m = m.
Proof. destruct m. unfold advance. cbn. by rewrite app_nil_r, Z.add_0_r. Qed.

Lemma advance_advance es1 n1 es2 n2 m :
  advance es2 n2 (advance es1 n1 m) = advance (es1 ++ es2) (n1 + n2) m.
Proof. unfold advance. cbn. by rewrite app_assoc, Z.add_assoc. Qed.

Lemma mem_advance es n m : mem (advance es n m) = mem m.
Proof. done. Qed.

Lemma mem_set_mem μ m : mem (set_mem μ m) = μ.
Proof. done. Qed.

Lemma set_mem_advance μ es n m :
  set_mem μ (advance es n m) = advance es n (set_mem μ m).
Proof. done. Qed.

Lemma set_mem_set_mem μ μ' m : set_mem μ (set_mem μ' m) = set_mem μ m.
Proof. done. Qed.

Lemma set_mem_id m : set_mem (mem m) m = m.
Proof. by destruct m. Qed.

Lemma trace_advance es n m : trace (advance es n m) = trace m ++ es.
Proof. done. Qed.

Lemma cycles_advance es n m : cycles (advance es n m) = cycles m + n.
Proof. done. Qed.

#[export] Hint Rewrite advance_id advance_advance mem_advance trace_advance
  cycles_advance mem_set_mem set_mem_advance set_mem_set_mem set_mem_id : mrun.

(** ** Running the primitives *)

Section run.
Context {A B : Type}.
Implicit Types (fuel : nat) (m : machine).

Lemma run_ret (a : A) fuel m : run (mret a) fuel m = (Done a, m).
Proof. done. Qed.

Lemma run_bind (c : M A) (k : A → M B) fuel m :
  run (c ≫= k) fuel m = and_then (run c fuel m) (λ a m', run (k a) fuel m').
Proof. done. Qed.

Lemma run_fmap (f : A → B) (c : M A) fuel m :
  run (f <$> c) fuel m = and_then (run c fuel m) (λ a m', (Done (f a), m')).
Proof. done. Qed.

Lemma and_then_done (a : A) m (k : A → machine → outcome B * machine) :
  and_then (Done a, m) k = k a m.
Proof. done. Qed.

Lemma and_then_fault f m (k : A → machine → outcome B * machine) :
  and_then (Fault f, m) k = (Fault f, m).
Proof. done. Qed.

(** A continuation never turns a fault into a result. *)
Lemma and_then_done_inv (r : outcome A * machine) k (b : B) m' :
  and_then r k = (Done b, m') → ∃ a m1, r = (Done a, m1) ∧ k a m1 = (Done b, m').
Proof. destruct r as [[a|f] m1]; cbn; [eauto|done]. Qed.

End run.

Lemma run_load a v fuel m :
  mem m !! a = Some v → run (load a) fuel m = (Done v, advance [EvLoad a v] 0 m).
Proof. unfold run, load. by intros ->. Qed.

Lemma run_load_trap a fuel m :
  mem m !! a = None → run (load a) fuel m = (Fault (Trapped a), m).
Proof. unfold run, load. by intros ->. Qed.

Lemma run_mmio_write a v fuel m :
  run (mmio_write a v) fuel m = (Done tt, advance [EvMmio a (to_uint v)] 0 m).
Proof. done. Qed.

Lemma run_tick fuel m : run tick fuel m = (Done tt, advance [] 1 m).
Proof. done. Qed.

#[export] Hint Rewrite @run_ret @run_bind @run_fmap @and_then_done @and_then_fault
  run_mmio_write run_tick : mrun.

(** ** Loops *)

Section while.
Context {S : Type} (cond : S → M bool) (body : S → M (ctl S)).

Lemma while_fix_O s fuel m :
  run (while_fix 0 cond body s) fuel m = (Fault OutOfFuel, m).
Proof. done. Qed.

Lemma while_fix_S n s fuel m :
  run (while_fix (Datatypes.S n) cond body s) fuel m =
  and_then (run (cond s) fuel m) (λ b m1,
    if b then
      and_then (run (body s) fuel m1) (λ r m2,
        match r with
        | Continue s' => run (while_fix n cond body s') fuel m2
        | Break s' => (Done s', m2)
        end)
    else (Done s, m1)).
Proof.
  cbn [while_fix]. rewrite run_bind.
  destruct (run (cond s) fuel m) as [[[]|f] m1]; cbn [and_then]; try done.
  rewrite run_bind. by destruct (run (body s) fuel m1) as [[[s'|s']|f] m2].
Qed.

Lemma run_while s fuel m :
  run (while cond body s) fuel m = run (while_fix fuel cond body s) fuel m.
Proof. done. Qed.

End while.

(** ** Frame properties are closed under the program constructs *)

#[export] Instance grows_preorder : PreOrder grows.
Proof.
  split; [by split|]. intros m1 m2 m3 [??] [??]. split; [by etrans|lia].
Qed.

#[export] Instance same_mem_preorder : PreOrder same_mem.
Proof. split; [done|]. unfold same_mem. intros m1 m2 m3. congruence. Qed.

#[export] Instance keeps_wf_preorder : PreOrder keeps_wf.
Proof. split; [by intros m Hm|]. unfold keeps_wf. intros m1 m2 m3. tauto. Qed.

Section preserves.
Context (R : relation machine) `{!PreOrder R}.

Lemma preserves_ret {A} (a : A) : preserves R (mret a).
Proof. intros fuel m o m' [= <- <-]. done. Qed.

Lemma preserves_bind {A B} (c : M A) (k : A → M B) :
  preserves R c → (∀ a, preserves R (k a)) → preserves R (c ≫= k).
Proof.
  intros Hc Hk fuel m o m'. rewrite run_bind.
  destruct (run c fuel m) as [[a|f] m1] eqn:E; cbn [and_then].
  - intros Hka. etrans; [by eapply Hc|by eapply Hk].
  - intros [= <- <-]. by eapply Hc.
Qed.

Lemma preserves_fmap {A B} (f : A → B) (c : M A) :
  preserves R c → preserves R (f <$> c).
Proof. intros. apply preserves_bind; [done|]. intros. apply preserves_ret. Qed.

Lemma preserves_if {A} (b : bool) (c1 c2 : M A) :
  preserves R c1 → preserves R c2 → preserves R (if b then c1 else c2).
Proof. by destruct b. Qed.

Lemma preserves_while_fix {S} (cond : S → M bool) (body : S → M (ctl S)) n s :
  (∀ s, preserves R (cond s)) → (∀ s, preserves R (body s)) →
  preserves R (while_fix n cond body s).
Proof.
  intros Hc Hb. revert s. induction n as [|n IH]; intros s.
  - intros fuel m o m' [= <- <-]. done.
  - cbn [while_fix]. apply preserves_bind; [done|]. intros [].
    + apply preserves_bind; [done|]. intros [s'|s']; [apply IH|apply preserves_ret].
    + apply preserves_ret.
Qed.

Lemma preserves_while {S} (cond : S → M bool) (body : S → M (ctl S)) s :
  (∀ s, preserves R (cond s)) → (∀ s, preserves R (body s)) →
  preserves R (while cond body s).
Proof.
  intros Hc Hb fuel m o m'. rewrite run_while.
  by apply preserves_while_fix.
Qed.

End preserves.

Lemma extends_load a : extends (load a).
Proof.
  intros fuel m o m'. unfold run, load. case_match; intros [= <- <-]; [|done].
  split; [apply prefix_of_app|cbn; lia].
Qed.

Lemma extends_store a v : extends (store a v).
Proof.
  intros fuel m o m'. unfold run, store. case_match; intros [= <- <-]; [|done].
  split; [apply prefix_of_app|cbn; lia].
Qed.

Lemma extends_mmio_write a v : extends (mmio_write a v).
Proof. intros fuel m o m' [= <- <-]. split; [apply prefix_of_app|cbn; lia]. Qed.

Lemma extends_tick : extends tick.
Proof. intros fuel m o m' [= <- <-]. split; [apply prefix_of_app|cbn; lia]. Qed.

Lemma read_only_load a : read_only (load a).
Proof. intros fuel m o m'. unfold run, load. by case_match; intros [= <- <-]. Qed.

Lemma read_only_mmio_write a v : read_only (mmio_write a v).
Proof. by intros fuel m o m' [= <- <-]. Qed.

Lemma read_only_tick : read_only tick.
Proof. by intros fuel m o m' [= <- <-]. Qed.

(** What leaves memory alone keeps it well formed. *)
Lemma read_only_wf_safe {A} (c : M A) : read_only c → wf_safe c.
Proof. intros Hc fuel m o m' Hrun Hwf. by rewrite (Hc _ _ _ _ Hrun). Qed.

Lemma wf_safe_store a v : wf_safe (store a v).
Proof.
  intros fuel m o m'. unfold run, store. case_match; intros [= <- <-]; [|done].
  intros Hwf. apply map_Forall_insert_2; [|done].
  pose proof (to_char_range v). lia.
Qed.

#[export] Hint Resolve preserves_ret preserves_bind preserves_fmap preserves_if
  preserves_while extends_load extends_store extends_mmio_write extends_tick
  read_only_load read_only_mmio_write read_only_tick : frame.
#[export] Hint Resolve wf_safe_store read_only_wf_safe : frame.

(** Frame goals: unfold to [preserves], then walk the program, case by case
    on the results that a continuation matches on. *)
Ltac solve_frame :=
  repeat first
    [ lazymatch goal with |- ∀ _, _ => intro end
    | lazymatch goal with |- PreOrder _ => apply _ end
    | apply preserves_ret
    | apply preserves_bind
    | apply preserves_fmap
    | apply preserves_while
    | apply extends_load | apply extends_store | apply extends_mmio_write
    | apply extends_tick | apply read_only_load | apply read_only_mmio_write
    | apply read_only_tick | apply wf_safe_store
    | solve [eauto with frame]
    | case_match ].

(** ** The budget *)

Lemma fuel_stable_ret {A} (a : A) : fuel_stable (mret a).
Proof. intros fuel fuel' m o m'. done. Qed.

Lemma fuel_stable_prim {A} (f : machine → outcome A * machine) :
  fuel_stable (λ _, f).
Proof. intros fuel fuel' m o m'. done. Qed.

Lemma fuel_stable_bind {A B} (c : M A) (k : A → M B) :
  fuel_stable c → (∀ a, fuel_stable (k a)) → fuel_stable (c ≫= k).
Proof.
  intros Hc Hk fuel fuel' m o m'. rewrite !run_bind.
  destruct (run c fuel m) as [[a|f] m1] eqn:E; cbn [and_then].
  - intros Hka Ho Hle. rewrite (Hc _ _ _ _ _ E) by done. cbn [and_then]. by eapply Hk.
  - intros [= <- <-] Ho Hle. rewrite (Hc _ _ _ _ _ E); [done|congruence|done].
Qed.

Lemma fuel_stable_fmap {A B} (f : A → B) (c : M A) :
  fuel_stable c → fuel_stable (f <$> c).
Proof. intros. apply fuel_stable_bind; [done|]. intros. apply fuel_stable_ret. Qed.

Lemma fuel_stable_while_fix {S} (cond : S → M bool) (body : S → M (ctl S)) :
  (∀ s, fuel_stable (cond s)) → (∀ s, fuel_stable (body s)) →
  ∀ n n' s fuel fuel' m o m',
    run (while_fix n cond body s) fuel m = (o, m') → o ≠ Fault OutOfFuel →
    (n ≤ n')%nat → (fuel ≤ fuel')%nat →
    run (while_fix n' cond body s) fuel' m = (o, m').
Proof.
  intros Hc Hb. induction n as [|n IH]; intros n' s fuel fuel' m o m'.
  { intros [= <- <-]. done. }
  destruct n' as [|n']; [lia|]. rewrite !while_fix_S.
  destruct (run (cond s) fuel m) as [[b|f] m1] eqn:Ec; cbn [and_then].
  2:{ intros [= <- <-] ? ? ?. rewrite (Hc _ _ _ _ _ _ Ec); [done|congruence|done]. }
  intros Hrun Ho Hn Hf. rewrite (Hc _ _ _ _ _ _ Ec) by done. cbn [and_then].
  destruct b; [|done].
  destruct (run (body s) fuel m1) as [[r|f] m2] eqn:Eb; cbn [and_then] in *.
  2:{ injection Hrun as <- <-. rewrite (Hb _ _ _ _ _ _ Eb); [done|congruence|done]. }
  rewrite (Hb _ _ _ _ _ _ Eb) by done. cbn [and_then].
  destruct r; [|done]. eapply IH; [done..|lia|done].
Qed.

Lemma fuel_stable_while {S} (cond : S → M bool) (body : S → M (ctl S)) s :
  (∀ s, fuel_stable (cond s)) → (∀ s, fuel_stable (body s)) →
  fuel_stable (while cond body s).
Proof.
  intros Hc Hb fuel fuel' m o m'. rewrite !run_while. intros.
  by eapply fuel_stable_while_fix.
Qed.

Lemma fuel_stable_load a : fuel_stable (load a).
Proof. apply fuel_stable_prim. Qed.

Lemma fuel_stable_store a v : fuel_stable (store a v).
Proof. apply fuel_stable_prim. Qed.

Lemma fuel_stable_mmio_write a v : fuel_stable (mmio_write a v).
Proof. apply fuel_stable_prim. Qed.

Lemma fuel_stable_tick : fuel_stable tick.
Proof. apply fuel_stable_prim. Qed.

(** [fuel_stable] of a program from that of its parts. *)
Ltac solve_fuel :=
  repeat first
    [ lazymatch goal with |- ∀ _, _ => intro end
    | apply fuel_stable_ret
    | apply fuel_stable_bind
    | apply fuel_stable_fmap
    | apply fuel_stable_while
    | apply fuel_stable_load | apply fuel_stable_store
    | apply fuel_stable_mmio_write | apply fuel_stable_tick
    | solve [eauto with frame]
    | case_match ].

(** ** Observations *)

Lemma mmio_writes_app a es1 es2 :
  mmio_writes a (es1 ++ es2) = mmio_writes a es1 ++ mmio_writes a es2.
Proof. apply omap_app. Qed.

Lemma loads_app es1 es2 : loads (es1 ++ es2) = loads es1 ++ loads es2.
Proof. apply omap_app. Qed.

(** ** Memory contents *)

Lemma bytes_at_app μ a bs1 bs2 :
  bytes_at μ a (bs1 ++ bs2)
  ↔ bytes_at μ a bs1 ∧ bytes_at μ (a + Z.of_nat (length bs1)) bs2.
Proof.
  revert a. induction bs1 as [|b bs1 IH]; intros a; cbn [app bytes_at length].
  - rewrite Z.add_0_r. tauto.
  - rewrite IH. replace (a + 1 + Z.of_nat (length bs1)) with
      (a + Z.of_nat (S (length bs1))) by lia. tauto.
Qed.

Lemma bytes_at_lookup μ a bs (i : nat) b :
  bytes_at μ a bs → bs !! i = Some b → μ !! (a + Z.of_nat i) = Some b.
Proof.
  revert a i. induction bs as [|b' bs IH]; intros a i; [done|].
  intros [Ha Hbs]. destruct i as [|i]; cbn.
  - intros [= <-]. by rewrite Z.add_0_r.
  - intros Hi. rewrite <- (IH (a + 1) i Hbs Hi). f_equal. lia.
Qed.

Lemma place_lookup_lt a bs μ x : x < a → place a bs μ !! x = μ !! x.
Proof.
  revert a. induction bs as [|b bs IH]; intros a Hx; [done|].
  cbn [place]. rewrite lookup_insert_ne by lia. apply IH. lia.
Qed.

Lemma bytes_at_insert_lt μ a bs x v :
  x < a → bytes_at μ a bs → bytes_at (<[x:=v]> μ) a bs.
Proof.
  revert a. induction bs as [|b bs IH]; intros a Hx; [done|].
  cbn [bytes_at]. intros [Ha Hbs]. split; [by rewrite lookup_insert_ne by lia|].
  apply IH; [lia|done].
Qed.

Lemma bytes_at_place a bs μ : bytes_at (place a bs μ) a bs.
Proof.
  revert a. induction bs as [|b bs IH]; intros a; [done|].
  cbn [place bytes_at]. split; [apply lookup_insert_eq|].
  apply bytes_at_insert_lt; [lia|apply IH].
Qed.

(** Bytes placed above a region leave the region as it was. *)
Lemma bytes_at_place_above μ a bs a' bs' :
  a + Z.of_nat (length bs) ≤ a' → bytes_at μ a bs → bytes_at (place a' bs' μ) a bs.
Proof.
  revert a. induction bs as [|b bs IH]; intros a Ha; [done|].
  cbn [bytes_at length] in *. intros [Hb Hbs]. split.
  - rewrite place_lookup_lt by lia. done.
  - apply IH; [lia|done].
Qed.

Lemma wf_mem_place a bs μ :
  Forall (λ b, 0 ≤ b < 256) bs → wf_mem μ → wf_mem (place a bs μ).
Proof.
  intros Hbs Hμ. revert a. induction Hbs as [|b bs Hb Hbs IH]; intros a; [done|].
  cbn [place]. apply map_Forall_insert_2; [done|apply IH].
Qed.

Lemma wf_mem_lookup μ a v : wf_mem μ → μ !! a = Some v → 0 ≤ v < 256.
Proof. intros Hμ Ha. exact (Hμ a v Ha). Qed.

Lemma wf_mem_bytes_at μ a bs :
  wf_mem μ → bytes_at μ a bs → Forall (λ b, 0 ≤ b < 256) bs.
Proof.
  intros Hμ. revert a. induction bs as [|b bs IH]; intros a; [done|].
  intros [Ha Hbs]. constructor; [by eapply wf_mem_lookup|by eapply IH].
Qed.

Lemma rodata_ok_lookup lit lits μ s :
  rodata_ok lit lits μ → s ∈ lits → cstring_at μ (lit s) (cstr s).
Proof. unfold rodata_ok. rewrite Forall_forall. auto. Qed.

(** ** Stores *)

Lemma run_store a v v0 fuel m :
  mem m !! a = Some v0 → run (store a v) fuel m = (Done tt, poke a (to_char v) m).
Proof. unfold run, store. by intros ->. Qed.

Lemma place_insert_lt a bs μ x v :
  x < a → place a bs (<[x:=v]> μ) = <[x:=v]> (place a bs μ).
Proof.
  revert a. induction bs as [|b bs IH]; intros a Hx; [done|].
  cbn [place]. rewrite IH by lia. apply insert_insert_ne. lia.
Qed.

Lemma place_lookup_ge a bs μ x :
  a + Z.of_nat (length bs) ≤ x → place a bs μ !! x = μ !! x.
Proof.
  revert a. induction bs as [|b bs IH]; intros a Hx; [done|].
  cbn [place length] in *. rewrite lookup_insert_ne by lia. apply IH. lia.
Qed.

Lemma mapped_insert μ a n x v : mapped μ a n → mapped (<[x:=v]> μ) a n.
Proof.
  revert a. induction n as [|n IH]; intros a; [done|].
  cbn [mapped]. intros [Ha Hn]. split; [|by apply IH].
  rewrite lookup_insert. case_decide; [done|]. done.
Qed.

Lemma store_bytes_run a bs fuel m :
  mapped (mem m) a (length bs) →
  run (store_bytes a bs) fuel m
  = (Done tt, advance (store_trace a bs) 0
                (set_mem (place a (to_char <$> bs) (mem m)) m)).
Proof.
  revert a m. induction bs as [|b bs IH]; intros a m.
  { intros _. cbn. by autorewrite with mrun. }
  cbn [length mapped store_bytes]. intros [[v0 Ha] Hn].
  rewrite run_bind, (run_store _ _ _ _ _ Ha). autorewrite with mrun.
  unfold poke. rewrite IH by (by apply mapped_insert).
  autorewrite with mrun. cbn [store_trace fmap list_fmap place].
  by rewrite place_insert_lt by lia.
Qed.

(** Bytes placed beside a region leave the region as it was. *)
Lemma bytes_at_place_disjoint μ a bs a' bs' :
  a + Z.of_nat (length bs) ≤ a' ∨ a' + Z.of_nat (length bs') ≤ a →
  bytes_at μ a bs → bytes_at (place a' bs' μ) a bs.
Proof.
  revert a. induction bs as [|b bs IH]; intros a Ha; [done|].
  cbn [bytes_at length] in *. intros [Hb Hbs]. split.
  - destruct Ha; [rewrite place_lookup_lt by lia|rewrite place_lookup_ge by lia]; done.
  - apply IH; [lia|done].
Qed.

Lemma cstring_at_place_disjoint μ a bs a' bs' :
  a + Z.of_nat (length bs) + 1 ≤ a' ∨ a' + Z.of_nat (length bs') ≤ a →
  cstring_at μ a bs → cstring_at (place a' bs' μ) a bs.
Proof.
  intros Ha [Hb Hz]. split; [|done]. apply bytes_at_place_disjoint; [|done].
  rewrite length_app. cbn. lia.
Qed.

Lemma mapped_place μ a n a' bs : mapped μ a n → mapped (place a' bs μ) a n.
Proof.
  revert a'. induction bs as [|b bs IH]; intros a'; [done|].
  cbn [place]. intros. by apply mapped_insert, IH.
Qed.

Lemma store_bytes_extends a bs : extends (store_bytes a bs).
Proof. revert a. induction bs; intros x; cbn [store_bytes]; solve_frame. Qed.

Lemma store_bytes_wf_safe a bs : wf_safe (store_bytes a bs).
Proof. revert a. induction bs; intros x; cbn [store_bytes]; solve_frame. Qed.

#[export] Hint Resolve store_bytes_extends store_bytes_wf_safe : frame.

(** ** Loops that do not end *)

(** A loop whose test never fails and whose body never breaks does not
    return, whatever the budget. *)
Lemma while_fix_forever {S} (cond : S → M bool) (body : S → M (ctl S)) :
  (∀ s fuel m b m', run (cond s) fuel m = (Done b, m') → b = true) →
  (∀ s fuel m r m', run (body s) fuel m = (Done r, m') → ∃ s', r = Continue s') →
  ∀ n s fuel m s' m', run (while_fix n cond body s) fuel m ≠ (Done s', m').
Proof.
  intros Hc Hb. induction n as [|n IH]; intros s fuel m s' m'; [done|].
  rewrite while_fix_S.
  destruct (run (cond s) fuel m) as [[b|f] m1] eqn:Ec; [|done].
  rewrite (Hc _ _ _ _ _ Ec). cbn [and_then].
  destruct (run (body s) fuel m1) as [[r|f] m2] eqn:Eb; [|done].
  destruct (Hb _ _ _ _ _ Eb) as [s2 ->]. cbn [and_then]. apply IH.
Qed.

(** ** Loops as transition systems *)

Section reach.
Context {S : Type} (body : S → M S) (fuel : nat) (s0 : S) (m0 : machine).

(** The loop is deterministic. *)
Lemma reach_functional n s1 m1 s2 m2 :
  reach body fuel s0 m0 n s1 m1 → reach body fuel s0 m0 n s2 m2 → s1 = s2 ∧ m1 = m2.
Proof.
  intros H1. revert s2 m2. induction H1 as [|n s m s' m' _ IH Hrun]; intros s2 m2 H2.
  - by inversion H2.
  - inversion H2 as [|? t mt ? ? Ht Hrunt]; subst.
    destruct (IH _ _ Ht) as [-> ->]. rewrite Hrun in Hrunt. by injection Hrunt.
Qed.

(** The rounds the transition system makes are the first rounds of the
    loop of the program. *)
Lemma reach_forever n s m k :
  reach body fuel s0 m0 n s m →
  run (forever (n + k) body s0) fuel m0 = run (forever k body s) fuel m.
Proof.
  intros Hr. revert k. induction Hr as [|n s m s' m' _ IH Hrun]; intros k; [done|].
  replace (Datatypes.S n + k)%nat with (n + Datatypes.S k)%nat by lia. rewrite IH.
  unfold forever. rewrite while_fix_S. autorewrite with mrun. cbn [and_then].
  rewrite Hrun. by autorewrite with mrun.
Qed.

(** With a budget of [n] rounds the loop of the program stops in the
    state the transition system reaches after [n] rounds. *)
Lemma reach_out_of_fuel n s m :
  reach body fuel s0 m0 n s m →
  run (forever n body s0) fuel m0 = (Fault OutOfFuel, m).
Proof.
  intros Hr. rewrite <- (Nat.add_0_r n). by rewrite (reach_forever n s m 0).
Qed.

End reach.

Lemma rodata_ok_subseteq lit lits lits' μ :
  lits' ⊆ lits → rodata_ok lit lits μ → rodata_ok lit lits' μ.
Proof.
  unfold rodata_ok. rewrite !Forall_forall. intros Hsub Hro l Hl. apply Hro, Hsub, Hl.
Qed.

Lemma rodata_ok_app lit lits1 lits2 μ :
  rodata_ok lit (lits1 ++ lits2) μ ↔ rodata_ok lit lits1 μ ∧ rodata_ok lit lits2 μ.
Proof. apply Forall_app. Qed.

(** Bytes written beside the literals leave the literals in place. *)
Lemma rodata_ok_place lit lits μ a bs :
  rodata_ok lit lits μ →
  Forall (λ l, lit l + Z.of_nat (String.length l) + 1 ≤ a ∨
               a + Z.of_nat (length bs) ≤ lit l) lits →
  rodata_ok lit lits (place a bs μ).
Proof.
  unfold rodata_ok. rewrite !Forall_forall. intros Hro Hd l Hl.
  apply cstring_at_place_disjoint; [|by apply Hro].
  rewrite cstr_length. by apply Hd.
Qed.

Lemma cstring_at_lookup μ a bs (i : nat) b :
  cstring_at μ a bs → bs !! i = Some b → μ !! (a + Z.of_nat i) = Some b.
Proof.
  intros [Hb _] Hi. eapply bytes_at_lookup; [done|]. by apply lookup_app_l_Some.
Qed.
