(* ===== verification/Uart.v ===== *)
(** * Uart: the polled UART transmitter

    [uart_putc] and [uart_puts_safe] of minimal_main_debug.c: a byte is
    written to the data register at 0x9000000 and the program then spins for
    10000 iterations; the flag register is declared and never read.  A string
    is sent by reading memory byte by byte until a NUL.

    [scan] is the reference for every walk over a string: the bytes readable
    from an address before a NUL, an unmapped address or a bound.
    [uart_puts_safe_total] says what [uart_puts_safe] does on every memory:
    the bytes of [scan] are transmitted in order, then the program returns,
    traps or is still running when the budget is spent.

    [UartDriver] is what the formatters need of a byte sink; [sends] and
    [stops] say what a program transmits before it returns or faults, and
    compose along sequences and loops. *)

From Stdlib Require Import ZArith Lia Ascii String.
From stdpp Require Import base tactics option numbers list strings gmap.
From S2P Require Import Prelude CInt Machine.

#[local] Open Scope Z_scope.

(** ** The device *)

Definition UART0_DR : Z := 0x9000000.
Definition UART0_FR : Z := 0x9000018.

(** Iterations of the settle loop after each byte. *)
Definition SETTLE : Z := 10000.

(** ** The driver *)

(** [for (volatile int i = 0; i < bound; i++) {}] *)
Definition busy_wait (bound : Z) : M unit :=
  _ ← while (λ i, mret (i <? bound))
            (λ i, tick;; mret (Continue (to_int (i + 1))))
            0;
  mret tt.

Definition uart_putc (c : Z) : M unit :=
  mmio_write UART0_DR (to_char c);;
  busy_wait 10000.

Definition uart_puts_safe (s : Z) : M unit :=
  _ ← while (λ s, ch ← load s; mret (negb (ch =? 0)))
            (λ s, ch ← load s; uart_putc ch;; mret (Continue (s + 1)))
            s;
  mret tt.

(** ** What a driver promises

    A byte sink: the byte reaches the data register, [SETTLE] iterations
    elapse, nothing else happens and the call cannot fail. *)
Class UartDriver (putc : Z → M unit) : Prop :=
  uart_driver_run : ∀ c fuel m, SETTLE < Z.of_nat fuel →
    run (putc c) fuel m = (Done tt, advance [EvMmio UART0_DR (to_char c)] SETTLE m).

(** ** Reference definitions *)

(** Why a walk over memory stopped. *)
Inductive stop : Type :=
| AtNul                   (* the byte read is the terminator *)
| AtUnmapped              (* the address is not mapped: the read traps *)
| AtBound.                (* the bound on the number of bytes is reached *)

#[export] Instance stop_eq_dec : EqDecision stop.
Proof. solve_decision. Defined.

(** [scan μ a n]: the bytes read from [a] on before the walk stops, at most
    [n] of them, and why it stopped. *)
Fixpoint scan (μ : gmap Z Z) (a : Z) (n : nat) : list Z * stop :=
  match n with
  | O => ([], AtBound)
  | S n' =>
      match μ !! a with
      | None => ([], AtUnmapped)
      | Some b =>
          if b =? 0 then ([], AtNul)
          else let '(bs, st) := scan μ (a + 1) n' in (b :: bs, st)
      end
  end.

(** The bytes transmitted by a trace. *)
Definition uart_output (es : list event) : list Z := mmio_writes UART0_DR es.

(** The events of transmitting one byte. *)
Definition putc_trace (c : Z) : list event := [EvMmio UART0_DR (to_char c)].

(** The events of transmitting the bytes [bs], none read from memory. *)
Definition emit_trace (bs : list Z) : list event := bs ≫= putc_trace.

(** The events of [uart_puts_safe] over the bytes [bs] found at [a]: each
    byte is read for the loop test, read again for the call and written. *)
Fixpoint puts_trace (a : Z) (bs : list Z) : list event :=
  match bs with
  | [] => []
  | b :: bs' => EvLoad a b :: EvLoad a b :: putc_trace b ++ puts_trace (a + 1) bs'
  end.

(** The read on which a walk that began at [a] and passed [n] bytes stops. *)
Definition stop_trace (a : Z) (n : nat) (st : stop) : list event :=
  match st with
  | AtNul => [EvLoad (a + Z.of_nat n) 0]
  | AtUnmapped | AtBound => []
  end.

(** The outcome of a walk that began at [a] and passed [n] bytes. *)
Definition stop_outcome (a : Z) (n : nat) (st : stop) : outcome unit :=
  match st with
  | AtNul => Done tt
  | AtUnmapped => Fault (Trapped (a + Z.of_nat n))
  | AtBound => Fault OutOfFuel
  end.

(** The events of [uart_puts_safe] over the whole string [bs] at [a]: its
    bytes, then the read of the terminator. *)
Definition lit_trace (a : Z) (bs : list Z) : list event :=
  puts_trace a bs ++ [EvLoad (a + Z.of_nat (length bs)) 0].

(** What [uart_puts_safe] leaves of a walk [r] that began at [a]. *)
Definition puts_result (a : Z) (r : list Z * stop) (m : machine)
    : outcome unit * machine :=
  (stop_outcome a (length r.1) r.2,
   advance (puts_trace a r.1 ++ stop_trace a (length r.1) r.2)
           (SETTLE * Z.of_nat (length r.1)) m).

(** A trace in which every device write directly follows a read of the
    byte it transmits: [prev] is the value of the event before, when that was
    a read. *)
Fixpoint echoes (prev : option Z) (es : list event) : Prop :=
  match es with
  | [] => True
  | EvLoad _ v :: es' => echoes (Some v) es'
  | EvStore _ _ :: es' => echoes None es'
  | EvMmio _ w :: es' => to_char <$> prev = Some w ∧ echoes None es'
  end.

(** ** What a program sends

    [sends c fuel m a chs x μ]: started on [m], the program [c] returns [a]
    after transmitting exactly the characters [chs]; it has spun [SETTLE]
    iterations per character and [x] more, and leaves memory [μ]. *)
Definition sends {A} (c : M A) (fuel : nat) (m : machine) (a : A)
    (chs : list Z) (x : Z) (μ : gmap Z Z) : Prop :=
  ∃ es, run c fuel m
        = (Done a, advance es (SETTLE * Z.of_nat (length chs) + x) (set_mem μ m)) ∧
        uart_output es = chs.

(** [stops c fuel m f chs x μ]: started on [m], the program [c] ends in the
    fault [f] after transmitting exactly the characters [chs]. *)
Definition stops {A} (c : M A) (fuel : nat) (m : machine) (f : fault)
    (chs : list Z) (x : Z) (μ : gmap Z Z) : Prop :=
  ∃ es, run c fuel m
        = (Fault f, advance es (SETTLE * Z.of_nat (length chs) + x) (set_mem μ m)) ∧
        uart_output es = chs.

(** ** A concrete machine

    ["Hi"] with its terminator at 0x40001000; ["Hey"] at 0x40002000 with
    unmapped memory behind it; 10001 bytes [A] from 0x40003000 on. *)
Definition uart_demo : machine :=
  Machine (place 0x40003000 (replicate (Z.to_nat 10001) (chr "A"))
             (place 0x40002000 (cstr "Hey")
                (place 0x40001000 (cstr "Hi" ++ [0]) ∅))) [] 0.

(** * Lemmas *)

(** ** The settle loop *)

Lemma busy_loop_run bound k i fuel m :
  0 ≤ i ≤ bound → bound < 2 ^ 31 → bound - i < Z.of_nat k →
  run (while_fix k (λ i, mret (i <? bound))
         (λ i, tick;; mret (Continue (to_int (i + 1)))) i) fuel m
  = (Done bound, advance [] (bound - i) m).
Proof.
  revert i m. induction k as [|k IH]; intros i m Hi Hb Hk; [lia|].
  rewrite while_fix_S. autorewrite with mrun.
  destruct (i <? bound) eqn:E; zbool.
  - rewrite to_int_small by lia. rewrite IH by lia.
    autorewrite with mrun. do 2 f_equal. lia.
  - replace i with bound by lia. rewrite Z.sub_diag. by autorewrite with mrun.
Qed.

Lemma busy_wait_run bound fuel m :
  0 ≤ bound < 2 ^ 31 → bound < Z.of_nat fuel →
  run (busy_wait bound) fuel m = (Done tt, advance [] bound m).
Proof.
  intros Hb Hf. unfold busy_wait. rewrite run_bind, run_while.
  rewrite busy_loop_run by lia. autorewrite with mrun. do 2 f_equal. lia.
Qed.

(** The loop of a [delay]: [count] rounds of a settle loop of [inner]
    iterations, counted down in an [unsigned int]. *)
Lemma delay_loop_run inner (n k : nat) fuel m :
  0 ≤ inner < 2 ^ 31 → Z.of_nat n < 2 ^ 32 → (n < k)%nat → inner < Z.of_nat fuel →
  run (while_fix k (λ count, mret (negb (count =? 0)))
         (λ count, let count := to_uint (count - 1) in
                   busy_wait inner;; mret (Continue count))
         (Z.of_nat n)) fuel m
  = (Done 0, advance [] (inner * Z.of_nat n) m).
Proof.
  intros Hi Hn Hk Hf. revert k m Hk.
  induction n as [|n IH]; intros k m Hk; (destruct k as [|k]; [lia|]);
    rewrite while_fix_S; autorewrite with mrun.
  { cbn. rewrite Z.mul_0_r. by autorewrite with mrun. }
  destruct (Z.of_nat (S n) =? 0) eqn:E; zbool. cbn [negb]. cbn zeta.
  rewrite busy_wait_run by lia. autorewrite with mrun.
  rewrite to_uint_small by lia.
  replace (Z.of_nat (S n) - 1) with (Z.of_nat n) by lia.
  rewrite IH by lia. autorewrite with mrun. do 2 f_equal. lia.
Qed.

(** ** One byte *)

Lemma uart_putc_spec c fuel m :
  10000 < Z.of_nat fuel →
  run (uart_putc c) fuel m = (Done tt, advance (putc_trace c) 10000 m).
Proof.
  intros Hf. unfold uart_putc. rewrite run_bind, run_mmio_write.
  autorewrite with mrun. rewrite busy_wait_run by lia.
  autorewrite with mrun. unfold putc_trace.
  by rewrite (to_uint_small (to_char c)) by (pose proof (to_char_range c); lia).
Qed.

(** C8: [uart_putc] cannot fail once the budget covers its settle loop: it
    writes the byte, reduced to 8 bits, to the data register, spins for exactly
    10000 iterations, and changes nothing else of the machine. *)
Theorem uart_putc_run c fuel m :
  10000 < Z.of_nat fuel →
  run (uart_putc c) fuel m
  = (Done tt, Machine (mem m) (trace m ++ [EvMmio UART0_DR (c `mod` 256)])
                      (cycles m + 10000)).
Proof. apply uart_putc_spec. Qed.

Lemma uart_putc_run_witness :
  run (uart_putc 321) (Z.to_nat 10001) (Machine ∅ [] 0)
  = (Done tt, Machine ∅ [EvMmio UART0_DR 65] 10000).
Proof.
  exact (uart_putc_run 321 (Z.to_nat 10001) (Machine ∅ [] 0) ltac:(lia)).
Defined.

(** ** Walks over memory *)

Lemma scan_S μ a n :
  scan μ a (S n) =
  match μ !! a with
  | None => ([], AtUnmapped)
  | Some b => if b =? 0 then ([], AtNul)
              else ((b :: (scan μ (a + 1) n).1), (scan μ (a + 1) n).2)
  end.
Proof. cbn [scan]. repeat case_match; simplify_eq/=; done. Qed.

Lemma scan_length μ a n : (length (scan μ a n).1 ≤ n)%nat.
Proof.
  revert a. induction n as [|n IH]; intros a; [done|].
  rewrite scan_S. repeat case_match; cbn; try lia. specialize (IH (a + 1)). lia.
Qed.

Lemma scan_nul_free μ a n : nul_free (scan μ a n).1.
Proof.
  revert a. induction n as [|n IH]; intros a; [constructor|].
  rewrite scan_S. repeat case_match; try constructor; zbool. apply IH.
Qed.

Lemma scan_bytes_at μ a n : bytes_at μ a (scan μ a n).1.
Proof.
  revert a. induction n as [|n IH]; intros a; [done|].
  rewrite scan_S. by repeat case_match.
Qed.

(** A walk that did not reach its bound passed fewer bytes than the bound. *)
Lemma scan_stop_length μ a n :
  (scan μ a n).2 ≠ AtBound → (length (scan μ a n).1 < n)%nat.
Proof.
  revert a. induction n as [|n IH]; intros a; [done|].
  rewrite scan_S. repeat case_match; cbn; try lia.
  intros Hst. specialize (IH (a + 1) Hst). lia.
Qed.

Lemma scan_at_bound μ a n :
  (scan μ a n).2 = AtBound → length (scan μ a n).1 = n.
Proof.
  revert a. induction n as [|n IH]; intros a; [done|].
  rewrite scan_S. repeat case_match; cbn; try done.
  intros Hst. by rewrite (IH (a + 1) Hst).
Qed.

(** The walk over a mapped string ends at its terminator. *)
Lemma scan_cstring μ a bs n :
  cstring_at μ a bs → (length bs < n)%nat → scan μ a n = (bs, AtNul).
Proof.
  intros [Hb Hz]. revert a n Hb.
  induction Hz as [|b bs Hb0 Hz IH]; intros a n Hb Hn;
    (destruct n as [|n]; [cbn in Hn; lia|]); rewrite scan_S;
    cbn in Hb; destruct Hb as [-> Hb]; [done|].
  destruct (b =? 0) eqn:E; zbool.
  rewrite (IH (a + 1) n); [done..|cbn in Hn; lia].
Qed.

(** The walk over bytes that end at the edge of the mapped memory. *)
Lemma scan_unmapped μ a bs n :
  bytes_at μ a bs → nul_free bs → μ !! (a + Z.of_nat (length bs)) = None →
  (length bs < n)%nat → scan μ a n = (bs, AtUnmapped).
Proof.
  intros Hb Hz. revert a n Hb.
  induction Hz as [|b bs Hb0 Hz IH]; intros a n Hb Hu Hn;
    (destruct n as [|n]; [cbn in Hn; lia|]); rewrite scan_S; cbn in Hb, Hu.
  { rewrite Z.add_0_r in Hu. by rewrite Hu. }
  destruct Hb as [-> Hb]. destruct (b =? 0) eqn:E; zbool.
  rewrite (IH (a + 1) n); [done..| |cbn in Hn; lia].
  rewrite <- Hu. f_equal. lia.
Qed.

(** A walk that stopped on an unmapped address names that address. *)
Lemma scan_unmapped_at μ a n :
  (scan μ a n).2 = AtUnmapped → μ !! (a + Z.of_nat (length (scan μ a n).1)) = None.
Proof.
  revert a. induction n as [|n IH]; intros a; [done|].
  rewrite scan_S. repeat case_match; cbn [fst snd length]; try done.
  - intros Hst. rewrite <- (IH (a + 1) Hst). f_equal. lia.
  - intros _. by rewrite Z.add_0_r.
Qed.

(** The walk over a mapped string with any bound: the bound cuts it. *)
Lemma scan_cstring_take μ a bs n :
  cstring_at μ a bs →
  scan μ a n = (take n bs, if decide (length bs < n)%nat then AtNul else AtBound).
Proof.
  intros [Hb Hz]. revert a n Hb.
  induction Hz as [|b bs Hb0 Hz IH]; intros a n Hb; destruct n as [|n]; try done;
    rewrite scan_S; cbn in Hb; destruct Hb as [-> Hb]; [done|].
  destruct (b =? 0) eqn:E; zbool. rewrite (IH (a + 1) n Hb). cbn [fst snd take length].
  f_equal. repeat case_decide; done || lia.
Qed.

(** ** Strings *)

Lemma puts_trace_app a bs1 bs2 :
  puts_trace a (bs1 ++ bs2)
  = puts_trace a bs1 ++ puts_trace (a + Z.of_nat (length bs1)) bs2.
Proof.
  revert a. induction bs1 as [|b bs1 IH]; intros a; cbn [puts_trace app length].
  - by rewrite Z.add_0_r.
  - rewrite IH, <- app_assoc. do 5 f_equal. lia.
Qed.

Lemma puts_loop_run k a fuel m :
  10000 < Z.of_nat fuel →
  and_then
    (run (while_fix k (λ s, ch ← load s; mret (negb (ch =? 0)))
            (λ s, ch ← load s; uart_putc ch;; mret (Continue (s + 1))) a) fuel m)
    (λ _ m', (Done tt, m'))
  = puts_result a (scan (mem m) a k) m.
Proof.
  intros Hf. revert a m. induction k as [|k IH]; intros a m.
  { rewrite while_fix_O. unfold puts_result. cbn. by autorewrite with mrun. }
  rewrite while_fix_S, scan_S, run_bind.
  destruct (mem m !! a) as [b|] eqn:Ea.
  2:{ rewrite run_load_trap by done. unfold puts_result. cbn.
      rewrite Z.add_0_r. by autorewrite with mrun. }
  rewrite (run_load _ _ _ _ Ea). autorewrite with mrun.
  destruct (b =? 0) eqn:Eb; zbool; cbn [negb].
  { subst b. unfold puts_result. cbn. rewrite Z.add_0_r. by autorewrite with mrun. }
  rewrite (run_load a b) by done. autorewrite with mrun.
  rewrite uart_putc_spec by done. autorewrite with mrun.
  rewrite IH. unfold puts_result. cbn [fst snd length puts_trace mem advance].
  f_equal.
  - destruct (scan (mem m) (a + 1) k).2; cbn; do 2 f_equal; lia.
  - autorewrite with mrun. unfold SETTLE. f_equal; [|lia].
    cbn. do 4 f_equal. destruct (scan (mem m) (a + 1) k).2; cbn; do 2 f_equal; lia.
Qed.

Lemma uart_puts_safe_spec a fuel m :
  10000 < Z.of_nat fuel →
  run (uart_puts_safe a) fuel m = puts_result a (scan (mem m) a fuel) m.
Proof.
  intros Hf. unfold uart_puts_safe. rewrite run_bind, run_while.
  by apply puts_loop_run.
Qed.

Lemma uart_puts_safe_cstring a bs fuel m :
  cstring_at (mem m) a bs → 10000 < Z.of_nat fuel → (length bs < fuel)%nat →
  run (uart_puts_safe a) fuel m
  = (Done tt, advance (lit_trace a bs) (SETTLE * Z.of_nat (length bs)) m).
Proof.
  intros Hs Hf Hl. rewrite uart_puts_safe_spec by done.
  by rewrite (scan_cstring _ _ bs).
Qed.

(** A string literal of the program text: mapped by the layout, and far
    shorter than the budget the settle loop already needs. *)
Lemma puts_lit_run lit lits l fuel m :
  rodata_ok lit lits (mem m) → l ∈ lits → 10000 < Z.of_nat fuel →
  Z.of_nat (String.length l) ≤ 10000 →
  run (uart_puts_safe (lit l)) fuel m
  = (Done tt, advance (lit_trace (lit l) (cstr l))
                (SETTLE * Z.of_nat (length (cstr l))) m).
Proof.
  intros Hro Hl Hf Hlen. apply uart_puts_safe_cstring; [|done|].
  - by eapply rodata_ok_lookup.
  - rewrite cstr_length. lia.
Qed.

(** The side conditions of [puts_lit_run] on a literal of a concrete list. *)
Ltac lit_side :=
  first [ done
        | lia
        | solve [repeat constructor]
        | by vm_compute ].

(** ** Traces of transmissions *)

Lemma emit_trace_nil : emit_trace [] = [].
Proof. done. Qed.

Lemma emit_trace_cons b bs : emit_trace (b :: bs) = putc_trace b ++ emit_trace bs.
Proof. done. Qed.

Lemma emit_trace_app bs1 bs2 :
  emit_trace (bs1 ++ bs2) = emit_trace bs1 ++ emit_trace bs2.
Proof. apply bind_app. Qed.

Lemma emit_trace_singleton b : emit_trace [b] = putc_trace b.
Proof. done. Qed.

Lemma emit_trace_length bs : length (emit_trace bs) = length bs.
Proof. induction bs as [|b bs IH]; [done|]. rewrite emit_trace_cons. cbn. by rewrite IH. Qed.

(** ** What reaches the wire *)

Lemma uart_output_app es1 es2 :
  uart_output (es1 ++ es2) = uart_output es1 ++ uart_output es2.
Proof. apply mmio_writes_app. Qed.

Lemma uart_output_putc_trace c : uart_output (putc_trace c) = [to_char c].
Proof. done. Qed.

Lemma uart_output_emit_trace bs : uart_output (emit_trace bs) = to_char <$> bs.
Proof.
  unfold emit_trace. induction bs as [|b bs IH]; [done|].
  cbn [mbind list_bind fmap list_fmap]. by rewrite uart_output_app, IH.
Qed.

Lemma uart_output_puts_trace a bs : uart_output (puts_trace a bs) = to_char <$> bs.
Proof.
  revert a. induction bs as [|b bs IH]; intros a; [done|].
  cbn [puts_trace]. change (uart_output (?e1 :: ?e2 :: ?es)) with (uart_output es).
  by rewrite uart_output_app, IH.
Qed.

Lemma uart_output_lit_trace a bs : uart_output (lit_trace a bs) = to_char <$> bs.
Proof.
  unfold lit_trace. rewrite uart_output_app, uart_output_puts_trace. apply app_nil_r.
Qed.

Lemma uart_output_stop_trace a n st : uart_output (stop_trace a n st) = [].
Proof. by destruct st. Qed.

Lemma fmap_to_char_bytes bs : Forall (λ b, 0 ≤ b < 256) bs → to_char <$> bs = bs.
Proof.
  induction 1 as [|b bs Hb _ IH]; [done|].
  cbn [fmap list_fmap]. by rewrite to_char_small, IH.
Qed.

Lemma loads_putc_trace c : loads (putc_trace c) = [].
Proof. done. Qed.

Lemma loads_emit_trace bs : loads (emit_trace bs) = [].
Proof.
  unfold emit_trace. induction bs as [|b bs IH]; [done|].
  cbn [mbind list_bind]. by rewrite loads_app, IH.
Qed.

#[export] Hint Rewrite uart_output_app uart_output_putc_trace uart_output_emit_trace
  uart_output_puts_trace uart_output_lit_trace uart_output_stop_trace loads_app loads_putc_trace
  loads_emit_trace : mrun.

(** ** Frame *)

Lemma busy_wait_read_only bound : read_only (busy_wait bound).
Proof. unfold busy_wait. solve_frame. Qed.

Lemma busy_wait_extends bound : extends (busy_wait bound).
Proof. unfold busy_wait. solve_frame. Qed.

Lemma uart_putc_read_only c : read_only (uart_putc c).
Proof. unfold uart_putc. pose proof busy_wait_read_only. solve_frame. Qed.

Lemma uart_putc_extends c : extends (uart_putc c).
Proof. unfold uart_putc. pose proof busy_wait_extends. solve_frame. Qed.

Lemma uart_puts_safe_read_only s : read_only (uart_puts_safe s).
Proof. unfold uart_puts_safe. pose proof uart_putc_read_only. solve_frame. Qed.

Lemma uart_puts_safe_extends s : extends (uart_puts_safe s).
Proof. unfold uart_puts_safe. pose proof uart_putc_extends. solve_frame. Qed.

#[export] Hint Resolve busy_wait_read_only busy_wait_extends uart_putc_read_only
  uart_putc_extends uart_puts_safe_read_only uart_puts_safe_extends : frame.

(** ** The budget *)

Lemma busy_wait_fuel_stable bound : fuel_stable (busy_wait bound).
Proof. unfold busy_wait. solve_fuel. Qed.

Lemma uart_putc_fuel_stable c : fuel_stable (uart_putc c).
Proof. unfold uart_putc. pose proof busy_wait_fuel_stable. solve_fuel. Qed.

Lemma uart_puts_safe_fuel_stable s : fuel_stable (uart_puts_safe s).
Proof. unfold uart_puts_safe. pose proof uart_putc_fuel_stable. solve_fuel. Qed.

#[export] Hint Resolve busy_wait_fuel_stable uart_putc_fuel_stable
  uart_puts_safe_fuel_stable : frame.

(** ** The calculus of [sends] *)

Section sends.
Context {A B : Type}.
Implicit Types (m : machine) (chs : list Z) (μ : gmap Z Z).

(** From an equation on [run] to [sends]. *)
Lemma sends_intro (c : M A) fuel m a es n chs x μ :
  run c fuel m = (Done a, advance es n (set_mem μ m)) →
  uart_output es = chs → n = SETTLE * Z.of_nat (length chs) + x →
  sends c fuel m a chs x μ.
Proof. intros Hrun Hes ->. by exists es. Qed.

Lemma sends_ret (a : A) fuel m : sends (mret a) fuel m a [] 0 (mem m).
Proof. exists []. by autorewrite with mrun. Qed.

Lemma sends_ret_at (a : A) fuel m μ : mem m = μ → sends (mret a) fuel m a [] 0 μ.
Proof. intros <-. apply sends_ret. Qed.

Lemma sends_ret_eq (a a' : A) fuel m :
  a = a' → sends (mret a) fuel m a' [] 0 (mem m).
Proof. intros <-. apply sends_ret. Qed.

(** A read that traps. *)
Lemma stops_load_trap a fuel m :
  mem m !! a = None → stops (load a) fuel m (Trapped a) [] 0 (mem m).
Proof. intros Ha. exists []. rewrite run_load_trap by done. by autorewrite with mrun. Qed.

Lemma sends_bind (c : M A) (k : A → M B) fuel m a b chs1 chs2 x1 x2 μ1 μ2 :
  sends c fuel m a chs1 x1 μ1 →
  (∀ m1, mem m1 = μ1 → sends (k a) fuel m1 b chs2 x2 μ2) →
  sends (c ≫= k) fuel m b (chs1 ++ chs2) (x1 + x2) μ2.
Proof.
  intros (es1 & Hc & Hes1) Hk.
  destruct (Hk (advance es1 (SETTLE * Z.of_nat (length chs1) + x1) (set_mem μ1 m)))
    as (es2 & Hk' & Hes2); [done|].
  exists (es1 ++ es2). rewrite run_bind, Hc. cbn [and_then]. rewrite Hk'.
  autorewrite with mrun. split; [|by rewrite Hes1, Hes2].
  do 2 f_equal. rewrite length_app. lia.
Qed.

(** What was sent is what the trace has gained. *)
Lemma sends_output (c : M A) fuel m a chs x μ :
  sends c fuel m a chs x μ →
  ∃ m', run c fuel m = (Done a, m') ∧ mem m' = μ ∧
        uart_output (trace m') = uart_output (trace m) ++ chs ∧
        cycles m' = cycles m + SETTLE * Z.of_nat (length chs) + x.
Proof.
  intros (es & Hrun & Hes). eexists. split; [done|].
  autorewrite with mrun. rewrite Hes. split; [done|]. split; [done|]. cbn. lia.
Qed.

(** A fault in the first program of a sequence ends the sequence. *)
Lemma stops_bind_l (c : M A) (k : A → M B) fuel m f chs x μ :
  stops c fuel m f chs x μ → stops (c ≫= k) fuel m f chs x μ.
Proof. intros (es & Hc & Hes). exists es. by rewrite run_bind, Hc. Qed.

(** A fault after the first program has returned. *)
Lemma stops_bind_r (c : M A) (k : A → M B) fuel m a f chs1 chs2 x1 x2 μ1 μ2 :
  sends c fuel m a chs1 x1 μ1 →
  (∀ m1, mem m1 = μ1 → stops (k a) fuel m1 f chs2 x2 μ2) →
  stops (c ≫= k) fuel m f (chs1 ++ chs2) (x1 + x2) μ2.
Proof.
  intros (es1 & Hc & Hes1) Hk.
  destruct (Hk (advance es1 (SETTLE * Z.of_nat (length chs1) + x1) (set_mem μ1 m)))
    as (es2 & Hk' & Hes2); [done|].
  exists (es1 ++ es2). rewrite run_bind, Hc. cbn [and_then]. rewrite Hk'.
  autorewrite with mrun. split; [|by rewrite Hes1, Hes2].
  do 2 f_equal. rewrite length_app. lia.
Qed.

Lemma stops_output (c : M A) fuel m f chs x μ :
  stops c fuel m f chs x μ →
  ∃ m', run c fuel m = (Fault f, m') ∧ mem m' = μ ∧
        uart_output (trace m') = uart_output (trace m) ++ chs ∧
        cycles m' = cycles m + SETTLE * Z.of_nat (length chs) + x.
Proof.
  intros (es & Hrun & Hes). eexists. split; [done|].
  autorewrite with mrun. rewrite Hes. split; [done|]. split; [done|]. cbn. lia.
Qed.

Lemma stops_eq (c : M A) fuel m f chs chs' x x' μ :
  stops c fuel m f chs x μ → chs = chs' → x = x' →
  stops c fuel m f chs' x' μ.
Proof. by intros ? <- <-. Qed.

End sends.

Lemma sends_putc putc `{!UartDriver putc} ch fuel m :
  SETTLE < Z.of_nat fuel → sends (putc ch) fuel m tt [to_char ch] 0 (mem m).
Proof.
  intros Hf. eapply sends_intro; [rewrite uart_driver_run by done|..].
  - by autorewrite with mrun.
  - done.
  - cbn. lia.
Qed.

Lemma sends_putc_if putc `{!UartDriver putc} (b : bool) x y fuel m :
  SETTLE < Z.of_nat fuel →
  sends (if b then putc x else putc y) fuel m tt
    [to_char (if b then x else y)] 0 (mem m).
Proof. intros. destruct b; by apply sends_putc. Qed.

Lemma sends_puts_lit lit lits l fuel m :
  rodata_ok lit lits (mem m) → l ∈ lits → 10000 < Z.of_nat fuel →
  Z.of_nat (String.length l) ≤ 10000 →
  sends (uart_puts_safe (lit l)) fuel m tt (cstr l) 0 (mem m).
Proof.
  intros. eapply sends_intro; [rewrite (puts_lit_run lit lits) by done|..].
  - by autorewrite with mrun.
  - rewrite uart_output_lit_trace. apply fmap_to_char_bytes, cstr_range.
  - lia.
Qed.

Lemma sends_busy_wait bound fuel m :
  0 ≤ bound < 2 ^ 31 → bound < Z.of_nat fuel →
  sends (busy_wait bound) fuel m tt [] bound (mem m).
Proof.
  intros. eapply sends_intro; [rewrite busy_wait_run by done|..].
  - by autorewrite with mrun.
  - done.
  - cbn. lia.
Qed.

Lemma sends_load a v fuel m :
  mem m !! a = Some v → sends (load a) fuel m v [] 0 (mem m).
Proof.
  intros Ha. eapply sends_intro; [rewrite (run_load _ _ _ _ Ha)|..].
  - by autorewrite with mrun.
  - done.
  - cbn. lia.
Qed.

Lemma uart_output_store_trace a bs : uart_output (store_trace a bs) = [].
Proof. revert a. induction bs as [|b bs IH]; intros a; [done|]. apply IH. Qed.

Lemma sends_store_bytes a bs fuel m :
  mapped (mem m) a (length bs) →
  sends (store_bytes a bs) fuel m tt [] 0 (place a (to_char <$> bs) (mem m)).
Proof.
  intros Ha. eapply sends_intro; [by rewrite store_bytes_run|..].
  - apply uart_output_store_trace.
  - cbn. lia.
Qed.

(** [sends] up to equal characters and cycles. *)
Lemma sends_eq {A} (c : M A) fuel m a chs chs' x x' μ :
  sends c fuel m a chs x μ → chs = chs' → x = x' →
  sends c fuel m a chs' x' μ.
Proof. by intros ? <- <-. Qed.

(** A single character read from memory and transmitted. *)
Lemma sends_load_putc putc `{!UartDriver putc} a v fuel m :
  mem m !! a = Some v → SETTLE < Z.of_nat fuel →
  sends (ch ← load a; putc ch) fuel m tt [to_char v] 0 (mem m).
Proof.
  intros Ha Hf. eapply sends_eq.
  - eapply sends_bind; [by apply sends_load|].
    intros m1 <-. by apply sends_putc.
  - done.
  - done.
Qed.

(** ** Loops in the calculus *)

Section sends_while.
Context {S : Type} (cond : S → M bool) (body : S → M (ctl S)).
Implicit Types (m : machine) (chs : list Z) (μ : gmap Z Z) (s : S).

(** The test fails: the loop is left. *)
Lemma sends_while_exit k s fuel m chs x μ :
  sends (cond s) fuel m false chs x μ →
  sends (while_fix (Datatypes.S k) cond body s) fuel m s chs x μ.
Proof.
  intros Hc. cbn [while_fix]. eapply sends_eq.
  - eapply sends_bind; [done|]. intros m1 Hm1. by apply sends_ret_at.
  - apply app_nil_r.
  - lia.
Qed.

(** The test passes and the body goes on to the next round. *)
Lemma sends_while_step k s s' r fuel m chs1 chs2 chs3 x1 x2 x3 μ1 μ2 μ3 :
  sends (cond s) fuel m true chs1 x1 μ1 →
  (∀ m1, mem m1 = μ1 → sends (body s) fuel m1 (Continue s') chs2 x2 μ2) →
  (∀ m2, mem m2 = μ2 → sends (while_fix k cond body s') fuel m2 r chs3 x3 μ3) →
  sends (while_fix (Datatypes.S k) cond body s) fuel m r
    (chs1 ++ chs2 ++ chs3) (x1 + (x2 + x3)) μ3.
Proof.
  intros Hc Hb Hk. cbn [while_fix].
  eapply sends_bind; [done|]. intros m1 Hm1.
  eapply sends_bind; [by apply Hb|]. done.
Qed.

(** The budget of rounds is spent. *)
Lemma stops_while_fuel s fuel m :
  stops (while_fix 0 cond body s) fuel m OutOfFuel [] 0 (mem m).
Proof. exists []. rewrite while_fix_O. by autorewrite with mrun. Qed.

(** The test passes, the body goes on, and a later round faults. *)
Lemma stops_while_step k s s' f fuel m chs1 chs2 chs3 x1 x2 x3 μ1 μ2 μ3 :
  sends (cond s) fuel m true chs1 x1 μ1 →
  (∀ m1, mem m1 = μ1 → sends (body s) fuel m1 (Continue s') chs2 x2 μ2) →
  (∀ m2, mem m2 = μ2 → stops (while_fix k cond body s') fuel m2 f chs3 x3 μ3) →
  stops (while_fix (Datatypes.S k) cond body s) fuel m f
    (chs1 ++ chs2 ++ chs3) (x1 + (x2 + x3)) μ3.
Proof.
  intros Hc Hb Hk. cbn [while_fix].
  eapply stops_bind_r; [done|]. intros m1 Hm1.
  eapply stops_bind_r; [by apply Hb|]. done.
Qed.

(** The test passes and the body faults. *)
Lemma stops_while_body k s f fuel m chs1 chs2 x1 x2 μ1 μ2 :
  sends (cond s) fuel m true chs1 x1 μ1 →
  (∀ m1, mem m1 = μ1 → stops (body s) fuel m1 f chs2 x2 μ2) →
  stops (while_fix (Datatypes.S k) cond body s) fuel m f (chs1 ++ chs2) (x1 + x2) μ2.
Proof.
  intros Hc Hb. cbn [while_fix].
  eapply stops_bind_r; [done|]. intros m1 Hm1.
  apply stops_bind_l. by apply Hb.
Qed.

Lemma sends_while s r fuel m chs x μ :
  sends (while_fix fuel cond body s) fuel m r chs x μ →
  sends (while cond body s) fuel m r chs x μ.
Proof. intros (es & Hrun & Hes). exists es. by rewrite run_while. Qed.

Lemma stops_while s f fuel m chs x μ :
  stops (while_fix fuel cond body s) fuel m f chs x μ →
  stops (while cond body s) fuel m f chs x μ.
Proof. intros (es & Hrun & Hes). exists es. by rewrite run_while. Qed.

End sends_while.

(** ** Walks that meet no terminator *)

Lemma scan_no_nul μ a bs :
  bytes_at μ a bs → nul_free bs → scan μ a (length bs) = (bs, AtBound).
Proof.
  intros Hb Hz. revert a Hb.
  induction Hz as [|b bs Hb0 Hz IH]; intros a Hb; [done|].
  cbn [length]. rewrite scan_S. cbn in Hb. destruct Hb as [-> Hb].
  destruct (b =? 0) eqn:E; zbool. by rewrite (IH (a + 1)).
Qed.

(** ** The addresses read *)

Lemma loads_puts_trace a bs :
  loads (puts_trace a bs) = seqZ a (Z.of_nat (length bs)) ≫= λ x, [x; x].
Proof.
  revert a. induction bs as [|b bs IH]; intros a; [done|].
  cbn [puts_trace length]. rewrite seqZ_cons by lia.
  change (loads (EvLoad a b :: EvLoad a b :: ?es)) with (a :: a :: loads es).
  rewrite loads_app, loads_putc_trace, IH. cbn [app mbind list_bind].
  do 3 f_equal. f_equal; lia.
Qed.

Lemma loads_lit_trace a bs :
  loads (lit_trace a bs)
  = (seqZ a (Z.of_nat (length bs)) ≫= λ x, [x; x]) ++ [a + Z.of_nat (length bs)].
Proof. unfold lit_trace. by rewrite loads_app, loads_puts_trace. Qed.

(** ** Order of reads and writes *)

Lemma echoes_puts_trace prev a bs es :
  echoes None es → echoes prev (puts_trace a bs ++ es).
Proof.
  revert prev a. induction bs as [|b bs IH]; intros prev a Hes.
  - destruct es as [|[]]; cbn in *; try done. by destruct Hes.
  - cbn. split; [done|]. by apply IH.
Qed.

(** * Theorems *)

(** C5: [uart_puts_safe] refines the reference walk [scan]: on every memory
    it transmits, in order, the bytes [scan] finds from the address on, and it
    returns when the walk ends at a NUL, traps at the address where the walk
    meets unmapped memory, and is still running when the budget of steps is
    spent.  Memory is unchanged and each byte costs 10000 iterations. *)
Theorem uart_puts_safe_total a fuel m :
  10000 < Z.of_nat fuel →
  let r := scan (mem m) a fuel in
  ∃ m', run (uart_puts_safe a) fuel m
        = (match r.2 with
           | AtNul => Done tt
           | AtUnmapped => Fault (Trapped (a + Z.of_nat (length r.1)))
           | AtBound => Fault OutOfFuel
           end, m') ∧
        mem m' = mem m ∧
        uart_output (trace m') = uart_output (trace m) ++ (to_char <$> r.1) ∧
        cycles m' = cycles m + 10000 * Z.of_nat (length r.1).
Proof.
  intros Hf r. rewrite uart_puts_safe_spec by done. fold r.
  unfold puts_result, stop_outcome.
  eexists. split; [done|]. autorewrite with mrun.
  by rewrite app_nil_r.
Qed.

(** C15: on a NUL-terminated string within the budget, [uart_puts_safe]
    returns after transmitting exactly the bytes of the string; it has read
    each of them twice and the terminator once, in address order, and left
    memory unchanged. *)
Theorem uart_puts_safe_string a bs fuel m :
  cstring_at (mem m) a bs → wf_mem (mem m) →
  10000 < Z.of_nat fuel → (length bs < fuel)%nat →
  ∃ m', run (uart_puts_safe a) fuel m = (Done tt, m') ∧
        mem m' = mem m ∧
        uart_output (trace m') = uart_output (trace m) ++ bs ∧
        loads (trace m')
        = loads (trace m) ++ (seqZ a (Z.of_nat (length bs)) ≫= λ x, [x; x]) ++
          [a + Z.of_nat (length bs)] ∧
        cycles m' = cycles m + 10000 * Z.of_nat (length bs).
Proof.
  intros Hs Hwf Hf Hl. rewrite (uart_puts_safe_cstring a bs) by done.
  eexists. split; [done|]. autorewrite with mrun. rewrite loads_lit_trace.
  repeat split. f_equal. apply fmap_to_char_bytes.
  destruct Hs as [Hs _]. apply bytes_at_app in Hs as [Hs _].
  by eapply wf_mem_bytes_at.
Qed.

(** C16: when the bytes from the address on run into unmapped memory before
    a NUL, [uart_puts_safe] transmits all of them and then stops with a trap
    at the first unmapped address. *)
Theorem uart_puts_safe_trap a bs fuel m :
  bytes_at (mem m) a bs → nul_free bs → wf_mem (mem m) →
  mem m !! (a + Z.of_nat (length bs)) = None →
  10000 < Z.of_nat fuel → (length bs < fuel)%nat →
  ∃ m', run (uart_puts_safe a) fuel m
        = (Fault (Trapped (a + Z.of_nat (length bs))), m') ∧
        uart_output (trace m') = uart_output (trace m) ++ bs.
Proof.
  intros Hs Hz Hwf Hu Hf Hl. rewrite uart_puts_safe_spec by done.
  rewrite (scan_unmapped _ _ bs) by done. unfold puts_result. cbn [fst snd].
  eexists. split; [done|]. autorewrite with mrun. rewrite app_nil_r.
  f_equal. apply fmap_to_char_bytes. by eapply wf_mem_bytes_at.
Qed.

(** C17: [uart_puts_safe] has no bound of its own: over memory that holds
    no NUL it is still transmitting when the budget of steps is spent, having
    sent one byte per step. *)
Theorem uart_puts_safe_unbounded a bs m :
  bytes_at (mem m) a bs → nul_free bs → wf_mem (mem m) →
  10000 < Z.of_nat (length bs) →
  ∃ m', run (uart_puts_safe a) (length bs) m = (Fault OutOfFuel, m') ∧
        uart_output (trace m') = uart_output (trace m) ++ bs.
Proof.
  intros Hs Hz Hwf Hl. rewrite uart_puts_safe_spec by done.
  rewrite scan_no_nul by done. unfold puts_result. cbn [fst snd].
  eexists. split; [done|]. autorewrite with mrun. rewrite app_nil_r.
  f_equal. apply fmap_to_char_bytes. by eapply wf_mem_bytes_at.
Qed.

(** C18: [uart_puts_safe] is causal: on every memory, and however the walk
    ends, every byte it has transmitted was read from memory by the event just
    before, so that no byte is sent ahead of its read and a read that traps
    leaves the bytes before it transmitted and nothing after. *)
Theorem uart_puts_safe_causal s fuel m :
  10000 < Z.of_nat fuel →
  ∃ es, trace (run (uart_puts_safe s) fuel m).2 = trace m ++ es ∧
        echoes None es ∧
        uart_output es = to_char <$> (scan (mem m) s fuel).1.
Proof.
  intros Hf. rewrite uart_puts_safe_spec by done. unfold puts_result.
  eexists. split; [done|]. split.
  - apply echoes_puts_trace. by destruct (scan _ _ _).2.
  - autorewrite with mrun. apply app_nil_r.
Qed.

(** C40: however [uart_puts_safe] ends, and on every memory and budget, it
    has not changed memory, has only added to the trace and has not turned
    the cycle counter back. *)
Theorem uart_puts_safe_frame s fuel m :
  let m' := (run (uart_puts_safe s) fuel m).2 in
  mem m' = mem m ∧ trace m `prefix_of` trace m' ∧ cycles m ≤ cycles m'.
Proof.
  intros m'. destruct (run (uart_puts_safe s) fuel m) as [o m1] eqn:Hrun.
  split; [exact (uart_puts_safe_read_only s _ _ _ _ Hrun)|].
  exact (uart_puts_safe_extends s _ _ _ _ Hrun).
Qed.

Lemma uart_puts_safe_total_witness :
  ∃ m', run (uart_puts_safe 0x40002000) (Z.to_nat 10001) uart_demo
        = (Fault (Trapped 0x40002003), m') ∧
        mem m' = mem uart_demo ∧
        uart_output (trace m') = cstr "Hey" ∧
        cycles m' = 30000.
Proof.
  exact (uart_puts_safe_total 0x40002000 (Z.to_nat 10001) uart_demo ltac:(lia)).
Defined.

Lemma uart_puts_safe_causal_witness :
  ∃ es, trace (run (uart_puts_safe 0x40002000) (Z.to_nat 10001) uart_demo).2
        = trace uart_demo ++ es ∧
        echoes None es ∧
        uart_output es = cstr "Hey".
Proof.
  exact (uart_puts_safe_causal 0x40002000 (Z.to_nat 10001) uart_demo ltac:(lia)).
Defined.

Lemma uart_puts_safe_string_witness :
  ∃ m', run (uart_puts_safe 0x40001000) (Z.to_nat 10001) uart_demo = (Done tt, m') ∧
        mem m' = mem uart_demo ∧
        uart_output (trace m') = cstr "Hi" ∧
        loads (trace m')
        = [0x40001000; 0x40001000; 0x40001001; 0x40001001; 0x40001002] ∧
        cycles m' = 20000.
Proof.
  exact (uart_puts_safe_string 0x40001000 (cstr "Hi") (Z.to_nat 10001) uart_demo
           ltac:(by_compute) ltac:(by_compute) ltac:(lia) ltac:(by_compute)).
Defined.

Lemma uart_puts_safe_trap_witness :
  ∃ m', run (uart_puts_safe 0x40002000) (Z.to_nat 10001) uart_demo
        = (Fault (Trapped 0x40002003), m') ∧
        uart_output (trace m') = cstr "Hey".
Proof.
  exact (uart_puts_safe_trap 0x40002000 (cstr "Hey") (Z.to_nat 10001) uart_demo
           ltac:(by_compute) ltac:(by_compute) ltac:(by_compute) ltac:(by vm_compute)
           ltac:(lia) ltac:(by_compute)).
Defined.

Lemma uart_puts_safe_unbounded_witness :
  ∃ m', run (uart_puts_safe 0x40003000)
          (length (replicate (Z.to_nat 10001) (chr "A"))) uart_demo
        = (Fault OutOfFuel, m') ∧
        uart_output (trace m')
        = uart_output (trace uart_demo) ++ replicate (Z.to_nat 10001) (chr "A").
Proof.
  exact (uart_puts_safe_unbounded 0x40003000 (replicate (Z.to_nat 10001) (chr "A"))
           uart_demo ltac:(by_compute) ltac:(by_compute) ltac:(by_compute)
           ltac:(by vm_compute)).
Defined.

(** * Tactics for the clients *)

(** One step of a sequence: the first program by [tac], then the rest on
    a machine with the memory the first leaves; what is known of that memory
    is restated on the new machine. *)
Ltac sends_step tac :=
  eapply sends_bind;
  [ tac
  | let m' := fresh "m" in
    let Hm := fresh "Hm" in
    intros m' Hm; rewrite <- ?Hm in *; clear Hm ].

(** One step of a sequence that ends in a fault. *)
Ltac stops_step tac :=
  eapply stops_bind_r;
  [ tac
  | let m' := fresh "m" in
    let Hm := fresh "Hm" in
    intros m' Hm; rewrite <- ?Hm in *; clear Hm ].

(** A literal of the list [lits] is transmitted. *)
Ltac sends_lit lit lits :=
  apply (sends_puts_lit lit lits); lit_side.

(** * The driver of the programs is a [UartDriver] *)

#[export] Instance uart_putc_driver : UartDriver uart_putc.
Proof. intros c fuel m Hf. by apply uart_putc_spec. Qed.
