(* ===== verification/Format.v ===== *)
(** * Format: hexadecimal addresses and decimal offsets

    The loops that render a 32-bit value as eight hexadecimal digits
    (minimal_main_debug.c, [uart_puts_debug]; minimal_main_test_boundaries.c,
    [print_hex_addr]) and the two offset labels of
    minimal_main_test_boundaries.c.  They are written over any byte sink
    [putc] and their theorems need of it only what [UartDriver] promises.

    [hex8] and the [..._chars] functions are the characters a loop sends;
    [parse_hex] and [parse_dec] read digits back, so that the renderings are
    checked against decoders that do not share their code. *)

From Stdlib Require Import ZArith Lia Ascii String.
From stdpp Require Import base tactics option numbers list gmap.
From S2P Require Import Prelude CInt Machine Uart.

#[local] Open Scope Z_scope.

(** ** Rendering *)

(** [hex < 10 ? '0' + hex : 'A' + hex - 10] *)
Definition hex_char (hex : Z) : Z :=
  if hex <? 10 then chr "0" + hex else chr "A" + hex - 10.

Section formatter.
Context (putc : Z → M unit).

(** [for (int i = 28; i >= 0; i -= 4) { char hex = (addr >> i) & 0xF; ... }] *)
Definition put_hex32 (addr : Z) : M unit :=
  _ ← while (λ i, mret (0 <=? i))
            (λ i, let hex := to_char (Z.land (addr ≫ i) 0xF) in
                  putc (hex_char hex);;
                  mret (Continue (to_int (i - 4))))
            28;
  mret tt.

(** The offset label of the byte-by-byte analysis:
    [if (i < 10) putc('0'); if (i < 100) putc('0' + i/10); putc('0' + i%10);] *)
Definition put_byte_offset (i : Z) : M unit :=
  (if i <? 10 then putc (chr "0") else mret tt);;
  (if i <? 100 then putc (chr "0" + i `quot` 10) else mret tt);;
  putc (chr "0" + i `rem` 10).

(** The offset label of the memory probe:
    [if (offset < 10) putc('0'); putc('0' + offset/10); putc('0' + offset%10);] *)
Definition put_probe_offset (offset : Z) : M unit :=
  (if offset <? 10 then putc (chr "0") else mret tt);;
  putc (chr "0" + offset `quot` 10);;
  putc (chr "0" + offset `rem` 10).

End formatter.

(** ** The characters sent *)

(** The [k]-th hexadecimal digit of [v], counted from the least significant. *)
Definition nibble (v : Z) (k : nat) : Z := Z.land (v ≫ (4 * Z.of_nat k)) 0xF.

(** The digits [n-1], ..., [0] of [v], most significant first. *)
Fixpoint hex_tail (v : Z) (n : nat) : list Z :=
  match n with
  | O => []
  | S n' => hex_char (nibble v n') :: hex_tail v n'
  end.

Definition hex8 (v : Z) : list Z := hex_tail v 8.

Definition byte_offset_chars (i : Z) : list Z :=
  (if i <? 10 then [chr "0"] else []) ++
  (if i <? 100 then [chr "0" + i `quot` 10] else []) ++
  [chr "0" + i `rem` 10].

Definition probe_offset_chars (offset : Z) : list Z :=
  (if offset <? 10 then [chr "0"] else []) ++
  [chr "0" + offset `quot` 10; chr "0" + offset `rem` 10].

(** ** Decoders *)

Definition hex_digit_value (ch : Z) : option Z :=
  if decide (chr "0" ≤ ch ≤ chr "9") then Some (ch - chr "0")
  else if decide (chr "A" ≤ ch ≤ chr "F") then Some (ch - chr "A" + 10)
  else None.

Definition dec_digit_value (ch : Z) : option Z :=
  if decide (chr "0" ≤ ch ≤ chr "9") then Some (ch - chr "0") else None.

(** The number a string of digits denotes in base [base]. *)
Definition parse_digits (base : Z) (value : Z → option Z) (chs : list Z) : option Z :=
  foldl (λ acc ch, a ← acc; d ← value ch; Some (base * a + d)) (Some 0) chs.

Definition parse_hex : list Z → option Z := parse_digits 16 hex_digit_value.
Definition parse_dec : list Z → option Z := parse_digits 10 dec_digit_value.

(** * Lemmas *)

(** ** Digits *)

Lemma nibble_range v k : 0 ≤ nibble v k < 16.
Proof. apply land_15_range. Qed.

Lemma nibble_div_mod v k : nibble v k = (v `div` 16 ^ Z.of_nat k) `mod` 16.
Proof.
  unfold nibble. change 0xF with (Z.ones 4).
  rewrite Z.land_ones, Z.shiftr_div_pow2 by lia.
  by rewrite Z.pow_mul_r by lia.
Qed.

Lemma hex_char_value d : 0 ≤ d < 16 → hex_digit_value (hex_char d) = Some d.
Proof.
  intros Hd. unfold hex_char, hex_digit_value.
  destruct (d <? 10) eqn:E; zbool; repeat case_decide; try (f_equal; lia);
    vm_compute chr in *; lia.
Qed.

(** A hexadecimal digit is an upper-case one: [0-9] or [A-F]. *)
Lemma hex_char_range d :
  0 ≤ d < 16 →
  chr "0" ≤ hex_char d ≤ chr "9" ∨ chr "A" ≤ hex_char d ≤ chr "F".
Proof.
  intros Hd. unfold hex_char. vm_compute chr.
  destruct (d <? 10) eqn:E; zbool.
Qed.

Lemma hex_tail_length v n : length (hex_tail v n) = n.
Proof. induction n as [|n IH]; [done|]. cbn. by rewrite IH. Qed.

Lemma hex_tail_digits v n :
  Forall (λ ch, chr "0" ≤ ch ≤ chr "9" ∨ chr "A" ≤ ch ≤ chr "F") (hex_tail v n).
Proof.
  induction n as [|n IH]; constructor; [|done]. apply hex_char_range, nibble_range.
Qed.

Lemma hex_tail_bytes v n : Forall (λ b, 0 ≤ b < 256) (hex_tail v n).
Proof.
  eapply Forall_impl; [apply hex_tail_digits|].
  intros ch. cbn beta. vm_compute chr. lia.
Qed.

Lemma parse_digits_snoc base value chs ch :
  parse_digits base value (chs ++ [ch])
  = a ← parse_digits base value chs; d ← value ch; Some (base * a + d).
Proof. unfold parse_digits. by rewrite foldl_snoc. Qed.

(** Reading the digits of [hex_tail] after a prefix worth [a]. *)
Lemma parse_hex_tail a v n :
  foldl (λ acc ch, a ← acc; d ← hex_digit_value ch; Some (16 * a + d))
    (Some a) (hex_tail v n)
  = Some (a * 16 ^ Z.of_nat n + v `mod` 16 ^ Z.of_nat n).
Proof.
  revert a. induction n as [|n IH]; intros a.
  { cbn. f_equal. rewrite Z.mod_1_r. lia. }
  cbn [hex_tail foldl]. rewrite hex_char_value by apply nibble_range.
  cbn [mbind option_bind]. rewrite IH. f_equal.
  rewrite nibble_div_mod, Nat2Z.inj_succ, Z.pow_succ_r by lia.
  rewrite (Z.mul_comm 16 (16 ^ Z.of_nat n)), Z.rem_mul_r by lia. lia.
Qed.

(** ** Running the formatters over a driver *)

Section formatter_spec.
Context (putc : Z → M unit) `{!UartDriver putc}.

Lemma put_hex32_loop addr (n k : nat) fuel m :
  (n ≤ 8)%nat → (n < k)%nat → SETTLE < Z.of_nat fuel →
  run (while_fix k (λ i, mret (0 <=? i))
         (λ i, let hex := to_char (Z.land (addr ≫ i) 0xF) in
               putc (hex_char hex);; mret (Continue (to_int (i - 4))))
         (4 * Z.of_nat n - 4)) fuel m
  = (Done (-4), advance (emit_trace (hex_tail addr n)) (SETTLE * Z.of_nat n) m).
Proof.
  intros Hn Hk Hf. revert k m Hk.
  induction n as [|n IH]; intros k m Hk; (destruct k as [|k]; [lia|]);
    rewrite while_fix_S; autorewrite with mrun.
  { cbn. by autorewrite with mrun. }
  destruct (0 <=? 4 * Z.of_nat (S n) - 4) eqn:E; zbool.
  cbn zeta. rewrite uart_driver_run by done. autorewrite with mrun.
  rewrite to_int_small by lia.
  replace (4 * Z.of_nat (S n) - 4 - 4) with (4 * Z.of_nat n - 4) by lia.
  rewrite IH by lia. autorewrite with mrun. cbn [hex_tail].
  rewrite emit_trace_cons. unfold putc_trace, nibble.
  replace (4 * Z.of_nat (S n) - 4) with (4 * Z.of_nat n) by lia.
  rewrite (to_char_small (Z.land _ _)) by (pose proof (land_15_range (addr ≫ (4 * Z.of_nat n))); lia).
  do 2 f_equal. lia.
Qed.

Lemma put_hex32_spec addr fuel m :
  SETTLE < Z.of_nat fuel →
  run (put_hex32 putc addr) fuel m
  = (Done tt, advance (emit_trace (hex8 addr)) (8 * SETTLE) m).
Proof.
  intros Hf. unfold put_hex32. rewrite run_bind, run_while.
  rewrite (put_hex32_loop addr 8) by (unfold SETTLE in *; lia).
  by autorewrite with mrun.
Qed.

Lemma put_byte_offset_spec i fuel m :
  SETTLE < Z.of_nat fuel →
  run (put_byte_offset putc i) fuel m
  = (Done tt, advance (emit_trace (byte_offset_chars i))
                (SETTLE * Z.of_nat (length (byte_offset_chars i))) m).
Proof.
  intros Hf. unfold put_byte_offset, byte_offset_chars.
  destruct (i <? 10), (i <? 100); autorewrite with mrun;
    rewrite ?uart_driver_run by done; autorewrite with mrun;
    rewrite ?uart_driver_run by done; autorewrite with mrun;
    rewrite ?uart_driver_run by done; autorewrite with mrun; done.
Qed.

Lemma put_probe_offset_spec offset fuel m :
  SETTLE < Z.of_nat fuel →
  run (put_probe_offset putc offset) fuel m
  = (Done tt, advance (emit_trace (probe_offset_chars offset))
                (SETTLE * Z.of_nat (length (probe_offset_chars offset))) m).
Proof.
  intros Hf. unfold put_probe_offset, probe_offset_chars.
  destruct (offset <? 10); autorewrite with mrun;
    rewrite ?uart_driver_run by done; autorewrite with mrun;
    rewrite ?uart_driver_run by done; autorewrite with mrun;
    rewrite ?uart_driver_run by done; autorewrite with mrun; done.
Qed.

End formatter_spec.

(** ** Reading the renderings back *)

Lemma parse_hex_hex8 v : parse_hex (hex8 v) = Some (v `mod` 2 ^ 32).
Proof.
  unfold parse_hex, parse_digits, hex8. rewrite parse_hex_tail.
  f_equal.
Qed.

Lemma dec_digit_value_digit d :
  0 ≤ d < 10 → dec_digit_value (chr "0" + d) = Some d.
Proof.
  intros Hd. unfold dec_digit_value. vm_compute chr.
  case_decide; [f_equal; lia|lia].
Qed.

Lemma byte_offset_chars_small i :
  0 ≤ i < 100 →
  byte_offset_chars i
  = (if i <? 10 then [chr "0"] else []) ++ [chr "0" + i `div` 10; chr "0" + i `mod` 10].
Proof.
  intros Hi. unfold byte_offset_chars.
  rewrite quot_nonneg, rem_nonneg by lia.
  by destruct (i <? 100) eqn:E; zbool.
Qed.

Lemma parse_dec_two i :
  0 ≤ i < 100 →
  parse_dec ((if i <? 10 then [chr "0"] else []) ++
             [chr "0" + i `div` 10; chr "0" + i `mod` 10]) = Some i.
Proof.
  intros Hi. unfold parse_dec, parse_digits.
  destruct (i <? 10) eqn:E; zbool; cbn [app foldl];
    change (dec_digit_value (chr "0")) with (Some 0);
    rewrite !dec_digit_value_digit by lia_mod; cbn; f_equal; lia_mod.
Qed.

Lemma byte_offset_chars_bytes i :
  0 ≤ i < 100 → Forall (λ b, 0 ≤ b < 256) (byte_offset_chars i).
Proof.
  intros Hi. rewrite byte_offset_chars_small by done. vm_compute chr.
  destruct (i <? 10); repeat constructor; lia_mod.
Qed.

Lemma probe_offset_chars_small offset :
  0 ≤ offset < 100 →
  probe_offset_chars offset
  = (if offset <? 10 then [chr "0"] else []) ++
    [chr "0" + offset `div` 10; chr "0" + offset `mod` 10].
Proof.
  intros Hi. unfold probe_offset_chars. by rewrite quot_nonneg, rem_nonneg by lia.
Qed.

Lemma probe_offset_chars_bytes offset :
  0 ≤ offset < 100 → Forall (λ b, 0 ≤ b < 256) (probe_offset_chars offset).
Proof.
  intros Hi. rewrite probe_offset_chars_small by done. vm_compute chr.
  destruct (offset <? 10); repeat constructor; lia_mod.
Qed.

(** ** What the formatters send *)

Section formatter_sends.
Context (putc : Z → M unit) `{!UartDriver putc}.

Lemma sends_put_hex32 addr fuel m :
  SETTLE < Z.of_nat fuel →
  sends (put_hex32 putc addr) fuel m tt (hex8 addr) 0 (mem m).
Proof.
  intros Hf. eapply sends_intro; [rewrite put_hex32_spec by done|..].
  - by autorewrite with mrun.
  - rewrite uart_output_emit_trace. apply fmap_to_char_bytes, hex_tail_bytes.
  - unfold hex8. rewrite hex_tail_length. lia.
Qed.

Lemma sends_put_byte_offset i fuel m :
  SETTLE < Z.of_nat fuel →
  sends (put_byte_offset putc i) fuel m tt (to_char <$> byte_offset_chars i) 0 (mem m).
Proof.
  intros Hf. eapply sends_intro; [rewrite put_byte_offset_spec by done|..].
  - by autorewrite with mrun.
  - apply uart_output_emit_trace.
  - rewrite length_fmap. lia.
Qed.

Lemma sends_put_probe_offset offset fuel m :
  SETTLE < Z.of_nat fuel →
  sends (put_probe_offset putc offset) fuel m tt
    (to_char <$> probe_offset_chars offset) 0 (mem m).
Proof.
  intros Hf. eapply sends_intro; [rewrite put_probe_offset_spec by done|..].
  - by autorewrite with mrun.
  - apply uart_output_emit_trace.
  - rewrite length_fmap. lia.
Qed.

End formatter_sends.

(** * Theorems *)

Section formatter_theorems.
Context (putc : Z → M unit) `{!UartDriver putc}.

(** C4: over any driver, the hexadecimal loop returns after sending exactly
    eight characters, each an upper-case hexadecimal digit, most significant
    first: read back as a number they give the value modulo 2^32.  Memory is
    unchanged. *)
Theorem put_hex32_roundtrip addr fuel m :
  10000 < Z.of_nat fuel →
  ∃ m' chs, run (put_hex32 putc addr) fuel m = (Done tt, m') ∧
            mem m' = mem m ∧
            uart_output (trace m') = uart_output (trace m) ++ chs ∧
            length chs = 8%nat ∧
            Forall (λ ch, chr "0" ≤ ch ≤ chr "9" ∨ chr "A" ≤ ch ≤ chr "F") chs ∧
            parse_hex chs = Some (addr `mod` 2 ^ 32).
Proof.
  intros Hf.
  destruct (sends_output _ _ _ _ _ _ _ (sends_put_hex32 putc addr fuel m Hf))
    as (m' & Hrun & Hmem & Hout & _).
  exists m', (hex8 addr).
  repeat split; first [done | apply hex_tail_digits | apply parse_hex_hex8].
Qed.

(** C34: the offset label of the byte-by-byte analysis, for an offset below
    100: the decimal digits of the offset, three of them below 10 and two from
    10 on. *)
Theorem put_byte_offset_run i fuel m :
  0 ≤ i < 100 → 10000 < Z.of_nat fuel →
  ∃ m' chs, run (put_byte_offset putc i) fuel m = (Done tt, m') ∧
            uart_output (trace m') = uart_output (trace m) ++ chs ∧
            parse_dec chs = Some i ∧
            length chs = if i <? 10 then 3%nat else 2%nat.
Proof.
  intros Hi Hf.
  destruct (sends_output _ _ _ _ _ _ _ (sends_put_byte_offset putc i fuel m Hf))
    as (m' & Hrun & _ & Hout & _).
  rewrite fmap_to_char_bytes in Hout by by apply byte_offset_chars_bytes.
  rewrite byte_offset_chars_small in Hout by done.
  eexists m', _. repeat split; [done..| |].
  - by apply parse_dec_two.
  - by destruct (i <? 10).
Qed.

(** C35: from 100 on, the offset label of the byte-by-byte analysis is the
    last decimal digit of the offset alone. *)
Theorem put_byte_offset_large i fuel m :
  100 ≤ i → 10000 < Z.of_nat fuel →
  ∃ m', run (put_byte_offset putc i) fuel m = (Done tt, m') ∧
        uart_output (trace m') = uart_output (trace m) ++ [chr "0" + i `mod` 10].
Proof.
  intros Hi Hf.
  destruct (sends_output _ _ _ _ _ _ _ (sends_put_byte_offset putc i fuel m Hf))
    as (m' & Hrun & _ & Hout & _).
  exists m'. split; [done|]. rewrite Hout. f_equal. unfold byte_offset_chars.
  destruct (i <? 10) eqn:E1; zbool. destruct (i <? 100) eqn:E2; zbool.
  cbn. rewrite rem_nonneg by lia. f_equal. apply to_char_small.
  vm_compute chr. lia_mod.
Qed.

(** C36: the offset label of the memory probe, for an offset below 100: the
    decimal digits of the offset, three of them below 10 and two from 10
    on. *)
Theorem put_probe_offset_run offset fuel m :
  0 ≤ offset < 100 → 10000 < Z.of_nat fuel →
  ∃ m' chs, run (put_probe_offset putc offset) fuel m = (Done tt, m') ∧
            uart_output (trace m') = uart_output (trace m) ++ chs ∧
            parse_dec chs = Some offset ∧
            length chs = if offset <? 10 then 3%nat else 2%nat.
Proof.
  intros Hi Hf.
  destruct (sends_output _ _ _ _ _ _ _ (sends_put_probe_offset putc offset fuel m Hf))
    as (m' & Hrun & _ & Hout & _).
  rewrite fmap_to_char_bytes in Hout by by apply probe_offset_chars_bytes.
  rewrite probe_offset_chars_small in Hout by done.
  eexists m', _. repeat split; [done..| |].
  - by apply parse_dec_two.
  - by destruct (offset <? 10).
Qed.

End formatter_theorems.

(** The test vector of the specification: [0xDEADBEEF] is rendered as
    [DEADBEEF]. *)
Example put_hex32_deadbeef fuel m :
  10000 < Z.of_nat fuel →
  ∃ m', run (put_hex32 uart_putc 0xDEADBEEF) fuel m = (Done tt, m') ∧
        uart_output (trace m') = uart_output (trace m) ++ cstr "DEADBEEF".
Proof.
  intros Hf.
  destruct (sends_output _ _ _ _ _ _ _ (sends_put_hex32 uart_putc 0xDEADBEEF fuel m Hf))
    as (m' & Hrun & _ & Hout & _).
  by exists m'.
Qed.

Lemma put_hex32_roundtrip_witness :
  ∃ m' chs, run (put_hex32 uart_putc 0x40001026) (Z.to_nat 10001) (Machine ∅ [] 0)
            = (Done tt, m') ∧
            mem m' = ∅ ∧
            uart_output (trace m') = [] ++ chs ∧
            length chs = 8%nat ∧
            Forall (λ ch, chr "0" ≤ ch ≤ chr "9" ∨ chr "A" ≤ ch ≤ chr "F") chs ∧
            parse_hex chs = Some (0x40001026 `mod` 2 ^ 32).
Proof.
  exact (put_hex32_roundtrip uart_putc 0x40001026 (Z.to_nat 10001) (Machine ∅ [] 0)
           ltac:(lia)).
Defined.

Lemma put_byte_offset_run_witness :
  ∃ m' chs, run (put_byte_offset uart_putc 42) (Z.to_nat 10001) (Machine ∅ [] 0)
            = (Done tt, m') ∧
            uart_output (trace m') = [] ++ chs ∧
            parse_dec chs = Some 42 ∧ length chs = 2%nat.
Proof.
  exact (put_byte_offset_run uart_putc 42 (Z.to_nat 10001) (Machine ∅ [] 0)
           ltac:(lia) ltac:(lia)).
Defined.

Lemma put_byte_offset_large_witness :
  ∃ m', run (put_byte_offset uart_putc 128) (Z.to_nat 10001) (Machine ∅ [] 0)
        = (Done tt, m') ∧
        uart_output (trace m') = [chr "8"].
Proof.
  exact (put_byte_offset_large uart_putc 128 (Z.to_nat 10001) (Machine ∅ [] 0)
           ltac:(lia) ltac:(lia)).
Defined.

Lemma put_probe_offset_run_witness :
  ∃ m' chs, run (put_probe_offset uart_putc 5) (Z.to_nat 10001) (Machine ∅ [] 0)
            = (Done tt, m') ∧
            uart_output (trace m') = [] ++ chs ∧
            parse_dec chs = Some 5 ∧ length chs = 3%nat.
Proof.
  exact (put_probe_offset_run uart_putc 5 (Z.to_nat 10001) (Machine ∅ [] 0)
           ltac:(lia) ltac:(lia)).
Defined.

