(* ===== verification/Probe.v ===== *)
(** * Probe: the bounded string dump

    [uart_puts_debug] of minimal_main_debug.c: the address of a string in
    hexadecimal, then at most 32 of its bytes with a [|] after every fourth,
    between brackets.  The string literals the function prints are themselves
    read from memory, at the addresses a layout [lit] gives them.

    [dump_loop_run] says what the dump loop does on every memory, by the
    reference walk [scan] bounded by 32: the bytes before a NUL, before the
    bound or before an unmapped address, where the read traps and the dump
    stops with no closing bracket. *)

From Stdlib Require Import ZArith Lia Ascii String.
From stdpp Require Import base tactics option numbers list strings gmap.
From S2P Require Import Prelude CInt Machine Uart Format.

#[local] Open Scope Z_scope.

Section probe.
Context (lit : string → Z).

(** ** The program *)

(** The test of the dump loop: [i < 32 && s[i] != '\0'].  The byte is
    read only when the index is below the cap. *)
Definition dump_cond (s i : Z) : M bool :=
  if i <? 32 then ch ← load (s + i); mret (negb (ch =? 0))
  else mret false.

(** The body of the dump loop. *)
Definition dump_body (s i : Z) : M (ctl Z) :=
  ch ← load (s + i);
  uart_putc ch;;
  ch ← load (s + i);
  if ch =? 0 then mret (Break i)
  else
    let i := to_int (i + 1) in
    (if i `rem` 4 =? 0 then uart_puts_safe (lit "|") else mret tt);;
    mret (Continue i).

Definition uart_puts_debug (s : Z) : M unit :=
  uart_puts_safe (lit "DEBUG: String addr=0x");;
  let addr := to_uint s in
  put_hex32 uart_putc addr;;
  uart_puts_safe (lit " content=[");;
  _ ← while (dump_cond s) (dump_body s) 0;
  uart_puts_safe (lit ("]" +:+ NL)).

(** The literals [uart_puts_debug] reads. *)
Definition debug_literals : list string :=
  ["DEBUG: String addr=0x"; " content=["; "|"; "]" +:+ NL].

(** ** The characters sent *)

(** The separator sent when the count of bytes reaches [i]. *)
Definition marker_chars (i : Z) : list Z :=
  if i `rem` 4 =? 0 then cstr "|" else [].

(** The bytes [bs], the first of which is the [i]-th of the dump, with
    their separators. *)
Fixpoint with_markers (i : Z) (bs : list Z) : list Z :=
  match bs with
  | [] => []
  | b :: bs' => b :: marker_chars (i + 1) ++ with_markers (i + 1) bs'
  end.

(** What the dump of the string at [s] sends when the walk over it is [r]. *)
Definition dump_chars (s : Z) (r : list Z * stop) : list Z :=
  cstr "DEBUG: String addr=0x" ++ hex8 (to_uint s) ++ cstr " content=[" ++
  with_markers 0 r.1 ++
  match r.2 with AtUnmapped => [] | _ => cstr ("]" +:+ NL) end.

(** What the dump of the NUL-terminated string [bs] at [s] sends. *)
Definition debug_chars (s : Z) (bs : list Z) : list Z :=
  cstr "DEBUG: String addr=0x" ++ hex8 (to_uint s) ++ cstr " content=[" ++
  with_markers 0 (take 32 bs) ++ cstr ("]" +:+ NL).

(** ** The events *)

Definition marker_trace (i : Z) : list event :=
  if i `rem` 4 =? 0 then lit_trace (lit "|") (cstr "|") else [].

(** The events of the dump loop over the bytes [bs] from index [i] on: a
    byte is read for the loop test, for the call and for the test of the
    [break], and transmitted in between. *)
Fixpoint dump_trace (s i : Z) (bs : list Z) : list event :=
  match bs with
  | [] => []
  | b :: bs' =>
      EvLoad (s + i) b :: EvLoad (s + i) b :: putc_trace b ++
      EvLoad (s + i) b :: marker_trace (i + 1) ++ dump_trace s (i + 1) bs'
  end.

(** What the dump loop that began at index [i] leaves of the walk [r]. *)
Definition dump_result (s i : Z) (r : list Z * stop) (m : machine)
    : outcome Z * machine :=
  let j := i + Z.of_nat (length r.1) in
  (match r.2 with AtUnmapped => Fault (Trapped (s + j)) | _ => Done j end,
   advance (dump_trace s i r.1 ++
            match r.2 with AtNul => [EvLoad (s + j) 0] | _ => [] end)
           (SETTLE * Z.of_nat (length (with_markers i r.1))) m).

(** The events of [uart_puts_debug s] when the walk over the string is [r]. *)
Definition debug_trace (s : Z) (r : list Z * stop) : list event :=
  lit_trace (lit "DEBUG: String addr=0x") (cstr "DEBUG: String addr=0x") ++
  emit_trace (hex8 (to_uint s)) ++
  lit_trace (lit " content=[") (cstr " content=[") ++
  dump_trace s 0 r.1 ++
  match r.2 with
  | AtNul => EvLoad (s + Z.of_nat (length r.1)) 0 ::
             lit_trace (lit ("]" +:+ NL)) (cstr ("]" +:+ NL))
  | AtBound => lit_trace (lit ("]" +:+ NL)) (cstr ("]" +:+ NL))
  | AtUnmapped => []
  end.

(** What [uart_puts_debug s] leaves when the walk over the string is [r]. *)
Definition debug_result (s : Z) (r : list Z * stop) (m : machine)
    : outcome unit * machine :=
  (match r.2 with
   | AtUnmapped => Fault (Trapped (s + Z.of_nat (length r.1)))
   | _ => Done tt
   end,
   advance (debug_trace s r) (SETTLE * Z.of_nat (length (dump_chars s r))) m).

(** Separators taken out again, by position. *)
Fixpoint strip_markers (i : Z) (n : nat) (chs : list Z) : list Z :=
  match n, chs with
  | S n', ch :: chs' =>
      ch :: strip_markers (i + 1) n'
              (if (i + 1) `rem` 4 =? 0 then tail chs' else chs')
  | _, _ => []
  end.

End probe.

(** ** A concrete machine

    The literals of [uart_puts_debug] and three strings laid out from
    0x40001000: ["Hi"]; 40 bytes with no NUL among the first 32; and, last
    in memory, ["Hello"] without its terminator, so that the walk over it runs
    into unmapped memory. *)

Definition demo_long : string := "0123456789abcdefghijklmnopqrstuvwxyzABCD".

Definition demo_tbl : list (string * Z) :=
  layout 0x40001000 (debug_literals ++ ["Hi"; demo_long]).

Definition demo_lit : string → Z := lit_at demo_tbl.

(** The first address after the laid-out literals. *)
Definition demo_edge : Z := 0x40001052.

Definition demo_machine : machine :=
  Machine (place demo_edge (cstr "Hello") (image demo_tbl ∅)) [] 0.

(** * Lemmas *)

Section probe_spec.
Context (lit : string → Z).

(** ** The dump loop *)

Lemma marker_run i fuel m :
  cstring_at (mem m) (lit "|") (cstr "|") → 10000 < Z.of_nat fuel →
  run (if i `rem` 4 =? 0 then uart_puts_safe (lit "|") else mret tt) fuel m
  = (Done tt, advance (marker_trace lit i)
                (SETTLE * Z.of_nat (length (marker_chars i))) m).
Proof.
  intros Hbar Hf. unfold marker_trace, marker_chars.
  destruct (i `rem` 4 =? 0).
  - rewrite (uart_puts_safe_cstring _ (cstr "|")); [done..|cbn; lia].
  - by autorewrite with mrun.
Qed.

Lemma dump_loop_run s (n k : nat) fuel m :
  (n ≤ 32)%nat → (n < k)%nat → 10000 < Z.of_nat fuel →
  cstring_at (mem m) (lit "|") (cstr "|") →
  run (while_fix k (dump_cond s) (dump_body lit s) (32 - Z.of_nat n)) fuel m
  = dump_result lit s (32 - Z.of_nat n)
      (scan (mem m) (s + (32 - Z.of_nat n)) n) m.
Proof.
  intros Hn Hk Hf. revert k m Hk.
  induction n as [|n IH]; intros k m Hk Hbar; (destruct k as [|k]; [lia|]);
    rewrite while_fix_S; unfold dump_cond at 1, dump_body at 1.
  { cbn. unfold dump_result. cbn. by autorewrite with mrun. }
  remember (32 - Z.of_nat (S n)) as i eqn:Hi.
  destruct (i <? 32) eqn:E; zbool. rewrite scan_S, run_bind.
  destruct (mem m !! (s + i)) as [b|] eqn:Ea.
  2:{ rewrite run_load_trap by done. unfold dump_result. cbn.
      rewrite Z.add_0_r. by autorewrite with mrun. }
  rewrite (run_load _ _ _ _ Ea). autorewrite with mrun.
  destruct (b =? 0) eqn:Eb; zbool; cbn [negb].
  { subst b. unfold dump_result. cbn. rewrite Z.add_0_r. by autorewrite with mrun. }
  rewrite (run_load (s + i) b) by done. autorewrite with mrun.
  rewrite uart_putc_spec by done. autorewrite with mrun.
  rewrite (run_load (s + i) b) by done. autorewrite with mrun.
  rewrite (proj2 (Z.eqb_neq b 0)) by done. cbn zeta.
  rewrite to_int_small by lia. rewrite run_bind, marker_run by done.
  autorewrite with mrun.
  replace (i + 1) with (32 - Z.of_nat n) by lia.
  rewrite IH by (done || lia). cbn [mem advance].
  replace (s + i + 1) with (s + (32 - Z.of_nat n)) by lia.
  unfold dump_result. cbn [fst snd length dump_trace with_markers].
  replace (i + 1) with (32 - Z.of_nat n) by lia.
  f_equal.
  - destruct (scan _ _ n).2; first [f_equal; lia|do 2 f_equal; lia].
  - autorewrite with mrun. f_equal.
    + cbn. rewrite <- !app_assoc. cbn. do 4 f_equal.
      do 2 f_equal. destruct (scan _ _ n).2; first [done|do 2 f_equal; lia].
    + rewrite length_app. unfold SETTLE. lia.
Qed.

(** ** Separators *)

Lemma marker_chars_length i :
  0 ≤ i → Z.of_nat (length (marker_chars (i + 1))) = (i + 1) `div` 4 - i `div` 4.
Proof.
  intros Hi. unfold marker_chars. rewrite rem_nonneg by lia.
  destruct ((i + 1) `mod` 4 =? 0) eqn:E; zbool;
    [change (length (cstr "|")) with 1%nat|cbn [length]]; lia_mod.
Qed.

Lemma with_markers_length i bs :
  0 ≤ i →
  Z.of_nat (length (with_markers i bs))
  = Z.of_nat (length bs) + ((i + Z.of_nat (length bs)) `div` 4 - i `div` 4).
Proof.
  revert i. induction bs as [|b bs IH]; intros i Hi; cbn [with_markers length].
  { rewrite Z.add_0_r. lia. }
  rewrite length_app, !Nat2Z.inj_succ, Nat2Z.inj_add, IH, marker_chars_length by lia.
  replace (i + Z.succ (Z.of_nat (length bs))) with (i + 1 + Z.of_nat (length bs)) by lia.
  lia.
Qed.

Lemma strip_with_markers i bs :
  strip_markers i (length bs) (with_markers i bs) = bs.
Proof.
  revert i. induction bs as [|b bs IH]; intros i; [done|].
  cbn [with_markers length strip_markers app]. f_equal.
  unfold marker_chars. destruct ((i + 1) `rem` 4 =? 0); apply IH.
Qed.

Lemma with_markers_fmap (f : Z → Z) i bs :
  (∀ b, b ∈ cstr "|" → f b = b) →
  f <$> with_markers i bs = with_markers i (f <$> bs).
Proof.
  intros Hf. revert i. induction bs as [|b bs IH]; intros i; [done|].
  cbn [with_markers fmap list_fmap]. rewrite fmap_app, IH. do 2 f_equal.
  unfold marker_chars. destruct (_ =? 0); [|done].
  cbn. f_equal. apply Hf. by left.
Qed.

(** ** What the dump sends *)

Lemma uart_output_marker_trace i :
  uart_output (marker_trace lit i) = marker_chars i.
Proof. unfold marker_trace, marker_chars. by destruct (_ =? 0). Qed.

Lemma uart_output_dump_trace s i bs :
  uart_output (dump_trace lit s i bs) = with_markers i (to_char <$> bs).
Proof.
  revert i. induction bs as [|b bs IH]; intros i; [done|].
  cbn [dump_trace fmap list_fmap with_markers].
  change (uart_output (?e1 :: ?e2 :: ?es)) with (uart_output es).
  rewrite uart_output_app. cbn [uart_output_putc_trace app].
  change (uart_output (EvLoad ?a ?v :: ?es)) with (uart_output es).
  by rewrite uart_output_app, uart_output_marker_trace, IH.
Qed.

Lemma uart_output_debug_trace s r :
  Forall (λ b, 0 ≤ b < 256) r.1 →
  uart_output (debug_trace lit s r) = dump_chars s r.
Proof.
  intros Hr. unfold debug_trace, dump_chars.
  autorewrite with mrun. rewrite uart_output_dump_trace.
  rewrite !(fmap_to_char_bytes (cstr _)) by apply cstr_range.
  rewrite (fmap_to_char_bytes r.1) by done.
  rewrite fmap_to_char_bytes by apply hex_tail_bytes.
  do 4 f_equal. destruct r.2; [|done|].
  - change (uart_output (EvLoad ?a ?v :: ?es)) with (uart_output es).
    rewrite uart_output_lit_trace. apply fmap_to_char_bytes, cstr_range.
  - rewrite uart_output_lit_trace. apply fmap_to_char_bytes, cstr_range.
Qed.

(** The events of the dump loop, byte by byte. *)
Lemma dump_trace_imap s i bs :
  dump_trace lit s i bs
  = imap (λ k b, [EvLoad (s + i + Z.of_nat k) b; EvLoad (s + i + Z.of_nat k) b;
                  EvMmio UART0_DR (to_char b); EvLoad (s + i + Z.of_nat k) b] ++
                 if (i + Z.of_nat k + 1) `rem` 4 =? 0
                 then lit_trace (lit "|") (cstr "|") else []) bs ≫= id.
Proof.
  revert i. induction bs as [|b bs IH]; intros i; [done|].
  cbn [dump_trace imap mbind list_bind]. rewrite IH. unfold marker_trace, putc_trace.
  rewrite !Z.add_0_r. cbn [app id]. do 5 f_equal.
  apply (f_equal (λ l, l ≫= id)), imap_ext. intros k c _. cbn.
  replace (s + (i + 1) + Z.of_nat k) with (s + i + Z.of_nat (S k)) by lia.
  by replace (i + 1 + Z.of_nat k + 1) with (i + Z.of_nat (S k) + 1) by lia.
Qed.

(** ** The whole dump *)

Lemma uart_puts_debug_spec s fuel m :
  rodata_ok lit debug_literals (mem m) → 10000 < Z.of_nat fuel →
  run (uart_puts_debug lit s) fuel m
  = debug_result lit s (scan (mem m) s 32) m.
Proof.
  intros Hro Hf. unfold uart_puts_debug.
  rewrite run_bind, (puts_lit_run lit debug_literals) by lit_side.
  autorewrite with mrun. cbn zeta.
  rewrite put_hex32_spec by (apply _ || done). autorewrite with mrun.
  rewrite (puts_lit_run lit debug_literals) by lit_side.
  autorewrite with mrun. rewrite run_while.
  pose proof (dump_loop_run s 32 fuel fuel) as Hloop.
  change (32 - Z.of_nat 32) with 0 in Hloop. rewrite Hloop; clear Hloop;
    [|lia|unfold SETTLE in *; lia|done|eapply rodata_ok_lookup; [done|lit_side]].
  cbn [mem advance]. rewrite Z.add_0_r. unfold dump_result, debug_result.
  destruct (scan (mem m) s 32) as [bs st] eqn:Escan. cbn [fst snd].
  destruct st; autorewrite with mrun;
    rewrite ?(puts_lit_run lit debug_literals) by lit_side;
    autorewrite with mrun; unfold debug_trace, dump_chars, hex8; cbn [fst snd];
    rewrite ?length_app, ?hex_tail_length, ?Z.add_0_l, <- ?app_assoc;
    do 2 f_equal; cbn [length app]; unfold SETTLE; lia.
Qed.

Lemma sends_puts_debug s bs fuel m :
  rodata_ok lit debug_literals (mem m) → wf_mem (mem m) →
  cstring_at (mem m) s bs → 10000 < Z.of_nat fuel →
  sends (uart_puts_debug lit s) fuel m tt (debug_chars s bs) 0 (mem m).
Proof.
  intros Hro Hwf Hs Hf.
  assert (Forall (λ b, 0 ≤ b < 256) (take 32 bs)).
  { apply Forall_take. eapply wf_mem_bytes_at; [done|].
    destruct Hs as [Hs _]. by apply bytes_at_app in Hs as [Hs _]. }
  pose proof (uart_puts_debug_spec s fuel m Hro Hf) as Hrun.
  rewrite (scan_cstring_take _ _ bs) in Hrun by done.
  unfold debug_result in Hrun. cbn [fst snd] in Hrun.
  case_decide; (eapply sends_intro; [rewrite set_mem_id; exact Hrun|..]);
    first [by rewrite uart_output_debug_trace by done
          |unfold dump_chars, debug_chars; cbn [fst snd]; lia].
Qed.

(** The dump of a string that runs into unmapped memory. *)
Lemma stops_puts_debug s bs fuel m :
  rodata_ok lit debug_literals (mem m) → wf_mem (mem m) →
  bytes_at (mem m) s bs → nul_free bs → (length bs < 32)%nat →
  mem m !! (s + Z.of_nat (length bs)) = None → 10000 < Z.of_nat fuel →
  stops (uart_puts_debug lit s) fuel m (Trapped (s + Z.of_nat (length bs)))
    (cstr "DEBUG: String addr=0x" ++ hex8 (to_uint s) ++ cstr " content=[" ++
     with_markers 0 bs) 0 (mem m).
Proof.
  intros Hro Hwf Hs Hz Hl Hu Hf. exists (debug_trace lit s (bs, AtUnmapped)).
  rewrite uart_puts_debug_spec, (scan_unmapped _ _ bs), set_mem_id by done.
  rewrite uart_output_debug_trace by by eapply wf_mem_bytes_at.
  unfold debug_result, dump_chars. cbn [fst snd]. rewrite !app_nil_r, Z.add_0_r.
  done.
Qed.

(** A dump of [L] bytes carries [L / 4] separators. *)
Lemma with_markers_count bs :
  Z.of_nat (length (with_markers 0 bs))
  = Z.of_nat (length bs) + Z.of_nat (length bs) `div` 4.
Proof.
  rewrite with_markers_length, Z.add_0_l by lia. change (0 `div` 4) with 0. lia.
Qed.

Lemma debug_chars_length s bs :
  let L := Z.of_nat (length bs) `min` 32 in
  Z.of_nat (length (debug_chars s bs)) = 41 + L + L `div` 4.
Proof.
  intros L. unfold debug_chars, hex8.
  rewrite !length_app, !Nat2Z.inj_add, with_markers_count, hex_tail_length.
  rewrite length_take, !cstr_length, Nat2Z.inj_min.
  rewrite (Z.min_comm (Z.of_nat 32)). change (Z.of_nat 32) with 32. fold L.
  change (String.length "DEBUG: String addr=0x") with 21%nat.
  change (String.length " content=[") with 10%nat.
  change (String.length ("]" +:+ NL)) with 2%nat. lia.
Qed.

(** ** Frame *)

Lemma dump_cond_read_only s i : read_only (dump_cond s i).
Proof. unfold dump_cond. solve_frame. Qed.

Lemma dump_body_read_only s i : read_only (dump_body lit s i).
Proof.
  unfold dump_body. pose proof uart_putc_read_only.
  pose proof uart_puts_safe_read_only. solve_frame.
Qed.

Lemma uart_puts_debug_read_only s : read_only (uart_puts_debug lit s).
Proof.
  unfold uart_puts_debug, put_hex32. pose proof uart_putc_read_only.
  pose proof uart_puts_safe_read_only. pose proof dump_cond_read_only.
  pose proof dump_body_read_only. solve_frame.
Qed.

Lemma uart_puts_debug_extends s : extends (uart_puts_debug lit s).
Proof.
  unfold uart_puts_debug, put_hex32, dump_cond, dump_body.
  pose proof uart_putc_extends. pose proof uart_puts_safe_extends. solve_frame.
Qed.

(** ** The budget *)

Lemma uart_puts_debug_fuel_stable s : fuel_stable (uart_puts_debug lit s).
Proof.
  unfold uart_puts_debug, put_hex32, dump_cond, dump_body.
  pose proof uart_putc_fuel_stable. pose proof uart_puts_safe_fuel_stable.
  solve_fuel.
Qed.

End probe_spec.

#[export] Hint Resolve dump_cond_read_only dump_body_read_only
  uart_puts_debug_read_only uart_puts_debug_extends uart_puts_debug_fuel_stable : frame.

(** * Theorems *)

Section probe_theorems.
Context (lit : string → Z).
Implicit Types (s : Z) (bs : list Z) (m : machine).

(** C2: on a NUL-terminated string, [uart_puts_debug] returns after sending
    the header, the address of the string as eight hexadecimal digits, the
    first 32 bytes of the string at most with a [|] after every fourth, and
    the closing bracket and line feed; memory is unchanged. *)
Theorem uart_puts_debug_cstring s bs fuel m :
  rodata_ok lit debug_literals (mem m) → wf_mem (mem m) →
  cstring_at (mem m) s bs → 10000 < Z.of_nat fuel →
  ∃ m', run (uart_puts_debug lit s) fuel m = (Done tt, m') ∧
        mem m' = mem m ∧
        uart_output (trace m')
        = uart_output (trace m) ++
          cstr "DEBUG: String addr=0x" ++ hex8 (to_uint s) ++ cstr " content=[" ++
          with_markers 0 (take 32 bs) ++ cstr ("]" +:+ NL).
Proof.
  intros Hro Hwf Hs Hf.
  destruct (sends_output _ _ _ _ _ _ _ (sends_puts_debug lit s bs fuel m Hro Hwf Hs Hf))
    as (m' & Hrun & Hmem & Hout & _).
  by exists m'.
Qed.

(** C3: when the string runs into unmapped memory before a NUL and before
    the cap, [uart_puts_debug] stops with a trap at the first unmapped
    address; what was sent is the header and the bytes before that address
    with their separators, and no closing bracket. *)
Theorem uart_puts_debug_trap s bs fuel m :
  rodata_ok lit debug_literals (mem m) → wf_mem (mem m) →
  bytes_at (mem m) s bs → nul_free bs → (length bs < 32)%nat →
  mem m !! (s + Z.of_nat (length bs)) = None → 10000 < Z.of_nat fuel →
  ∃ m', run (uart_puts_debug lit s) fuel m
        = (Fault (Trapped (s + Z.of_nat (length bs))), m') ∧
        uart_output (trace m')
        = uart_output (trace m) ++
          cstr "DEBUG: String addr=0x" ++ hex8 (to_uint s) ++ cstr " content=[" ++
          with_markers 0 bs.
Proof.
  intros Hro Hwf Hs Hz Hl Hu Hf.
  destruct (stops_output _ _ _ _ _ _ _
              (stops_puts_debug lit s bs fuel m Hro Hwf Hs Hz Hl Hu Hf))
    as (m' & Hrun & _ & Hout & _).
  by exists m'.
Qed.

(** C19: whatever memory holds at the string, [uart_puts_debug] terminates
    once the budget covers the settle loop: it returns, or it traps on an
    address among the first 32 of the string; it never runs out of budget. *)
Theorem uart_puts_debug_terminates s fuel m :
  rodata_ok lit debug_literals (mem m) → 10000 < Z.of_nat fuel →
  (run (uart_puts_debug lit s) fuel m).1 = Done tt ∨
  ∃ k, 0 ≤ k < 32 ∧ mem m !! (s + k) = None ∧
       (run (uart_puts_debug lit s) fuel m).1 = Fault (Trapped (s + k)).
Proof.
  intros Hro Hf. rewrite uart_puts_debug_spec by done. unfold debug_result.
  destruct (scan (mem m) s 32).2 eqn:Est; cbn [fst]; [by left| |by left].
  right. exists (Z.of_nat (length (scan (mem m) s 32).1)).
  pose proof (scan_stop_length (mem m) s 32) as Hlen.
  rewrite Est in Hlen. specialize (Hlen ltac:(done)).
  split; [lia|]. split; [|done]. by apply scan_unmapped_at.
Qed.

(** C21: the [break] of the dump loop is dead: after the loop test has
    passed, the body never leaves the loop. *)
Theorem dump_break_dead s i fuel m m1 r m2 :
  run (dump_cond s i) fuel m = (Done true, m1) →
  run (dump_body lit s i) fuel m1 = (Done r, m2) →
  ∃ j, r = Continue j.
Proof.
  unfold dump_cond, dump_body. destruct (i <? 32); [|done].
  rewrite !run_bind. destruct (mem m !! (s + i)) as [b|] eqn:Ea.
  2:{ by rewrite run_load_trap. }
  rewrite (run_load _ _ _ _ Ea). autorewrite with mrun.
  intros [= Hb <-]. rewrite (run_load _ b) by done. autorewrite with mrun.
  destruct (run (uart_putc b) fuel _) as [[[]|f] m3] eqn:Eputc; [|done].
  autorewrite with mrun.
  pose proof (uart_putc_read_only b _ _ _ _ Eputc) as Hmem. cbn in Hmem.
  rewrite (run_load _ b) by (by rewrite Hmem). autorewrite with mrun.
  destruct (b =? 0); [done|]. cbn zeta. rewrite run_bind.
  match goal with |- context [run (if ?c then ?x else ?y) fuel ?m0] =>
    destruct (run (if c then x else y) fuel m0) as [[[]|f] m4]; [|done] end.
  autorewrite with mrun. intros [= <- <-]. eauto.
Qed.

(** C1: [uart_puts_debug] refines the reference walk [scan] bounded by 32:
    on every memory it sends the header, the address and the bytes the walk
    finds, with their separators; it returns with the closing bracket when the
    walk ends at a NUL or at the bound, and traps with no closing bracket at
    the address where the walk meets unmapped memory.  Memory is unchanged and
    each character costs 10000 iterations. *)
Theorem uart_puts_debug_total s fuel m :
  rodata_ok lit debug_literals (mem m) → wf_mem (mem m) → 10000 < Z.of_nat fuel →
  let r := scan (mem m) s 32 in
  ∃ m', run (uart_puts_debug lit s) fuel m
        = (match r.2 with
           | AtUnmapped => Fault (Trapped (s + Z.of_nat (length r.1)))
           | _ => Done tt
           end, m') ∧
        mem m' = mem m ∧
        uart_output (trace m')
        = uart_output (trace m) ++
          cstr "DEBUG: String addr=0x" ++ hex8 (to_uint s) ++ cstr " content=[" ++
          with_markers 0 r.1 ++
          match r.2 with AtUnmapped => [] | _ => cstr ("]" +:+ NL) end ∧
        cycles m' = cycles m + 10000 * Z.of_nat (length (dump_chars s r)).
Proof.
  intros Hro Hwf Hf r. rewrite uart_puts_debug_spec by done. fold r.
  unfold debug_result. eexists. split; [done|]. autorewrite with mrun.
  rewrite uart_output_debug_trace; [done|].
  eapply wf_mem_bytes_at; [done|apply scan_bytes_at].
Qed.

(** C9: the dump of a NUL-terminated string of [L] bytes sends
    [41 + L' + L' / 4] characters, where [L'] is [L] capped at 32: the
    header, address and brackets are 41 characters and there is one separator
    for every four bytes dumped.  It takes 10000 iterations per character. *)
Theorem uart_puts_debug_length s bs fuel m :
  rodata_ok lit debug_literals (mem m) → wf_mem (mem m) →
  cstring_at (mem m) s bs → 10000 < Z.of_nat fuel →
  let L := Z.of_nat (length bs) `min` 32 in
  ∃ m', run (uart_puts_debug lit s) fuel m = (Done tt, m') ∧
        Z.of_nat (length (uart_output (trace m')))
        = Z.of_nat (length (uart_output (trace m))) + 41 + L + L `div` 4 ∧
        cycles m' = cycles m + 10000 * (41 + L + L `div` 4).
Proof.
  intros Hro Hwf Hs Hf L.
  destruct (sends_output _ _ _ _ _ _ _ (sends_puts_debug lit s bs fuel m Hro Hwf Hs Hf))
    as (m' & Hrun & _ & Hout & Hcyc).
  pose proof (debug_chars_length s bs) as Hlen. cbn zeta in Hlen. fold L in Hlen.
  exists m'. split; [done|]. rewrite Hout, length_app, Hcyc. unfold SETTLE. lia.
Qed.

(** C20: the dump can be read back: the eight digits after the header give
    the address of the string modulo 2^32, and the text between the brackets,
    with every fifth character taken out, is the first 32 bytes of the string
    at most. *)
Theorem uart_puts_debug_roundtrip s bs fuel m :
  rodata_ok lit debug_literals (mem m) → wf_mem (mem m) →
  cstring_at (mem m) s bs → 10000 < Z.of_nat fuel →
  ∃ m' digits payload,
    run (uart_puts_debug lit s) fuel m = (Done tt, m') ∧
    uart_output (trace m')
    = uart_output (trace m) ++ cstr "DEBUG: String addr=0x" ++ digits ++
      cstr " content=[" ++ payload ++ cstr ("]" +:+ NL) ∧
    parse_hex digits = Some (s `mod` 2 ^ 32) ∧
    strip_markers 0 (length (take 32 bs)) payload = take 32 bs.
Proof.
  intros Hro Hwf Hs Hf.
  destruct (sends_output _ _ _ _ _ _ _ (sends_puts_debug lit s bs fuel m Hro Hwf Hs Hf))
    as (m' & Hrun & _ & Hout & _).
  exists m', (hex8 (to_uint s)), (with_markers 0 (take 32 bs)).
  split; [done|]. split; [done|]. split.
  - rewrite parse_hex_hex8. unfold to_uint. by rewrite Z.mod_mod.
  - apply strip_with_markers.
Qed.

(** C11: the order of every read and write of [uart_puts_debug], on
    every memory.  After the header and the eight digits, which are sent
    without a read of the string, each byte the walk finds is read for the
    loop test, read again and transmitted, and read a third time for the test
    of the [break], before the next byte is read for the first time; a
    separator follows every fourth byte.  The terminator is read once; at the
    cap of 32 no further byte is read; at an unmapped address the trace ends
    with the third read of the byte before it.  So a byte is never sent
    before it has been read, nor a later byte read before it is sent. *)
Theorem uart_puts_debug_events s fuel m :
  rodata_ok lit debug_literals (mem m) → 10000 < Z.of_nat fuel →
  let r := scan (mem m) s 32 in
  let closing := lit_trace (lit ("]" +:+ NL)) (cstr ("]" +:+ NL)) in
  trace (run (uart_puts_debug lit s) fuel m).2
  = trace m ++
    lit_trace (lit "DEBUG: String addr=0x") (cstr "DEBUG: String addr=0x") ++
    emit_trace (hex8 (to_uint s)) ++
    lit_trace (lit " content=[") (cstr " content=[") ++
    (imap (λ i b, [EvLoad (s + Z.of_nat i) b; EvLoad (s + Z.of_nat i) b;
                   EvMmio UART0_DR (to_char b); EvLoad (s + Z.of_nat i) b] ++
                  if (Z.of_nat i + 1) `rem` 4 =? 0
                  then lit_trace (lit "|") (cstr "|") else []) r.1 ≫= id) ++
    match r.2 with
    | AtNul => EvLoad (s + Z.of_nat (length r.1)) 0 :: closing
    | AtBound => closing
    | AtUnmapped => []
    end.
Proof.
  intros Hro Hf r closing. rewrite uart_puts_debug_spec by done. fold r.
  unfold debug_result, debug_trace. cbn [snd]. autorewrite with mrun.
  rewrite dump_trace_imap. do 4 f_equal. f_equal.
  apply (f_equal (λ l, l ≫= id)), imap_ext. intros k c _. by rewrite Z.add_0_r.
Qed.

(** However [uart_puts_debug] ends, and on every memory and budget, it
    has not changed memory and has only added to the trace. *)
Lemma uart_puts_debug_frame s fuel m :
  let m' := (run (uart_puts_debug lit s) fuel m).2 in
  mem m' = mem m ∧ trace m `prefix_of` trace m' ∧ cycles m ≤ cycles m'.
Proof.
  intros m'. destruct (run (uart_puts_debug lit s) fuel m) as [o m1] eqn:Hrun.
  split; [exact (uart_puts_debug_read_only lit s _ _ _ _ Hrun)|].
  exact (uart_puts_debug_extends lit s _ _ _ _ Hrun).
Qed.

(** The budget is only a bound: once [uart_puts_debug] has ended in
    anything but an exhausted budget, it ends in the same way, on the same
    machine, with every larger budget. *)
Lemma uart_puts_debug_budget s fuel fuel' m o m' :
  run (uart_puts_debug lit s) fuel m = (o, m') → o ≠ Fault OutOfFuel →
  (fuel ≤ fuel')%nat →
  run (uart_puts_debug lit s) fuel' m = (o, m').
Proof. apply uart_puts_debug_fuel_stable. Qed.

End probe_theorems.

Lemma uart_puts_debug_cstring_witness :
  ∃ m', run (uart_puts_debug demo_lit (demo_lit "Hi")) (Z.to_nat 10001) demo_machine
        = (Done tt, m') ∧
        mem m' = mem demo_machine ∧
        uart_output (trace m')
        = cstr ("DEBUG: String addr=0x40001026 content=[Hi]" +:+ NL).
Proof.
  exact (uart_puts_debug_cstring demo_lit (demo_lit "Hi") (cstr "Hi")
           (Z.to_nat 10001) demo_machine
           ltac:(by_compute) ltac:(by_compute) ltac:(by_compute) ltac:(lia)).
Defined.

Lemma uart_puts_debug_trap_witness :
  ∃ m', run (uart_puts_debug demo_lit demo_edge) (Z.to_nat 10001) demo_machine
        = (Fault (Trapped (demo_edge + 5)), m') ∧
        uart_output (trace m')
        = cstr "DEBUG: String addr=0x40001052 content=[Hell|o".
Proof.
  exact (uart_puts_debug_trap demo_lit demo_edge (cstr "Hello")
           (Z.to_nat 10001) demo_machine
           ltac:(by_compute) ltac:(by_compute) ltac:(by_compute) ltac:(by_compute)
           ltac:(by_compute) ltac:(by vm_compute) ltac:(lia)).
Defined.

Lemma uart_puts_debug_terminates_witness :
  (run (uart_puts_debug demo_lit (demo_lit demo_long)) (Z.to_nat 10001)
     demo_machine).1 = Done tt ∨
  ∃ k, 0 ≤ k < 32 ∧ mem demo_machine !! (demo_lit demo_long + k) = None ∧
       (run (uart_puts_debug demo_lit (demo_lit demo_long)) (Z.to_nat 10001)
          demo_machine).1 = Fault (Trapped (demo_lit demo_long + k)).
Proof.
  exact (uart_puts_debug_terminates demo_lit (demo_lit demo_long)
           (Z.to_nat 10001) demo_machine ltac:(by_compute) ltac:(lia)).
Defined.

Lemma dump_break_dead_witness :
  ∃ j : Z, Continue 1 = Continue j.
Proof.
  exact (dump_break_dead demo_lit (demo_lit "Hi") 0 (Z.to_nat 10001) demo_machine
           (run (dump_cond (demo_lit "Hi") 0) (Z.to_nat 10001) demo_machine).2
           (Continue 1)
           (run (dump_body demo_lit (demo_lit "Hi") 0) (Z.to_nat 10001)
              (run (dump_cond (demo_lit "Hi") 0) (Z.to_nat 10001) demo_machine).2).2
           ltac:(by vm_compute) ltac:(by vm_compute)).
Defined.

Lemma uart_puts_debug_total_witness :
  ∃ m', run (uart_puts_debug demo_lit (demo_lit demo_long)) (Z.to_nat 10001) demo_machine
        = (Done tt, m') ∧
        mem m' = mem demo_machine ∧
        uart_output (trace m')
        = cstr ("DEBUG: String addr=0x40001029 content=[" +:+
                "0123|4567|89ab|cdef|ghij|klmn|opqr|stuv|]" +:+ NL) ∧
        cycles m' = 810000.
Proof.
  exact (uart_puts_debug_total demo_lit (demo_lit demo_long) (Z.to_nat 10001)
           demo_machine ltac:(by_compute) ltac:(by_compute) ltac:(lia)).
Defined.

Lemma uart_puts_debug_length_witness :
  ∃ m', run (uart_puts_debug demo_lit (demo_lit "Hi")) (Z.to_nat 10001) demo_machine
        = (Done tt, m') ∧
        Z.of_nat (length (uart_output (trace m'))) = 43 ∧
        cycles m' = 430000.
Proof.
  exact (uart_puts_debug_length demo_lit (demo_lit "Hi") (cstr "Hi")
           (Z.to_nat 10001) demo_machine
           ltac:(by_compute) ltac:(by_compute) ltac:(by_compute) ltac:(lia)).
Defined.

Lemma uart_puts_debug_roundtrip_witness :
  ∃ m' digits payload,
    run (uart_puts_debug demo_lit (demo_lit demo_long)) (Z.to_nat 10001) demo_machine
    = (Done tt, m') ∧
    uart_output (trace m')
    = cstr "DEBUG: String addr=0x" ++ digits ++
      cstr " content=[" ++ payload ++ cstr ("]" +:+ NL) ∧
    parse_hex digits = Some 0x40001029 ∧
    strip_markers 0 32 payload = cstr "0123456789abcdefghijklmnopqrstuv".
Proof.
  exact (uart_puts_debug_roundtrip demo_lit (demo_lit demo_long) (cstr demo_long)
           (Z.to_nat 10001) demo_machine
           ltac:(by_compute) ltac:(by_compute) ltac:(by_compute) ltac:(lia)).
Defined.


Lemma uart_puts_debug_events_witness :
  ∃ es, trace (run (uart_puts_debug demo_lit (demo_lit "Hi")) (Z.to_nat 10001)
                 demo_machine).2
        = es ++
          [EvLoad 0x40001026 (chr "H"); EvLoad 0x40001026 (chr "H");
           EvMmio UART0_DR (chr "H"); EvLoad 0x40001026 (chr "H");
           EvLoad 0x40001027 (chr "i"); EvLoad 0x40001027 (chr "i");
           EvMmio UART0_DR (chr "i"); EvLoad 0x40001027 (chr "i");
           EvLoad 0x40001028 0] ++
          lit_trace (demo_lit ("]" +:+ NL)) (cstr ("]" +:+ NL)).
Proof.
  exists (lit_trace (demo_lit "DEBUG: String addr=0x") (cstr "DEBUG: String addr=0x") ++
          emit_trace (cstr "40001026") ++
          lit_trace (demo_lit " content=[") (cstr " content=[")).
  etransitivity;
    [exact (uart_puts_debug_events demo_lit (demo_lit "Hi") (Z.to_nat 10001)
              demo_machine ltac:(by_compute) ltac:(lia))|].
  by vm_compute.
Defined.
