(* ===== verification/Debug.v ===== *)
(** * Debug: the scenarios and the main loop of minimal_main_debug.c

    [test_memory_access_patterns] runs the four scenarios once: the dump of
    a static string, the plain transmission of the same string, the dump of an
    array initialised on the stack, and five single-character transmissions.
    [main] prints a banner, runs the scenarios and then repeats for ever a
    labelled dump of a second static string followed by [delay 1000].

    The layout [lit] gives the address of each string literal and static
    array; [stack_string] is the address of the local array of the third
    scenario, whose twelve bytes are written when the array is initialised.

    The periodic loop is also the transition system [reachable], whose step
    is one round ([main_iteration]); its invariant is proved by induction on
    the rounds. *)

From Stdlib Require Import ZArith Lia Ascii String.
From stdpp Require Import base tactics option numbers list strings gmap.
From S2P Require Import Prelude CInt Machine Uart Format Probe.

#[local] Open Scope Z_scope.

Module Debug.

(** ** The static arrays *)

Definition test_string : string := "Hello World Debug Test!".
Definition hello : string := "Hello from seL4!".

(** The initialiser of [stack_string]. *)
Definition stack_init : list Z :=
  [chr "H"; chr "e"; chr "l"; chr "l"; chr "o"; chr " ";
   chr "S"; chr "t"; chr "a"; chr "c"; chr "k"; 0].

Section debug.
Context (lit : string → Z) (stack_string : Z).

(** ** The program *)

Definition test_memory_access_patterns : M unit :=
  uart_puts_safe (lit ("=== Test 1: Static String ===" +:+ NL));;
  uart_puts_debug lit (lit test_string);;
  uart_puts_safe (lit ("=== Test 2: Direct uart_puts ===" +:+ NL));;
  uart_puts_safe (lit "Before: ");;
  uart_puts_safe (lit test_string);;
  uart_puts_safe (lit (" :After" +:+ NL));;
  store_bytes stack_string stack_init;;
  uart_puts_safe (lit ("=== Test 3: Stack Array ===" +:+ NL));;
  uart_puts_debug lit stack_string;;
  uart_puts_safe (lit ("=== Test 4: Individual Access ===" +:+ NL));;
  (ch ← load (lit test_string + 0); uart_putc ch);;
  (ch ← load (lit test_string + 1); uart_putc ch);;
  (ch ← load (lit test_string + 2); uart_putc ch);;
  (ch ← load (lit test_string + 3); uart_putc ch);;
  (ch ← load (lit test_string + 4); uart_putc ch);;
  uart_puts_safe (lit (" <- Individual chars" +:+ NL)).

(** [while (count--) { for (volatile int i = 0; i < 100000; i++) {} }] *)
Definition delay (count : Z) : M unit :=
  _ ← while (λ count, mret (negb (count =? 0)))
            (λ count, let count := to_uint (count - 1) in
                      busy_wait 100000;;
                      mret (Continue count))
            (to_uint count);
  mret tt.

(** One round of the periodic loop of [main], from the value of
    [iteration] before the round to its value after. *)
Definition main_iteration (iteration : Z) : M Z :=
  let iteration := to_int (iteration + 1) in
  uart_puts_safe (lit "Iteration ");;
  (if iteration <? 10 then uart_putc (chr "0" + iteration)
   else uart_putc (chr "X"));;
  uart_puts_safe (lit ": ");;
  uart_puts_debug lit (lit hello);;
  delay 1000;;
  mret iteration.

Definition main : M unit :=
  uart_puts_safe (lit ("=== seL4 Memory Access Debug Session ===" +:+ NL));;
  uart_puts_safe (lit ("Testing capability boundary crossing..." +:+ NL +:+ NL));;
  test_memory_access_patterns;;
  uart_puts_safe (lit (NL +:+ "=== Starting periodic tests ===" +:+ NL));;
  _ ← while (λ _, mret true)
            (λ iteration, iteration ← main_iteration iteration;
                          mret (Continue iteration))
            0;
  mret tt.

(** ** What the program reads *)

Definition patterns_literals : list string :=
  [ "=== Test 1: Static String ===" +:+ NL; test_string;
    "=== Test 2: Direct uart_puts ===" +:+ NL; "Before: "; " :After" +:+ NL;
    "=== Test 3: Stack Array ===" +:+ NL;
    "=== Test 4: Individual Access ===" +:+ NL;
    " <- Individual chars" +:+ NL ] ++ debug_literals.

Definition main_literals : list string :=
  [ "=== seL4 Memory Access Debug Session ===" +:+ NL;
    "Testing capability boundary crossing..." +:+ NL +:+ NL;
    NL +:+ "=== Starting periodic tests ===" +:+ NL;
    "Iteration "; ": "; hello ] ++ patterns_literals.

(** The literals [main] has read by the time the dump of [test_string]
    reads its bytes. *)
Definition trap_literals : list string :=
  [ "=== seL4 Memory Access Debug Session ===" +:+ NL;
    "Testing capability boundary crossing..." +:+ NL +:+ NL;
    "=== Test 1: Static String ===" +:+ NL ] ++ debug_literals.

(** The local array is mapped and shares no byte with a literal. *)
Definition stack_ok (lits : list string) (μ : gmap Z Z) : Prop :=
  mapped μ stack_string 12 ∧
  Forall (λ l, lit l + Z.of_nat (String.length l) + 1 ≤ stack_string ∨
               stack_string + 12 ≤ lit l) lits.

(** ** What the program sends *)

Definition patterns_chars : list Z :=
  cstr ("=== Test 1: Static String ===" +:+ NL) ++
  debug_chars (lit test_string) (cstr test_string) ++
  cstr ("=== Test 2: Direct uart_puts ===" +:+ NL) ++
  cstr "Before: " ++ cstr test_string ++ cstr (" :After" +:+ NL) ++
  cstr ("=== Test 3: Stack Array ===" +:+ NL) ++
  debug_chars stack_string (cstr "Hello Stack") ++
  cstr ("=== Test 4: Individual Access ===" +:+ NL) ++
  cstr "Hello" ++ cstr (" <- Individual chars" +:+ NL).

(** The label of the round that follows [iteration] rounds. *)
Definition iteration_label (iteration : Z) : Z :=
  to_char (if to_int (iteration + 1) <? 10 then chr "0" + to_int (iteration + 1)
           else chr "X").

(** What the round that follows [iteration] rounds sends. *)
Definition iteration_chars (iteration : Z) : list Z :=
  cstr "Iteration " ++ [iteration_label iteration] ++ cstr ": " ++
  debug_chars (lit hello) (cstr hello).

(** What [main] sends before the periodic loop. *)
Definition banner_chars : list Z :=
  cstr ("=== seL4 Memory Access Debug Session ===" +:+ NL) ++
  cstr ("Testing capability boundary crossing..." +:+ NL +:+ NL) ++
  patterns_chars ++
  cstr (NL +:+ "=== Starting periodic tests ===" +:+ NL).

(** What the [n] rounds that follow [iteration] rounds send. *)
Fixpoint rounds_chars (iteration : Z) (n : nat) : list Z :=
  match n with
  | O => []
  | S n' => iteration_chars iteration ++ rounds_chars (to_int (iteration + 1)) n'
  end.

(** What the round numbered [k], from 1, sends as long as the counter has
    not overflowed. *)
Definition round_chars (k : Z) : list Z :=
  cstr "Iteration " ++ [if decide (k < 10) then chr "0" + k else chr "X"] ++
  cstr ": " ++ debug_chars (lit hello) (cstr hello).

(** ** The periodic loop as a transition system

    A state of the loop is the value of [iteration] and the machine; one
    transition is one round.  [reachable fuel m0 n iteration m]: entered on
    [m0] with the counter at 0, the loop is at [iteration] and [m] after [n]
    rounds, the loops inside each round having the budget [fuel]. *)
Definition reachable (fuel : nat) (m0 : machine) : nat → Z → machine → Prop :=
  reach main_iteration fuel 0 m0.

(** The iterations of the settle loop and of [delay] in one round. *)
Definition round_cycles : Z := 10000 * 74 + 100000 * 1000.

End debug.

#[export] Instance stack_ok_dec lit stack lits μ : Decision (stack_ok lit stack lits μ).
Proof. unfold stack_ok. apply _. Defined.

(** ** A concrete machine

    The literals of the program laid out from 0x40001000 and twelve mapped
    bytes of stack at 0x4007FFF0. *)

Definition debug_tbl : list (string * Z) :=
  Eval vm_compute in layout 0x40001000 (main_literals).

Definition debug_lit : string → Z := lit_at debug_tbl.

Definition debug_stack : Z := 0x4007FFF0.

Definition debug_machine : machine :=
  Machine (place debug_stack (replicate 12 0) (image debug_tbl ∅)) [] 0.

(** The same machine with the eleventh byte of [test_string] unmapped. *)
Definition debug_cut_machine : machine :=
  Machine (delete (debug_lit test_string + 10) (mem debug_machine)) [] 0.

(** * Lemmas *)

Section debug_spec.
Context (lit : string → Z) (stack_string : Z).

(** ** The delay *)

Lemma delay_spec count fuel m :
  0 ≤ count < 2 ^ 32 → count < Z.of_nat fuel → 100000 < Z.of_nat fuel →
  run (delay count) fuel m = (Done tt, advance [] (100000 * count) m).
Proof.
  intros Hc Hf1 Hf2. unfold delay. rewrite run_bind, run_while, to_uint_small by done.
  rewrite <- (Z2Nat.id count) by lia. rewrite delay_loop_run by lia.
  by autorewrite with mrun.
Qed.

Lemma sends_delay count fuel m :
  0 ≤ count < 2 ^ 32 → count < Z.of_nat fuel → 100000 < Z.of_nat fuel →
  sends (delay count) fuel m tt [] (100000 * count) (mem m).
Proof.
  intros. eapply sends_intro; [rewrite delay_spec by done|..].
  - by autorewrite with mrun.
  - done.
  - cbn. lia.
Qed.

(** ** The scenarios *)

(** The memory the initialiser of [stack_string] leaves. *)
Lemma stack_frame lits μ :
  rodata_ok lit lits μ → wf_mem μ → stack_ok lit stack_string lits μ →
  let μ' := place stack_string (to_char <$> stack_init) μ in
  rodata_ok lit lits μ' ∧ wf_mem μ' ∧ cstring_at μ' stack_string (cstr "Hello Stack").
Proof.
  intros Hro Hwf [Hmap Hd]. split; [|split].
  - by apply rodata_ok_place.
  - apply wf_mem_place; [by_compute|done].
  - split; [|by_compute].
    change (cstr "Hello Stack" ++ [0]) with (to_char <$> stack_init).
    apply bytes_at_place.
Qed.

Lemma sends_patterns fuel m :
  rodata_ok lit patterns_literals (mem m) → wf_mem (mem m) →
  stack_ok lit stack_string patterns_literals (mem m) → 10000 < Z.of_nat fuel →
  sends (test_memory_access_patterns lit stack_string) fuel m tt
    (patterns_chars lit stack_string) 0
    (place stack_string (to_char <$> stack_init) (mem m)).
Proof.
  intros Hro Hwf Hst Hf.
  destruct (stack_frame _ _ Hro Hwf Hst) as (Hro' & Hwf' & Hstack).
  pose proof (proj2 (proj1 (rodata_ok_app _ _ _ _) Hro)) as Hdbg.
  pose proof (proj2 (proj1 (rodata_ok_app _ _ _ _) Hro')) as Hdbg'.
  pose proof (rodata_ok_lookup _ _ _ test_string Hro ltac:(lit_side)) as Hts.
  pose proof (rodata_ok_lookup _ _ _ test_string Hro' ltac:(lit_side)) as Hts'.
  destruct Hst as [Hmap _].
  unfold test_memory_access_patterns.
  eapply sends_eq.
  { sends_step ltac:(sends_lit lit patterns_literals).
    sends_step ltac:(by apply (sends_puts_debug lit _ (cstr test_string))).
    sends_step ltac:(sends_lit lit patterns_literals).
    sends_step ltac:(sends_lit lit patterns_literals).
    sends_step ltac:(sends_lit lit patterns_literals).
    sends_step ltac:(sends_lit lit patterns_literals).
    sends_step ltac:(by apply sends_store_bytes).
    sends_step ltac:(sends_lit lit patterns_literals).
    sends_step ltac:(by apply (sends_puts_debug lit _ (cstr "Hello Stack"))).
    sends_step ltac:(sends_lit lit patterns_literals).
    sends_step ltac:(apply (sends_load_putc _ _ _ _ _
      (cstring_at_lookup _ _ _ 0 _ Hts' eq_refl) Hf)).
    sends_step ltac:(apply (sends_load_putc _ _ _ _ _
      (cstring_at_lookup _ _ _ 1 _ Hts' eq_refl) Hf)).
    sends_step ltac:(apply (sends_load_putc _ _ _ _ _
      (cstring_at_lookup _ _ _ 2 _ Hts' eq_refl) Hf)).
    sends_step ltac:(apply (sends_load_putc _ _ _ _ _
      (cstring_at_lookup _ _ _ 3 _ Hts' eq_refl) Hf)).
    sends_step ltac:(apply (sends_load_putc _ _ _ _ _
      (cstring_at_lookup _ _ _ 4 _ Hts' eq_refl) Hf)).
    sends_lit lit patterns_literals. }
  - done.
  - done.
Qed.

(** The first scenario when [test_string] runs into unmapped memory after
    [k] bytes. *)
Lemma stops_patterns (k : nat) fuel m :
  rodata_ok lit trap_literals (mem m) → wf_mem (mem m) → (k < 23)%nat →
  bytes_at (mem m) (lit test_string) (take k (cstr test_string)) →
  mem m !! (lit test_string + Z.of_nat k) = None → 10000 < Z.of_nat fuel →
  stops (test_memory_access_patterns lit stack_string) fuel m
    (Trapped (lit test_string + Z.of_nat k))
    (cstr ("=== Test 1: Static String ===" +:+ NL) ++
     cstr "DEBUG: String addr=0x" ++ hex8 (to_uint (lit test_string)) ++
     cstr " content=[" ++ with_markers 0 (take k (cstr test_string))) 0 (mem m).
Proof.
  intros Hro Hwf Hk Hs Hu Hf.
  pose proof (proj2 (proj1 (rodata_ok_app _ _ _ _) Hro)) as Hdbg.
  assert (length (take k (cstr test_string)) = k) as Hlen
    by (rewrite length_take; change (length (cstr test_string)) with 23%nat; lia).
  unfold test_memory_access_patterns. eapply stops_eq.
  - stops_step ltac:(sends_lit lit trap_literals).
    match goal with |- stops _ _ ?m1 _ _ _ _ =>
      pose proof (stops_puts_debug lit (lit test_string) (take k (cstr test_string))
                    fuel m1 Hdbg Hwf Hs) as Hdump
    end.
    rewrite Hlen in Hdump. apply stops_bind_l, Hdump; [|lia|done..].
    apply Forall_take. by_compute.
  - done.
  - done.
Qed.

(** ** The periodic loop *)

Lemma sends_main_iteration iteration fuel m :
  rodata_ok lit main_literals (mem m) → wf_mem (mem m) →
  100000 < Z.of_nat fuel →
  sends (main_iteration lit iteration) fuel m (to_int (iteration + 1))
    (iteration_chars lit iteration) (100000 * 1000) (mem m).
Proof.
  intros Hro Hwf Hf.
  pose proof (proj2 (proj1 (rodata_ok_app _ _ _ _) Hro)) as Hpat.
  pose proof (proj2 (proj1 (rodata_ok_app _ _ _ _) Hpat)) as Hdbg.
  pose proof (rodata_ok_lookup _ _ _ hello Hro ltac:(lit_side)) as Hhello.
  unfold main_iteration, iteration_chars, iteration_label. cbn zeta.
  eapply sends_eq.
  { sends_step ltac:(sends_lit lit main_literals).
    sends_step ltac:(apply sends_putc_if; [apply _|unfold SETTLE; lia]).
    sends_step ltac:(sends_lit lit main_literals).
    sends_step ltac:(apply (sends_puts_debug lit _ (cstr hello)); done || lia).
    sends_step ltac:(apply sends_delay; lia).
    apply sends_ret. }
  - by rewrite app_nil_r.
  - lia.
Qed.

(** The label of a round is its number as one digit for the rounds 1 to 9
    and [X] for every later round up to [INT_MAX]. *)
Lemma iteration_label_small iteration :
  0 ≤ iteration < 2 ^ 31 - 1 →
  iteration_label iteration
  = if decide (iteration < 9) then chr "1" + iteration else chr "X".
Proof.
  intros Hi. unfold iteration_label. rewrite to_int_small by lia.
  case_decide; (destruct (_ <? 10) eqn:E; zbool); [|done].
  rewrite to_char_small; vm_compute chr; lia.
Qed.

Lemma rounds_chars_seq iteration (n : nat) :
  0 ≤ iteration → iteration + Z.of_nat n < 2 ^ 31 →
  rounds_chars lit iteration n = seqZ (iteration + 1) (Z.of_nat n) ≫= round_chars lit.
Proof.
  revert iteration. induction n as [|n IH]; intros iteration Hi Hn; [done|].
  cbn [rounds_chars]. rewrite seqZ_cons by lia. cbn [mbind list_bind].
  rewrite to_int_small, IH by lia. f_equal.
  - unfold iteration_chars, round_chars. rewrite iteration_label_small by lia.
    do 2 f_equal. repeat case_decide; f_equal; vm_compute chr; lia.
  - f_equal. f_equal; lia.
Qed.

Lemma round_chars_length k : length (round_chars lit k) = 74%nat.
Proof.
  unfold round_chars. pose proof (debug_chars_length (lit hello) (cstr hello)) as H.
  cbv zeta in H. change (Z.of_nat (length (cstr hello))) with 16 in H.
  change (41 + 16 `min` 32 + (16 `min` 32) `div` 4) with 61 in H.
  rewrite !length_app. change (length (cstr "Iteration ")) with 10%nat.
  change (length (cstr ": ")) with 2%nat. cbn [length]. lia.
Qed.

(** One round, by its number. *)
Lemma round_spec k fuel m :
  rodata_ok lit main_literals (mem m) → wf_mem (mem m) →
  0 ≤ k < 2 ^ 31 - 1 → 100000 < Z.of_nat fuel →
  ∃ m', run (main_iteration lit k) fuel m = (Done (k + 1), m') ∧
        mem m' = mem m ∧
        uart_output (trace m') = uart_output (trace m) ++ round_chars lit (k + 1) ∧
        cycles m' = cycles m + round_cycles.
Proof.
  intros Hro Hwf Hk Hf.
  destruct (sends_output _ _ _ _ _ _ _ (sends_main_iteration k fuel m Hro Hwf Hf))
    as (m' & Hrun & Hmem & Hout & Hcyc).
  rewrite to_int_small in Hrun by lia.
  pose proof (rounds_chars_seq k 1 ltac:(lia) ltac:(lia)) as Hseq.
  cbn [rounds_chars] in Hseq. change (Z.of_nat 1) with 1 in Hseq.
  rewrite seqZ_cons, seqZ_nil in Hseq by lia. cbn [mbind list_bind] in Hseq.
  rewrite !app_nil_r in Hseq. rewrite Hseq in Hout, Hcyc. rewrite round_chars_length in Hcyc.
  exists m'. unfold SETTLE in Hcyc. unfold round_cycles. repeat split; [done..|lia].
Qed.

(** The counter and the memory of a state of the loop. *)
Lemma reachable_frame fuel m0 n iteration m :
  rodata_ok lit main_literals (mem m0) → wf_mem (mem m0) →
  100000 < Z.of_nat fuel → Z.of_nat n < 2 ^ 31 →
  reachable lit fuel m0 n iteration m → iteration = Z.of_nat n ∧ mem m = mem m0.
Proof.
  intros Hro Hwf Hf Hn Hr. unfold reachable in Hr.
  induction Hr as [|n it m it' m' Hr IH Hrun]; [done|].
  destruct IH as [-> Hmem]; [lia|].
  destruct (round_spec (Z.of_nat n) fuel m) as (m1 & Hrun1 & Hmem1 & _);
    [by rewrite Hmem..|lia|done|].
  rewrite Hrun1 in Hrun. injection Hrun as <- <-. split; [lia|congruence].
Qed.

Lemma main_loop_stops (k : nat) iteration fuel m :
  rodata_ok lit main_literals (mem m) → wf_mem (mem m) →
  100000 < Z.of_nat fuel →
  stops (while_fix k (λ _, mret true)
           (λ iteration, iteration ← main_iteration lit iteration;
                         mret (Continue iteration))
           iteration) fuel m OutOfFuel
    (rounds_chars lit iteration k) (100000 * 1000 * Z.of_nat k) (mem m).
Proof.
  intros Hro Hwf Hf. revert iteration m Hro Hwf.
  induction k as [|k IH]; intros iteration m Hro Hwf.
  { exists []. rewrite while_fix_O. by autorewrite with mrun. }
  destruct (sends_main_iteration iteration fuel m Hro Hwf Hf) as (es1 & Hit & Hes1).
  rewrite set_mem_id in Hit.
  match type of Hit with _ = (_, ?m1) =>
    destruct (IH (to_int (iteration + 1)) m1) as (es2 & Hloop & Hes2); [done..|]
  end.
  rewrite set_mem_id in Hloop.
  exists (es1 ++ es2). rewrite while_fix_S. autorewrite with mrun.
  rewrite Hit. autorewrite with mrun. rewrite Hloop.
  autorewrite with mrun. split.
  - do 2 f_equal. cbn [rounds_chars]. rewrite length_app. lia.
  - cbn [rounds_chars]. by rewrite Hes1, Hes2.
Qed.

End debug_spec.

(** * Theorems *)

Section debug_theorems.
Context (lit : string → Z) (stack_string : Z).

(** C26: [delay count] returns after exactly [100000 * count] iterations
    of its inner loop, for every [count] the budget covers. *)
Theorem delay_run count fuel m :
  0 ≤ count < 2 ^ 32 → count < Z.of_nat fuel → 100000 < Z.of_nat fuel →
  run (delay count) fuel m
  = (Done tt, Machine (mem m) (trace m) (cycles m + 100000 * count)).
Proof.
  intros. rewrite delay_spec by done. unfold advance. by rewrite app_nil_r.
Qed.

(** C13: with its literals mapped and its stack array mapped apart from
    them, [test_memory_access_patterns] returns after sending the four
    scenarios in order; the only change to memory is the initialised stack
    array, which leaves the literals in place and memory well formed, and each
    character sent has cost 10000 iterations. *)
Theorem test_memory_access_patterns_run fuel m :
  rodata_ok lit patterns_literals (mem m) → wf_mem (mem m) →
  stack_ok lit stack_string patterns_literals (mem m) → 10000 < Z.of_nat fuel →
  ∃ m', run (test_memory_access_patterns lit stack_string) fuel m = (Done tt, m') ∧
        mem m' = place stack_string (to_char <$> stack_init) (mem m) ∧
        rodata_ok lit patterns_literals (mem m') ∧ wf_mem (mem m') ∧
        uart_output (trace m')
        = uart_output (trace m) ++ patterns_chars lit stack_string ∧
        cycles m'
        = cycles m + 10000 * Z.of_nat (length (patterns_chars lit stack_string)).
Proof.
  intros Hro Hwf Hst Hf.
  destruct (sends_output _ _ _ _ _ _ _ (sends_patterns lit stack_string fuel m Hro Hwf Hst Hf))
    as (m' & Hrun & Hmem & Hout & Hcyc).
  destruct (stack_frame lit stack_string _ _ Hro Hwf Hst) as (Hro' & Hwf' & _).
  exists m'. unfold SETTLE in Hcyc. rewrite Hmem.
  split; [done|]. do 4 (split; [done|]). lia.
Qed.

(** C22: one round of the periodic loop, after [iteration] rounds: the
    counter is incremented; the round sends ["Iteration "], its number as one
    digit for the rounds 1 to 9 and [X] for every later round, [": "] and the
    dump of [hello]; it then waits [1000 * 100000] iterations.  Memory is
    unchanged. *)
Theorem main_iteration_run iteration fuel m :
  rodata_ok lit main_literals (mem m) → wf_mem (mem m) →
  0 ≤ iteration < 2 ^ 31 - 1 → 100000 < Z.of_nat fuel →
  ∃ m', run (main_iteration lit iteration) fuel m = (Done (iteration + 1), m') ∧
        mem m' = mem m ∧
        uart_output (trace m')
        = uart_output (trace m) ++
          cstr "Iteration " ++
          [if decide (iteration < 9) then chr "1" + iteration else chr "X"] ++
          cstr ": " ++ debug_chars (lit hello) (cstr hello) ∧
        cycles m'
        = cycles m + 10000 * Z.of_nat (length (iteration_chars lit iteration))
          + 100000000.
Proof.
  intros Hro Hwf Hi Hf.
  destruct (sends_output _ _ _ _ _ _ _ (sends_main_iteration lit iteration fuel m Hro Hwf Hf))
    as (m' & Hrun & Hmem & Hout & Hcyc).
  rewrite to_int_small in Hrun by lia.
  unfold iteration_chars in Hout. rewrite iteration_label_small in Hout by done.
  exists m'. unfold SETTLE in Hcyc. repeat split; [done..|lia].
Qed.

(** C23: the invariant of the periodic loop, by induction on its rounds.
    After [n] rounds the counter is [n], memory is as it was on entry, the
    rounds 1 to [n] have been sent in order and each has taken [round_cycles]
    iterations.  The budget bounds the loops inside one round: it does not
    bound the number of rounds. *)
Theorem loop_invariant fuel m0 n iteration m :
  rodata_ok lit main_literals (mem m0) → wf_mem (mem m0) →
  100000 < Z.of_nat fuel → Z.of_nat n < 2 ^ 31 →
  reachable lit fuel m0 n iteration m →
  iteration = Z.of_nat n ∧ mem m = mem m0 ∧
  uart_output (trace m)
  = uart_output (trace m0) ++ (seqZ 1 (Z.of_nat n) ≫= round_chars lit) ∧
  cycles m = cycles m0 + round_cycles * Z.of_nat n.
Proof.
  intros Hro Hwf Hf Hn Hr.
  destruct (reachable_frame lit _ _ _ _ _ Hro Hwf Hf Hn Hr) as [Hit Hmem].
  split; [done|]. split; [done|]. clear Hit Hmem. unfold reachable in Hr.
  induction Hr as [|n it m it' m' Hr IH Hrun].
  { cbn. rewrite app_nil_r. split; [done|lia]. }
  destruct IH as [Hout Hcyc]; [lia|].
  destruct (reachable_frame lit fuel m0 n _ m Hro Hwf Hf ltac:(lia) Hr) as [-> Hmem].
  destruct (round_spec lit (Z.of_nat n) fuel m) as (m1 & Hrun1 & _ & Hout1 & Hcyc1);
    [by rewrite Hmem..|lia|done|].
  rewrite Hrun1 in Hrun. injection Hrun as <- <-.
  rewrite seqZ_S, bind_app, Hout1, Hout, Hcyc1, Hcyc. cbn [mbind list_bind].
  rewrite app_nil_r, <- app_assoc, (Z.add_comm 1). split; [done|lia].
Qed.

(** C24: the periodic loop does not get stuck.  Every number of rounds
    below [2^31] is reached: no round traps or exhausts the budget of its inner
    loops; and with a budget of exactly [n] rounds the loop of [main] stops in
    the state the transition system reaches after [n] rounds. *)
Theorem loop_reaches fuel m0 n :
  rodata_ok lit main_literals (mem m0) → wf_mem (mem m0) →
  100000 < Z.of_nat fuel → Z.of_nat n < 2 ^ 31 →
  ∃ m, reachable lit fuel m0 n (Z.of_nat n) m ∧
       run (while_fix n (λ _, mret true)
              (λ iteration, iteration ← main_iteration lit iteration;
                            mret (Continue iteration))
              0) fuel m0
       = (Fault OutOfFuel, m).
Proof.
  intros Hro Hwf Hf Hn.
  assert (∃ m, reachable lit fuel m0 n (Z.of_nat n) m) as [m Hr].
  { induction n as [|n IH]; [exists m0; constructor|].
    destruct IH as [m Hr]; [lia|].
    destruct (reachable_frame lit fuel m0 n _ m Hro Hwf Hf ltac:(lia) Hr) as [_ Hmem].
    destruct (round_spec lit (Z.of_nat n) fuel m) as (m1 & Hrun1 & _);
      [by rewrite Hmem..|lia|done|].
    exists m1. rewrite Nat2Z.inj_succ. by eapply reach_round. }
  exists m. split; [done|]. by eapply (reach_out_of_fuel (main_iteration lit)).
Qed.

(** C7: with a budget of [fuel] rounds, [main] is still running after
    the banner, the scenarios and exactly [fuel] complete rounds of the
    periodic loop, numbered from 1: the rounds 1 to 9 are labelled by their
    digit and every later round by [X]. *)
Theorem main_rounds fuel m :
  rodata_ok lit main_literals (mem m) → wf_mem (mem m) →
  stack_ok lit stack_string main_literals (mem m) →
  100000 < Z.of_nat fuel < 2 ^ 31 →
  ∃ m', run (main lit stack_string) fuel m = (Fault OutOfFuel, m') ∧
        uart_output (trace m')
        = uart_output (trace m) ++ banner_chars lit stack_string ++
          (seqZ 1 (Z.of_nat fuel) ≫= round_chars lit).
Proof.
  intros Hro Hwf [Hmap Hd] [Hf Hf'].
  change (seqZ 1) with (seqZ (0 + 1)). rewrite <- (rounds_chars_seq lit 0 fuel) by lia.
  pose proof (proj2 (proj1 (rodata_ok_app _ _ _ _) Hro)) as Hpat.
  apply Forall_app in Hd as Hd'. destruct Hd' as [_ Hdp].
  destruct (stack_frame lit stack_string _ _ Hro Hwf (conj Hmap Hd)) as (Hro' & Hwf' & _).
  assert (stops (main lit stack_string) fuel m OutOfFuel
            (banner_chars lit stack_string ++ rounds_chars lit 0 fuel)
            (100000 * 1000 * Z.of_nat fuel)
            (place stack_string (to_char <$> stack_init) (mem m))) as Hstops.
  { unfold main, banner_chars. eapply stops_eq.
    - stops_step ltac:(sends_lit lit main_literals).
      stops_step ltac:(sends_lit lit main_literals).
      stops_step ltac:(by apply sends_patterns; [..|lia]).
      stops_step ltac:(sends_lit lit main_literals).
      apply stops_bind_l. by apply (main_loop_stops lit fuel 0 fuel).
    - by rewrite <- !app_assoc.
    - lia. }
  destruct (stops_output _ _ _ _ _ _ _ Hstops) as (m' & Hrun & _ & Hout & _).
  by exists m'.
Qed.

(** C12: the diagnosis the session exists for.  When the static string
    [test_string] is mapped for its first [k] bytes only, [main] stops with a
    trap at the address of the byte after them; the trace ends in the middle
    of the dump of the first scenario, with the [k] bytes read and their
    separators and no closing bracket, and nothing of the later scenarios or
    of the periodic loop is sent.  Memory is unchanged. *)
Theorem main_debug_trap (k : nat) fuel m :
  rodata_ok lit trap_literals (mem m) → wf_mem (mem m) → (k < 23)%nat →
  bytes_at (mem m) (lit test_string) (take k (cstr test_string)) →
  mem m !! (lit test_string + Z.of_nat k) = None → 10000 < Z.of_nat fuel →
  ∃ m', run (main lit stack_string) fuel m
        = (Fault (Trapped (lit test_string + Z.of_nat k)), m') ∧
        mem m' = mem m ∧
        uart_output (trace m')
        = uart_output (trace m) ++
          cstr ("=== seL4 Memory Access Debug Session ===" +:+ NL) ++
          cstr ("Testing capability boundary crossing..." +:+ NL +:+ NL) ++
          cstr ("=== Test 1: Static String ===" +:+ NL) ++
          cstr "DEBUG: String addr=0x" ++ hex8 (to_uint (lit test_string)) ++
          cstr " content=[" ++ with_markers 0 (take k (cstr test_string)).
Proof.
  intros Hro Hwf Hk Hs Hu Hf.
  assert (stops (main lit stack_string) fuel m (Trapped (lit test_string + Z.of_nat k))
            (cstr ("=== seL4 Memory Access Debug Session ===" +:+ NL) ++
             cstr ("Testing capability boundary crossing..." +:+ NL +:+ NL) ++
             cstr ("=== Test 1: Static String ===" +:+ NL) ++
             cstr "DEBUG: String addr=0x" ++ hex8 (to_uint (lit test_string)) ++
             cstr " content=[" ++ with_markers 0 (take k (cstr test_string)))
            0 (mem m)) as Hstops.
  { unfold main. eapply stops_eq.
    - stops_step ltac:(sends_lit lit trap_literals).
      stops_step ltac:(sends_lit lit trap_literals).
      by apply stops_bind_l, stops_patterns.
    - done.
    - done. }
  destruct (stops_output _ _ _ _ _ _ _ Hstops) as (m' & Hrun & Hmem & Hout & _).
  by exists m'.
Qed.

(** C25: [main] does not return, whatever the memory and the budget. *)
Theorem main_never_returns fuel m m' :
  run (main lit stack_string) fuel m ≠ (Done tt, m').
Proof.
  unfold main. intros Hrun.
  do 4 (rewrite run_bind in Hrun;
        apply and_then_done_inv in Hrun as (? & ? & _ & Hrun)).
  rewrite run_bind in Hrun.
  apply and_then_done_inv in Hrun as (s' & m1 & Hloop & _).
  revert Hloop. rewrite run_while. apply while_fix_forever.
  - by intros ????? [= <- _].
  - intros s0 f m0 r m2. rewrite run_bind. intros Hb.
    apply and_then_done_inv in Hb as (it & ? & _ & [= <- _]). eauto.
Qed.

End debug_theorems.

Lemma delay_run_witness :
  run (delay 1000) (Z.to_nat 100001) debug_machine
  = (Done tt, Machine (mem debug_machine) [] 100000000).
Proof.
  exact (delay_run 1000 (Z.to_nat 100001) debug_machine
           ltac:(lia) ltac:(lia) ltac:(lia)).
Defined.

Lemma test_memory_access_patterns_run_witness :
  ∃ m', run (test_memory_access_patterns debug_lit debug_stack)
          (Z.to_nat 10001) debug_machine = (Done tt, m') ∧
        uart_output (trace m')
        = cstr ("=== Test 1: Static String ===" +:+ NL +:+
                "DEBUG: String addr=0x400010B4 content=[Hell|o Wo|rld |Debu|g Te|st!]"
                +:+ NL +:+
                "=== Test 2: Direct uart_puts ===" +:+ NL +:+
                "Before: Hello World Debug Test! :After" +:+ NL +:+
                "=== Test 3: Stack Array ===" +:+ NL +:+
                "DEBUG: String addr=0x4007FFF0 content=[Hell|o St|ack]" +:+ NL +:+
                "=== Test 4: Individual Access ===" +:+ NL +:+
                "Hello <- Individual chars" +:+ NL) ∧
        cycles m' = 3130000.
Proof.
  destruct (test_memory_access_patterns_run debug_lit debug_stack (Z.to_nat 10001)
              debug_machine ltac:(by_compute) ltac:(by_compute) ltac:(by_compute)
              ltac:(lia)) as (m' & Hrun & _ & _ & _ & Hout & Hcyc).
  exists m'. split; [exact Hrun|]. split; [exact Hout|exact Hcyc].
Defined.

Lemma main_iteration_run_witness :
  ∃ m', run (main_iteration debug_lit 9) (Z.to_nat 100001) debug_machine
        = (Done 10, m') ∧
        uart_output (trace m')
        = cstr ("Iteration X: DEBUG: String addr=0x40001084 " +:+
                "content=[Hell|o fr|om s|eL4!|]" +:+ NL) ∧
        cycles m' = 100740000.
Proof.
  destruct (main_iteration_run debug_lit 9 (Z.to_nat 100001) debug_machine
              ltac:(by_compute) ltac:(by_compute) ltac:(lia) ltac:(lia))
    as (m' & Hrun & _ & Hout & Hcyc).
  exists m'. split; [exact Hrun|]. split; [exact Hout|exact Hcyc].
Defined.

Lemma loop_invariant_witness :
  ∃ m', reachable debug_lit (Z.to_nat 100001) debug_machine 1 1 m' ∧
        uart_output (trace m')
        = cstr ("Iteration 1: DEBUG: String addr=0x40001084 " +:+
                "content=[Hell|o fr|om s|eL4!|]" +:+ NL) ∧
        cycles m' = 100740000.
Proof.
  destruct (round_spec debug_lit 0 (Z.to_nat 100001) debug_machine
              ltac:(by_compute) ltac:(by_compute) ltac:(lia) ltac:(lia))
    as (m' & Hrun & _).
  pose proof (reach_round _ _ _ _ _ _ _ _ _ (reach_entry (main_iteration debug_lit) _ 0 _) Hrun) as Hr.
  destruct (loop_invariant debug_lit (Z.to_nat 100001) debug_machine 1 1 m'
              ltac:(by_compute) ltac:(by_compute) ltac:(lia) ltac:(lia) Hr)
    as (_ & _ & Hout & Hcyc).
  exists m'. split; [exact Hr|]. split; [exact Hout|exact Hcyc].
Defined.

Lemma loop_reaches_witness :
  ∃ m, reachable debug_lit (Z.to_nat 100001) debug_machine 3 3 m ∧
       run (while_fix 3 (λ _, mret true)
              (λ iteration, iteration ← main_iteration debug_lit iteration;
                            mret (Continue iteration))
              0) (Z.to_nat 100001) debug_machine
       = (Fault OutOfFuel, m).
Proof.
  exact (loop_reaches debug_lit (Z.to_nat 100001) debug_machine 3
           ltac:(by_compute) ltac:(by_compute) ltac:(lia) ltac:(lia)).
Defined.

Lemma main_debug_trap_witness :
  ∃ m', run (main debug_lit debug_stack) (Z.to_nat 10001) debug_cut_machine
        = (Fault (Trapped 0x400010BE), m') ∧
        mem m' = mem debug_cut_machine ∧
        uart_output (trace m')
        = cstr ("=== seL4 Memory Access Debug Session ===" +:+ NL +:+
                "Testing capability boundary crossing..." +:+ NL +:+ NL +:+
                "=== Test 1: Static String ===" +:+ NL +:+
                "DEBUG: String addr=0x400010B4 content=[Hell|o Wo|rl").
Proof.
  exact (main_debug_trap debug_lit debug_stack 10 (Z.to_nat 10001) debug_cut_machine
           ltac:(by_compute) ltac:(by_compute) ltac:(lia) ltac:(by_compute)
           ltac:(by vm_compute) ltac:(lia)).
Defined.

Lemma main_rounds_witness :
  ∃ m', run (main debug_lit debug_stack) (Z.to_nat 100001) debug_machine
        = (Fault OutOfFuel, m') ∧
        uart_output (trace m')
        = uart_output (trace debug_machine) ++ banner_chars debug_lit debug_stack ++
          (seqZ 1 (Z.of_nat (Z.to_nat 100001)) ≫= round_chars debug_lit).
Proof.
  exact (main_rounds debug_lit debug_stack (Z.to_nat 100001) debug_machine
           ltac:(by_compute) ltac:(by_compute) ltac:(by_compute) ltac:(lia)).
Defined.

End Debug.
