(* ===== verification/Boundaries.v ===== *)
(** * Boundaries: the boundary test program, minimal_main_test_boundaries.c

    [test_4kb_boundary_crossing] prints three static strings with their
    addresses and then the first 100 bytes of the longest, sixteen to a line,
    each line led by its offset.  [test_capdl_frame_pattern] reads one byte at
    each of the offsets 0, 4, ..., 28 from the base of guest RAM, 0x40000000,
    and prints the low half of each.  [main] runs both and then repeats a short
    labelled message for ever.

    The strings are the program's own data, placed by the layout [lit]; the
    probe reads memory the program does not own, so its theorems cover the
    read that traps as well as the one that returns. *)

From Stdlib Require Import ZArith Lia Ascii String.
From stdpp Require Import base tactics option numbers list strings gmap.
From S2P Require Import Prelude CInt Machine Uart Format.

#[local] Open Scope Z_scope.

Module Boundaries.

(** ** The driver *)

Definition UART0_DR : Z := 0x9000000.

Definition uart_putc (c : Z) : M unit :=
  mmio_write UART0_DR (to_char c);;
  busy_wait 10000.

Definition uart_puts_safe (s : Z) : M unit :=
  _ ← while (λ s, ch ← load s; mret (negb (ch =? 0)))
            (λ s, ch ← load s; uart_putc ch;; mret (Continue (s + 1)))
            s;
  mret tt.

(** ** The static arrays *)

Definition test_string_short : string := "Hi".
Definition test_string_medium : string := "Hello World Test String".
Definition test_string_long : string :=
  "This is a very long string that definitely should cross 4KB frame boundaries in the seL4 capability system and cause memory access failures when FreeRTOS tries to read consecutive bytes across capability boundaries".

(** Guest RAM base. *)
Definition base_ptr : Z := 0x40000000.

Section boundaries.
Context (lit : string → Z).

(** ** The program *)

Definition print_hex_addr (addr : Z) : M unit :=
  uart_puts_safe (lit "0x");;
  put_hex32 uart_putc addr.

(** The test of the analysis loop:
    [i < 100 && test_string_long[i] != '\0']. *)
Definition analysis_cond (i : Z) : M bool :=
  if i <? 100 then ch ← load (lit test_string_long + i); mret (negb (ch =? 0))
  else mret false.

(** The body of the analysis loop, with its [i++]. *)
Definition analysis_body (i : Z) : M (ctl Z) :=
  (if i `rem` 16 =? 0 then
     uart_puts_safe (lit (NL +:+ "Offset "));;
     put_byte_offset uart_putc i;;
     uart_puts_safe (lit ": ")
   else mret tt);;
  ch ← load (lit test_string_long + i);
  uart_putc ch;;
  (if to_int (i + 1) `rem` 4096 =? 0 then uart_puts_safe (lit "|4KB|")
   else mret tt);;
  mret (Continue (to_int (i + 1))).

Definition test_4kb_boundary_crossing : M unit :=
  uart_puts_safe (lit ("=== Testing 4KB Boundary Crossing ===" +:+ NL));;
  uart_puts_safe (lit "Short string addr: ");;
  print_hex_addr (to_uint (lit test_string_short));;
  uart_puts_safe (lit (" = " +:+ DQ));;
  uart_puts_safe (lit test_string_short);;
  uart_puts_safe (lit (DQ +:+ NL));;
  uart_puts_safe (lit "Medium string addr: ");;
  print_hex_addr (to_uint (lit test_string_medium));;
  uart_puts_safe (lit (" = " +:+ DQ));;
  uart_puts_safe (lit test_string_medium);;
  uart_puts_safe (lit (DQ +:+ NL));;
  uart_puts_safe (lit "Long string addr: ");;
  print_hex_addr (to_uint (lit test_string_long));;
  uart_puts_safe (lit (" = " +:+ DQ));;
  uart_puts_safe (lit test_string_long);;
  uart_puts_safe (lit (DQ +:+ NL));;
  uart_puts_safe (lit (NL +:+ "=== Byte-by-byte Analysis ===" +:+ NL));;
  uart_puts_safe (lit "Long string bytes: [");;
  _ ← while analysis_cond analysis_body 0;
  uart_puts_safe (lit ("]" +:+ NL)).

(** The body of the probe loop, with its [offset += 4]. *)
Definition probe_body (offset : Z) : M (ctl Z) :=
  uart_puts_safe (lit "Offset ");;
  put_probe_offset uart_putc offset;;
  uart_puts_safe (lit ": ");;
  test_byte ← load (base_ptr + offset);
  uart_putc (chr "0" + Z.land test_byte 0xF);;
  uart_puts_safe (lit " ");;
  (if to_int (offset + 4) `rem` 4096 =? 0 then uart_puts_safe (lit "| 4KB boundary |")
   else mret tt);;
  uart_puts_safe (lit NL);;
  mret (Continue (to_int (offset + 4))).

Definition test_capdl_frame_pattern : M unit :=
  uart_puts_safe (lit (NL +:+ "=== Testing CapDL Frame Pattern ===" +:+ NL));;
  uart_puts_safe (lit ("Based on vm_minimal.cdl analysis:" +:+ NL));;
  uart_puts_safe (lit ("- First 8 frames: 4KB each (32768->40960 offset)" +:+ NL));;
  uart_puts_safe (lit ("- Later frames: 64KB each" +:+ NL));;
  uart_puts_safe (lit ("- String likely in early 4KB frames" +:+ NL +:+ NL));;
  uart_puts_safe (lit ("Memory probe test:" +:+ NL));;
  _ ← while (λ offset, mret (offset <? 32)) probe_body 0;
  mret tt.

(** One round of the loop of [main], from the value of [iteration] before
    the round to its value after. *)
Definition main_iteration (iteration : Z) : M Z :=
  let iteration := to_int (iteration + 1) in
  uart_puts_safe (lit (NL +:+ "Iteration "));;
  uart_putc (chr "0" + iteration `rem` 10);;
  uart_puts_safe (lit ": ");;
  uart_puts_safe (lit "OK");;
  busy_wait 5000000;;
  mret iteration.

Definition main : M unit :=
  uart_puts_safe (lit ("=== seL4 Capability Boundary Test ===" +:+ NL));;
  uart_puts_safe (lit ("Testing memory fragmentation hypothesis" +:+ NL));;
  uart_puts_safe (lit ("Based on CapDL spec: vm_minimal.cdl" +:+ NL +:+ NL));;
  test_4kb_boundary_crossing;;
  test_capdl_frame_pattern;;
  uart_puts_safe (lit (NL +:+ "=== Test Complete ===" +:+ NL));;
  uart_puts_safe (lit ("If string access fails mid-way, confirms" +:+ NL));;
  uart_puts_safe (lit ("capability boundary crossing issue." +:+ NL));;
  _ ← while (λ _, mret true)
            (λ iteration, iteration ← main_iteration iteration;
                          mret (Continue iteration))
            0;
  mret tt.

(** ** What the program reads

    The two boundary markers are not among the literals: the theorems below
    hold although nothing is assumed of the memory at their addresses. *)

Definition crossing_literals : list string :=
  [ "=== Testing 4KB Boundary Crossing ===" +:+ NL;
    "Short string addr: "; "Medium string addr: "; "Long string addr: ";
    "0x"; " = " +:+ DQ; DQ +:+ NL;
    test_string_short; test_string_medium; test_string_long;
    NL +:+ "=== Byte-by-byte Analysis ===" +:+ NL; "Long string bytes: [";
    NL +:+ "Offset "; ": "; "]" +:+ NL ].

Definition pattern_literals : list string :=
  [ NL +:+ "=== Testing CapDL Frame Pattern ===" +:+ NL;
    "Based on vm_minimal.cdl analysis:" +:+ NL;
    "- First 8 frames: 4KB each (32768->40960 offset)" +:+ NL;
    "- Later frames: 64KB each" +:+ NL;
    "- String likely in early 4KB frames" +:+ NL +:+ NL;
    "Memory probe test:" +:+ NL;
    "Offset "; ": "; " "; NL ].

Definition main_literals : list string :=
  [ "=== seL4 Capability Boundary Test ===" +:+ NL;
    "Testing memory fragmentation hypothesis" +:+ NL;
    "Based on CapDL spec: vm_minimal.cdl" +:+ NL +:+ NL;
    NL +:+ "=== Test Complete ===" +:+ NL;
    "If string access fails mid-way, confirms" +:+ NL;
    "capability boundary crossing issue." +:+ NL;
    NL +:+ "Iteration "; ": "; "OK" ] ++ crossing_literals ++ pattern_literals.

(** ** What the program sends *)

(** The address of a static array as [print_hex_addr] shows it. *)
Definition addr_chars (l : string) : list Z := cstr "0x" ++ hex8 (to_uint (lit l)).

(** The line of [test_4kb_boundary_crossing] for one static array. *)
Definition string_line (name l : string) : list Z :=
  cstr name ++ addr_chars l ++ cstr (" = " +:+ DQ) ++ cstr l ++ cstr (DQ +:+ NL).

(** The offset label before the byte of index [i]. *)
Definition label_chars (i : Z) : list Z :=
  if i `rem` 16 =? 0 then cstr (NL +:+ "Offset ") ++ byte_offset_chars i ++ cstr ": "
  else [].

(** The bytes [bs], the first of which has index [i], with their labels. *)
Fixpoint with_labels (i : Z) (bs : list Z) : list Z :=
  match bs with
  | [] => []
  | b :: bs' => label_chars i ++ b :: with_labels (i + 1) bs'
  end.

Definition crossing_chars : list Z :=
  cstr ("=== Testing 4KB Boundary Crossing ===" +:+ NL) ++
  string_line "Short string addr: " test_string_short ++
  string_line "Medium string addr: " test_string_medium ++
  string_line "Long string addr: " test_string_long ++
  cstr (NL +:+ "=== Byte-by-byte Analysis ===" +:+ NL) ++
  cstr "Long string bytes: [" ++
  with_labels 0 (take 100 (cstr test_string_long)) ++
  cstr ("]" +:+ NL).

(** The reference for the probe: the bytes read at [offset], [offset + 4],
    ... in [n] steps at most, and the offset of the read that traps, if one
    does. *)
Fixpoint probe_walk (μ : gmap Z Z) (offset : Z) (n : nat) : list Z * option Z :=
  match n with
  | O => ([], None)
  | S n' =>
      match μ !! (base_ptr + offset) with
      | None => ([], Some offset)
      | Some v => let '(vs, t) := probe_walk μ (offset + 4) n' in (v :: vs, t)
      end
  end.

(** What a line of the probe shows before the read. *)
Definition probe_head (offset : Z) : list Z :=
  cstr "Offset " ++ probe_offset_chars offset ++ cstr ": ".

(** What the probe shows of the byte read. *)
Definition probe_digit (test_byte : Z) : Z := chr "0" + Z.land test_byte 0xF.

(** The lines of the probe from [offset] on for the walk [(vs, t)]. *)
Fixpoint probe_chars (offset : Z) (vs : list Z) (t : option Z) : list Z :=
  match vs with
  | [] => match t with Some _ => probe_head offset | None => [] end
  | v :: vs' =>
      probe_head offset ++ [probe_digit v] ++ cstr " " ++ cstr NL ++
      probe_chars (offset + 4) vs' t
  end.

Definition pattern_head : list Z :=
  cstr (NL +:+ "=== Testing CapDL Frame Pattern ===" +:+ NL) ++
  cstr ("Based on vm_minimal.cdl analysis:" +:+ NL) ++
  cstr ("- First 8 frames: 4KB each (32768->40960 offset)" +:+ NL) ++
  cstr ("- Later frames: 64KB each" +:+ NL) ++
  cstr ("- String likely in early 4KB frames" +:+ NL +:+ NL) ++
  cstr ("Memory probe test:" +:+ NL).

(** What [test_capdl_frame_pattern] sends on the memory [μ]. *)
Definition pattern_chars (μ : gmap Z Z) : list Z :=
  pattern_head ++ probe_chars 0 (probe_walk μ 0 8).1 (probe_walk μ 0 8).2.

(** What [main] sends before the tests and between the tests and the loop. *)
Definition banner_chars : list Z :=
  cstr ("=== seL4 Capability Boundary Test ===" +:+ NL) ++
  cstr ("Testing memory fragmentation hypothesis" +:+ NL) ++
  cstr ("Based on CapDL spec: vm_minimal.cdl" +:+ NL +:+ NL).

Definition complete_chars : list Z :=
  cstr (NL +:+ "=== Test Complete ===" +:+ NL) ++
  cstr ("If string access fails mid-way, confirms" +:+ NL) ++
  cstr ("capability boundary crossing issue." +:+ NL).

(** What the round numbered [k], from 1, sends as long as the counter has
    not overflowed. *)
Definition round_chars (k : Z) : list Z :=
  cstr (NL +:+ "Iteration ") ++ [chr "0" + k `mod` 10] ++ cstr ": " ++ cstr "OK".

(** What the [n] rounds that follow [iteration] rounds send. *)
Fixpoint rounds_chars (iteration : Z) (n : nat) : list Z :=
  match n with
  | O => []
  | S n' =>
      cstr (NL +:+ "Iteration ") ++
      [to_char (chr "0" + to_int (iteration + 1) `rem` 10)] ++ cstr ": " ++ cstr "OK" ++
      rounds_chars (to_int (iteration + 1)) n'
  end.

End boundaries.

(** ** A concrete machine

    The literals of the program laid out from 0x40001000, and the first 32
    bytes of guest RAM holding the values 0x10, 0x11, ..., 0x2F. *)

Definition tb_tbl : list (string * Z) :=
  Eval vm_compute in layout 0x40001000 main_literals.

Definition tb_lit : string → Z := lit_at tb_tbl.

Definition tb_machine : machine :=
  Machine (place base_ptr (seqZ 0x10 32) (image tb_tbl ∅)) [] 0.

(** The same with guest RAM mapped for 10 bytes only: the probe at offset
    12 traps. *)
Definition tb_short_machine : machine :=
  Machine (place base_ptr (seqZ 0x10 10) (image tb_tbl ∅)) [] 0.

(** The bytes the probe finds on [tb_machine]; on [tb_short_machine] it
    finds the first three. *)
Definition tb_probed : list Z := [0x10; 0x14; 0x18; 0x1C; 0x20; 0x24; 0x28; 0x2C].

(** * Lemmas *)

(** ** The driver is the driver of the other programs *)

Lemma tb_putc_eq : uart_putc = Uart.uart_putc.
Proof. reflexivity. Qed.

Lemma tb_puts_eq : uart_puts_safe = Uart.uart_puts_safe.
Proof. reflexivity. Qed.

#[export] Instance tb_putc_driver : UartDriver uart_putc.
Proof. rewrite tb_putc_eq. apply _. Qed.

(** The lemmas of the shared driver apply to this program's copy. *)
Ltac tb_shared :=
  change uart_puts_safe with Uart.uart_puts_safe in *;
  change uart_putc with Uart.uart_putc in *.

Section tb_spec.
Context (lit : string → Z).
Implicit Types (m : machine) (μ : gmap Z Z).

(** ** The markers never fire *)

Lemma crossing_marker_off i :
  0 ≤ i < 100 → (to_int (i + 1) `rem` 4096 =? 0) = false.
Proof.
  intros Hi. rewrite to_int_small, rem_nonneg, Z.mod_small by lia.
  apply Z.eqb_neq. lia.
Qed.

Lemma probe_marker_off offset :
  0 ≤ offset < 32 → (to_int (offset + 4) `rem` 4096 =? 0) = false.
Proof.
  intros Hi. rewrite to_int_small, rem_nonneg, Z.mod_small by lia.
  apply Z.eqb_neq. lia.
Qed.

(** ** Addresses *)

Lemma sends_print_hex_addr addr fuel m :
  rodata_ok lit crossing_literals (mem m) → 10000 < Z.of_nat fuel →
  sends (print_hex_addr lit addr) fuel m tt (cstr "0x" ++ hex8 addr) 0 (mem m).
Proof.
  intros Hro Hf. unfold print_hex_addr. tb_shared. eapply sends_eq.
  { sends_step ltac:(sends_lit lit crossing_literals).
    by apply sends_put_hex32; [apply _|]. }
  - done.
  - done.
Qed.

(** ** The byte-by-byte analysis *)

Lemma sends_label i fuel m :
  rodata_ok lit crossing_literals (mem m) → 0 ≤ i < 100 → 10000 < Z.of_nat fuel →
  sends (if i `rem` 16 =? 0 then
           Uart.uart_puts_safe (lit (NL +:+ "Offset "));;
           put_byte_offset Uart.uart_putc i;;
           Uart.uart_puts_safe (lit ": ")
         else mret tt) fuel m tt (label_chars i) 0 (mem m).
Proof.
  intros Hro Hi Hf. unfold label_chars.
  destruct (i `rem` 16 =? 0); [|apply sends_ret].
  eapply sends_eq.
  { sends_step ltac:(sends_lit lit crossing_literals).
    sends_step ltac:(by apply sends_put_byte_offset; [apply _|]).
    sends_lit lit crossing_literals. }
  - by rewrite fmap_to_char_bytes by by apply byte_offset_chars_bytes.
  - done.
Qed.

(** The byte of index [j] of the long string, as memory holds it. *)
Lemma long_byte (j : nat) μ :
  rodata_ok lit crossing_literals μ → (j < 100)%nat →
  ∃ b, cstr test_string_long !! j = Some b ∧
       μ !! (lit test_string_long + Z.of_nat j) = Some b ∧ 0 < b < 256.
Proof.
  intros Hro Hj.
  pose proof (rodata_ok_lookup _ _ _ test_string_long Hro ltac:(lit_side)) as Hs.
  destruct (lookup_lt_is_Some_2 (cstr test_string_long) j) as [b Hb].
  { rewrite cstr_length. apply Nat2Z.inj_lt. vm_compute String.length. lia. }
  exists b. split; [done|]. split; [by eapply cstring_at_lookup|].
  pose proof (Forall_lookup_1 _ _ _ _ (cstr_range test_string_long) Hb) as Hr.
  destruct Hs as [_ Hz]. pose proof (Forall_lookup_1 _ _ _ _ Hz Hb). cbn in *. lia.
Qed.

Lemma analysis_loop (n k : nat) fuel m :
  (n ≤ 100)%nat → (n < k)%nat → 10000 < Z.of_nat fuel →
  rodata_ok lit crossing_literals (mem m) →
  sends (while_fix k (analysis_cond lit) (analysis_body lit) (100 - Z.of_nat n))
    fuel m 100
    (with_labels (100 - Z.of_nat n) (take n (drop (100 - n) (cstr test_string_long))))
    0 (mem m).
Proof.
  intros Hn Hk Hf. revert k m Hk.
  induction n as [|n IH]; intros k m Hk Hro; (destruct k as [|k]; [lia|]).
  { apply sends_while_exit. unfold analysis_cond. cbn. apply sends_ret. }
  destruct (long_byte (100 - S n) (mem m) Hro ltac:(lia)) as (b & Hb & Hmb & Hb0).
  replace (Z.of_nat (100 - S n)) with (100 - Z.of_nat (S n)) in Hmb by lia.
  rewrite (drop_S _ b _ Hb). replace (S (100 - S n)) with (100 - n)%nat by lia.
  cbn [take with_labels].
  eapply sends_eq;
    [eapply sends_while_step
       with (s' := 100 - Z.of_nat n) (μ1 := mem m) (μ2 := mem m)|..].
  - unfold analysis_cond.
    destruct (100 - Z.of_nat (S n) <? 100) eqn:E; zbool.
    sends_step ltac:(by apply sends_load).
    apply sends_ret_eq. by destruct (b =? 0) eqn:E0; zbool.
  - intros m1 Hm1. rewrite <- ?Hm1 in *. clear Hm1.
    unfold analysis_body. tb_shared. rewrite crossing_marker_off by lia.
    sends_step ltac:(apply sends_label; done || lia).
    sends_step ltac:(by apply sends_load).
    sends_step ltac:(by apply sends_putc; [apply _|]).
    sends_step ltac:(apply sends_ret).
    apply sends_ret_eq. rewrite to_int_small by lia. f_equal. lia.
  - intros m2 Hm2. rewrite <- ?Hm2 in *. clear Hm2. apply IH; [lia..|done].
  - cbn [app]. rewrite <- app_assoc. cbn [app]. rewrite to_char_small by lia.
    do 3 f_equal. lia.
  - lia.
Qed.

Lemma sends_crossing fuel m :
  rodata_ok lit crossing_literals (mem m) → 10000 < Z.of_nat fuel →
  sends (test_4kb_boundary_crossing lit) fuel m tt (crossing_chars lit) 0 (mem m).
Proof.
  intros Hro Hf. unfold test_4kb_boundary_crossing, crossing_chars, string_line, addr_chars.
  tb_shared. eapply sends_eq.
  { sends_step ltac:(sends_lit lit crossing_literals).
    do 3 (sends_step ltac:(sends_lit lit crossing_literals);
          sends_step ltac:(by apply sends_print_hex_addr);
          sends_step ltac:(sends_lit lit crossing_literals);
          sends_step ltac:(sends_lit lit crossing_literals);
          sends_step ltac:(sends_lit lit crossing_literals)).
    sends_step ltac:(sends_lit lit crossing_literals).
    sends_step ltac:(sends_lit lit crossing_literals).
    sends_step ltac:(apply sends_while;
                     apply (analysis_loop 100 fuel fuel); [lia|lia|done|done]).
    sends_lit lit crossing_literals. }
  - by rewrite <- !app_assoc.
  - done.
Qed.

(** ** The probe *)

Lemma probe_walk_S μ offset n :
  probe_walk μ offset (S n) =
  match μ !! (base_ptr + offset) with
  | None => ([], Some offset)
  | Some v => (v :: (probe_walk μ (offset + 4) n).1, (probe_walk μ (offset + 4) n).2)
  end.
Proof. cbn [probe_walk]. repeat case_match; simplify_eq/=; done. Qed.

Lemma probe_walk_length μ offset n : (length (probe_walk μ offset n).1 ≤ n)%nat.
Proof.
  revert offset. induction n as [|n IH]; intros offset; [done|].
  rewrite probe_walk_S. case_match; cbn; [|lia]. specialize (IH (offset + 4)). lia.
Qed.

(** A walk that has read all its addresses has not trapped. *)
Lemma probe_walk_full μ offset n :
  length (probe_walk μ offset n).1 = n → (probe_walk μ offset n).2 = None.
Proof.
  revert offset. induction n as [|n IH]; intros offset; [done|].
  rewrite probe_walk_S. case_match; cbn [fst snd length]; [|done].
  intros Hl. apply IH. lia.
Qed.

(** A walk that traps names the first unmapped address among those it
    probes. *)
Lemma probe_walk_trap μ offset n o :
  (probe_walk μ offset n).2 = Some o →
  o = offset + 4 * Z.of_nat (length (probe_walk μ offset n).1) ∧
  μ !! (base_ptr + o) = None.
Proof.
  revert offset. induction n as [|n IH]; intros offset; [done|].
  rewrite probe_walk_S. case_match eqn:E; cbn [fst snd length].
  - intros Ht. destruct (IH _ Ht) as [-> Hu]. split; [lia|done].
  - intros [= <-]. split; [lia|done].
Qed.

(** A walk over mapped memory reads every address it probes. *)
Lemma probe_walk_mapped μ offset n vs :
  Forall2 (λ k v, μ !! (base_ptr + offset + 4 * Z.of_nat k) = Some v) (seq 0 n) vs →
  probe_walk μ offset n = (vs, None).
Proof.
  revert offset vs. induction n as [|n IH]; intros offset vs Hvs.
  { by apply Forall2_nil_inv_l in Hvs as ->. }
  rewrite probe_walk_S. cbn [seq] in Hvs.
  apply Forall2_cons_inv_l in Hvs as (v & vs' & Hv & Hvs & ->).
  replace (base_ptr + offset + 4 * Z.of_nat 0) with (base_ptr + offset) in Hv by lia.
  rewrite Hv, (IH (offset + 4) vs'); [done|].
  rewrite <- seq_shift in Hvs. apply Forall2_fmap_l in Hvs.
  eapply Forall2_impl; [done|]. cbn. intros k v' <-. f_equal. lia.
Qed.

Lemma probe_digit_range v : chr "0" ≤ probe_digit v < chr "0" + 16.
Proof. unfold probe_digit. pose proof (land_15_range v). lia. Qed.

(** The rest of the line once the read has returned [v]. *)
Lemma sends_probe_tail offset v fuel m :
  rodata_ok lit pattern_literals (mem m) → 0 ≤ offset < 32 → 10000 < Z.of_nat fuel →
  sends (Uart.uart_putc (chr "0" + Z.land v 0xF);;
         Uart.uart_puts_safe (lit " ");;
         (if to_int (offset + 4) `rem` 4096 =? 0
          then Uart.uart_puts_safe (lit "| 4KB boundary |") else mret tt);;
         Uart.uart_puts_safe (lit NL);;
         mret (Continue (to_int (offset + 4))))
    fuel m (Continue (offset + 4)) ([probe_digit v] ++ cstr " " ++ cstr NL) 0 (mem m).
Proof.
  intros Hro Ho Hf. rewrite probe_marker_off by done. eapply sends_eq.
  { sends_step ltac:(by apply sends_putc; [apply _|]).
    sends_step ltac:(sends_lit lit pattern_literals).
    sends_step ltac:(apply sends_ret).
    sends_step ltac:(sends_lit lit pattern_literals).
    apply sends_ret_eq. by rewrite to_int_small by lia. }
  - pose proof (probe_digit_range v). fold (probe_digit v).
    rewrite to_char_small by (vm_compute chr in *; lia). done.
  - done.
Qed.

(** A round of the probe whose read returns [v]. *)
Lemma sends_probe_body offset v fuel m :
  rodata_ok lit pattern_literals (mem m) → 0 ≤ offset < 32 → 10000 < Z.of_nat fuel →
  mem m !! (base_ptr + offset) = Some v →
  sends (probe_body lit offset) fuel m (Continue (offset + 4))
    (probe_head offset ++ [probe_digit v] ++ cstr " " ++ cstr NL) 0 (mem m).
Proof.
  intros Hro Ho Hf Hv. unfold probe_body, probe_head. tb_shared. eapply sends_eq.
  { sends_step ltac:(sends_lit lit pattern_literals).
    sends_step ltac:(by apply sends_put_probe_offset; [apply _|]).
    sends_step ltac:(sends_lit lit pattern_literals).
    sends_step ltac:(by apply sends_load).
    by apply sends_probe_tail. }
  - rewrite fmap_to_char_bytes by (apply probe_offset_chars_bytes; lia).
    by rewrite <- !app_assoc.
  - done.
Qed.

(** A round of the probe whose read traps: the line stops after its
    label. *)
Lemma stops_probe_body offset fuel m :
  rodata_ok lit pattern_literals (mem m) → 0 ≤ offset < 32 → 10000 < Z.of_nat fuel →
  mem m !! (base_ptr + offset) = None →
  stops (probe_body lit offset) fuel m (Trapped (base_ptr + offset))
    (probe_head offset) 0 (mem m).
Proof.
  intros Hro Ho Hf Hv. unfold probe_body, probe_head. tb_shared. eapply stops_eq.
  { stops_step ltac:(sends_lit lit pattern_literals).
    stops_step ltac:(by apply sends_put_probe_offset; [apply _|]).
    stops_step ltac:(sends_lit lit pattern_literals).
    apply stops_bind_l. by apply stops_load_trap. }
  - rewrite fmap_to_char_bytes by (apply probe_offset_chars_bytes; lia).
    by rewrite app_nil_r.
  - done.
Qed.

(** The probe loop with [n] rounds to go does what [probe_walk] says: it
    returns after the lines of the bytes read, or traps at the first unmapped
    address after the label of its line. *)
Lemma probe_loop (n k : nat) fuel m :
  (n ≤ 8)%nat → (n < k)%nat → 10000 < Z.of_nat fuel →
  rodata_ok lit pattern_literals (mem m) →
  let offset := 32 - 4 * Z.of_nat n in
  let r := probe_walk (mem m) offset n in
  match r.2 with
  | None =>
      sends (while_fix k (λ offset, mret (offset <? 32)) (probe_body lit) offset)
        fuel m 32 (probe_chars offset r.1 None) 0 (mem m)
  | Some o =>
      stops (while_fix k (λ offset, mret (offset <? 32)) (probe_body lit) offset)
        fuel m (Trapped (base_ptr + o)) (probe_chars offset r.1 (Some o)) 0 (mem m)
  end.
Proof.
  intros Hn Hk Hf. revert k m Hk.
  induction n as [|n IH]; intros k m Hk Hro; (destruct k as [|k]; [lia|]); cbn zeta.
  { apply sends_while_exit. cbn. apply sends_ret. }
  remember (32 - 4 * Z.of_nat (S n)) as offset eqn:Ho.
  assert (offset + 4 = 32 - 4 * Z.of_nat n) as Hnext by lia.
  assert (sends (mret (offset <? 32)) fuel m true [] 0 (mem m)) as Hcond.
  { apply sends_ret_eq. apply Z.ltb_lt. lia. }
  rewrite probe_walk_S, Hnext.
  destruct (mem m !! (base_ptr + offset)) as [v|] eqn:Ev; cbn [fst snd probe_chars].
  2:{ eapply stops_eq; [eapply stops_while_body with (μ1 := mem m)|..].
      - exact Hcond.
      - intros m1 Hm1. rewrite <- ?Hm1 in *. clear Hm1.
        apply stops_probe_body; done || lia.
      - done.
      - done. }
  specialize (IH ltac:(lia) k).
  destruct (probe_walk (mem m) (32 - 4 * Z.of_nat n) n).2 as [o|] eqn:Et.
  - eapply stops_eq;
      [eapply stops_while_step with (s' := offset + 4) (μ1 := mem m) (μ2 := mem m)|..].
    + exact Hcond.
    + intros m1 Hm1. rewrite <- ?Hm1 in *. clear Hm1.
      apply sends_probe_body; done || lia.
    + intros m2 Hm2. rewrite Hnext. specialize (IH m2 ltac:(lia)).
      cbn zeta in IH. rewrite Hm2, Et in IH. by apply IH.
    + cbn [app]. by rewrite <- !app_assoc, Hnext.
    + done.
  - eapply sends_eq;
      [eapply sends_while_step with (s' := offset + 4) (μ1 := mem m) (μ2 := mem m)|..].
    + exact Hcond.
    + intros m1 Hm1. rewrite <- ?Hm1 in *. clear Hm1.
      apply sends_probe_body; done || lia.
    + intros m2 Hm2. rewrite Hnext. specialize (IH m2 ltac:(lia)).
      cbn zeta in IH. rewrite Hm2, Et in IH. by apply IH.
    + cbn [app]. by rewrite <- !app_assoc, Hnext.
    + done.
Qed.

(** The whole probe loop on a memory whose walk is [(vs, t)]. *)
Lemma probe_run fuel m vs t :
  rodata_ok lit pattern_literals (mem m) → 10000 < Z.of_nat fuel →
  probe_walk (mem m) 0 8 = (vs, t) →
  match t with
  | None =>
      sends (while (λ offset, mret (offset <? 32)) (probe_body lit) 0)
        fuel m 32 (probe_chars 0 vs None) 0 (mem m)
  | Some o =>
      stops (while (λ offset, mret (offset <? 32)) (probe_body lit) 0)
        fuel m (Trapped (base_ptr + o)) (probe_chars 0 vs (Some o)) 0 (mem m)
  end.
Proof.
  intros Hro Hf Hw.
  pose proof (probe_loop 8 fuel fuel m ltac:(lia) ltac:(lia) Hf Hro) as Hloop.
  cbn zeta in Hloop. change (32 - 4 * Z.of_nat 8) with 0 in Hloop.
  rewrite Hw in Hloop. cbn [fst snd] in Hloop.
  destruct t; [by apply stops_while|by apply sends_while].
Qed.

(** [test_capdl_frame_pattern] does what [probe_walk] says. *)
Lemma pattern_run fuel m :
  rodata_ok lit pattern_literals (mem m) → 10000 < Z.of_nat fuel →
  match (probe_walk (mem m) 0 8).2 with
  | None =>
      sends (test_capdl_frame_pattern lit) fuel m tt (pattern_chars (mem m)) 0 (mem m)
  | Some o =>
      stops (test_capdl_frame_pattern lit) fuel m (Trapped (base_ptr + o))
        (pattern_chars (mem m)) 0 (mem m)
  end.
Proof.
  intros Hro Hf.
  unfold test_capdl_frame_pattern, pattern_chars, pattern_head. tb_shared.
  destruct (probe_walk (mem m) 0 8) as [vs [o|]] eqn:Hw; cbn [fst snd] in *.
  - eapply stops_eq.
    { do 6 stops_step ltac:(sends_lit lit pattern_literals).
      apply stops_bind_l. by apply (probe_run _ _ vs (Some o)). }
    + by rewrite <- !app_assoc.
    + done.
  - eapply sends_eq.
    { do 6 sends_step ltac:(sends_lit lit pattern_literals).
      sends_step ltac:(by apply (probe_run _ _ vs None)). apply sends_ret. }
    + by rewrite <- !app_assoc, app_nil_r.
    + done.
Qed.

(** ** The periodic loop *)

Lemma sends_tb_iteration iteration fuel m :
  rodata_ok lit main_literals (mem m) → 5000000 < Z.of_nat fuel →
  sends (main_iteration lit iteration) fuel m (to_int (iteration + 1))
    (cstr (NL +:+ "Iteration ") ++
     [to_char (chr "0" + to_int (iteration + 1) `rem` 10)] ++ cstr ": " ++ cstr "OK")
    5000000 (mem m).
Proof.
  intros Hro Hf. unfold main_iteration. cbn zeta. tb_shared. eapply sends_eq.
  { sends_step ltac:(sends_lit lit main_literals).
    sends_step ltac:(apply sends_putc; [apply _|unfold SETTLE; lia]).
    sends_step ltac:(sends_lit lit main_literals).
    sends_step ltac:(sends_lit lit main_literals).
    sends_step ltac:(apply sends_busy_wait; lia).
    apply sends_ret. }
  - by rewrite app_nil_r.
  - lia.
Qed.

Lemma tb_loop_stops (k : nat) iteration fuel m :
  rodata_ok lit main_literals (mem m) → 5000000 < Z.of_nat fuel →
  stops (while_fix k (λ _, mret true)
           (λ iteration, iteration ← main_iteration lit iteration;
                         mret (Continue iteration))
           iteration) fuel m OutOfFuel
    (rounds_chars iteration k) (5000000 * Z.of_nat k) (mem m).
Proof.
  intros Hro Hf. revert iteration m Hro.
  induction k as [|k IH]; intros iteration m Hro.
  { eapply stops_eq; [apply stops_while_fuel|done|lia]. }
  eapply stops_eq;
    [eapply stops_while_step
       with (s' := to_int (iteration + 1)) (μ1 := mem m) (μ2 := mem m)|..].
  - apply sends_ret.
  - intros m1 Hm1. rewrite <- ?Hm1 in *. clear Hm1.
    sends_step ltac:(by apply sends_tb_iteration). apply sends_ret.
  - intros m2 Hm2. rewrite <- ?Hm2 in *. clear Hm2. by apply IH.
  - cbn [app rounds_chars]. by rewrite <- !app_assoc.
  - lia.
Qed.

Lemma tb_rounds_chars_seq iteration (n : nat) :
  0 ≤ iteration → iteration + Z.of_nat n < 2 ^ 31 →
  rounds_chars iteration n = seqZ (iteration + 1) (Z.of_nat n) ≫= round_chars.
Proof.
  revert iteration. induction n as [|n IH]; intros iteration Hi Hn; [done|].
  cbn [rounds_chars]. rewrite seqZ_cons by lia. cbn [mbind list_bind].
  rewrite to_int_small, IH, rem_nonneg by lia. unfold round_chars.
  rewrite to_char_small by (vm_compute chr; lia_mod).
  rewrite <- !app_assoc. do 5 f_equal. f_equal; lia.
Qed.

(** [main] runs the two tests and, when the probe has returned, its loop
    for as many rounds as the budget has. *)
Lemma tb_main_stops fuel m :
  rodata_ok lit main_literals (mem m) → 5000000 < Z.of_nat fuel →
  match (probe_walk (mem m) 0 8).2 with
  | None =>
      stops (main lit) fuel m OutOfFuel
        (banner_chars ++ crossing_chars lit ++ pattern_chars (mem m) ++
         complete_chars ++ rounds_chars 0 fuel)
        (5000000 * Z.of_nat fuel) (mem m)
  | Some o =>
      stops (main lit) fuel m (Trapped (base_ptr + o))
        (banner_chars ++ crossing_chars lit ++ pattern_chars (mem m)) 0 (mem m)
  end.
Proof.
  intros Hro Hf.
  apply rodata_ok_app in Hro as Hro'. destruct Hro' as [_ Hro'].
  apply rodata_ok_app in Hro' as [Hcross Hpat].
  remember (pattern_chars (mem m)) as pc eqn:Hpc.
  unfold main, banner_chars, complete_chars. tb_shared.
  destruct (probe_walk (mem m) 0 8).2 as [o|] eqn:Et.
  - eapply stops_eq.
    { do 3 stops_step ltac:(sends_lit lit main_literals).
      stops_step ltac:(apply sends_crossing; done || lia).
      apply stops_bind_l.
      match goal with |- stops _ _ ?m1 _ _ _ _ =>
        pose proof (pattern_run fuel m1 Hpat ltac:(lia)) as Hrun end.
      rewrite Et, <- Hpc in Hrun. exact Hrun. }
    + by rewrite <- !app_assoc.
    + done.
  - eapply stops_eq.
    { do 3 stops_step ltac:(sends_lit lit main_literals).
      stops_step ltac:(apply sends_crossing; done || lia).
      stops_step ltac:(
        match goal with |- sends _ _ ?m1 _ _ _ _ =>
          pose proof (pattern_run fuel m1 Hpat ltac:(lia)) as Hrun end;
        rewrite Et, <- Hpc in Hrun; exact Hrun).
      do 3 stops_step ltac:(sends_lit lit main_literals).
      apply stops_bind_l, stops_while. by apply tb_loop_stops. }
    + by rewrite <- !app_assoc.
    + lia.
Qed.

(** A walk that meets unmapped memory after [length vs] mapped addresses. *)
Lemma probe_walk_unmapped μ offset n vs :
  Forall2 (λ k v, μ !! (base_ptr + offset + 4 * Z.of_nat k) = Some v)
    (seq 0 (length vs)) vs →
  (length vs < n)%nat →
  μ !! (base_ptr + offset + 4 * Z.of_nat (length vs)) = None →
  probe_walk μ offset n = (vs, Some (offset + 4 * Z.of_nat (length vs))).
Proof.
  revert offset n. induction vs as [|v vs IH]; intros offset n Hvs Hn Hu;
    (destruct n as [|n]; [cbn in Hn; lia|]); rewrite probe_walk_S.
  { cbn in Hu. rewrite Z.add_0_r in *. by rewrite Hu. }
  cbn [length seq] in Hvs. apply Forall2_cons_1 in Hvs as [Hv Hvs].
  replace (base_ptr + offset + 4 * Z.of_nat 0) with (base_ptr + offset) in Hv by lia.
  rewrite Hv, (IH (offset + 4) n).
  - cbn [fst snd length]. do 2 f_equal. lia.
  - rewrite <- seq_shift in Hvs. apply Forall2_fmap_l in Hvs.
    eapply Forall2_impl; [done|]. cbn. intros k v' <-. f_equal. lia.
  - cbn in Hn. lia.
  - rewrite <- Hu. cbn [length]. f_equal. lia.
Qed.

End tb_spec.

(** * Theorems *)

Section tb_theorems.
Context (lit : string → Z).
Implicit Types (m : machine) (vs : list Z).

(** C33: [print_hex_addr] returns after sending [0x] and eight upper-case
    hexadecimal digits that read back as the address modulo 2^32. *)
Theorem print_hex_addr_run addr fuel m :
  rodata_ok lit crossing_literals (mem m) → 10000 < Z.of_nat fuel →
  ∃ m' digits, run (print_hex_addr lit addr) fuel m = (Done tt, m') ∧
               uart_output (trace m') = uart_output (trace m) ++ cstr "0x" ++ digits ∧
               length digits = 8%nat ∧
               parse_hex digits = Some (addr `mod` 2 ^ 32).
Proof.
  intros Hro Hf.
  destruct (sends_output _ _ _ _ _ _ _ (sends_print_hex_addr lit addr fuel m Hro Hf))
    as (m' & Hrun & _ & Hout & _).
  exists m', (hex8 addr). repeat split; first [done | apply parse_hex_hex8].
Qed.

(** C10: the byte-by-byte analysis sends the first 100 bytes of the long
    string, every sixteenth led by a line feed and its offset in decimal, and
    returns with the index at 100.  It sends 185 characters and no [|] among
    them: the marker for a 4KB boundary is never written, and nothing is
    assumed of the memory that holds its text. *)
Theorem analysis_run fuel m :
  rodata_ok lit crossing_literals (mem m) → 10000 < Z.of_nat fuel →
  ∃ m', run (while (analysis_cond lit) (analysis_body lit) 0) fuel m = (Done 100, m') ∧
        mem m' = mem m ∧
        uart_output (trace m')
        = uart_output (trace m) ++ with_labels 0 (take 100 (cstr test_string_long)) ∧
        length (with_labels 0 (take 100 (cstr test_string_long))) = 185%nat ∧
        chr "|" ∉ with_labels 0 (take 100 (cstr test_string_long)).
Proof.
  intros Hro Hf.
  pose proof (analysis_loop lit 100 fuel fuel m ltac:(lia) ltac:(lia) Hf Hro) as Hs.
  change (sends (while_fix fuel (analysis_cond lit) (analysis_body lit) 0) fuel m 100
            (with_labels 0 (take 100 (cstr test_string_long))) 0 (mem m)) in Hs.
  apply sends_while in Hs.
  destruct (sends_output _ _ _ _ _ _ _ Hs) as (m' & Hrun & Hmem & Hout & _).
  exists m'. repeat split; first [done | by_compute].
Qed.

(** C27: with its literals and the three static arrays mapped,
    [test_4kb_boundary_crossing] returns after sending a line for each array,
    with its address and its text, and the analysis of the long one; memory
    is unchanged and each character costs 10000 iterations. *)
Theorem test_4kb_boundary_crossing_run fuel m :
  rodata_ok lit crossing_literals (mem m) → 10000 < Z.of_nat fuel →
  ∃ m', run (test_4kb_boundary_crossing lit) fuel m = (Done tt, m') ∧
        mem m' = mem m ∧
        uart_output (trace m') = uart_output (trace m) ++ crossing_chars lit ∧
        cycles m' = cycles m + 10000 * Z.of_nat (length (crossing_chars lit)).
Proof.
  intros Hro Hf.
  destruct (sends_output _ _ _ _ _ _ _ (sends_crossing lit fuel m Hro Hf))
    as (m' & Hrun & Hmem & Hout & Hcyc).
  exists m'. unfold SETTLE in Hcyc. repeat split; [done..|lia].
Qed.

(** C29: one round of the probe whose read returns the byte [v] sends the
    label of the offset, then the character [0x30 + v mod 16], a space and a
    line feed: a decimal digit only when the low half of [v] is below 10, and
    one of [:;<=>?] otherwise. *)
Theorem probe_body_run offset v fuel m :
  rodata_ok lit pattern_literals (mem m) → 0 ≤ offset < 32 →
  mem m !! (base_ptr + offset) = Some v → 10000 < Z.of_nat fuel →
  ∃ m', run (probe_body lit offset) fuel m = (Done (Continue (offset + 4)), m') ∧
        uart_output (trace m')
        = uart_output (trace m) ++ cstr "Offset " ++ probe_offset_chars offset ++
          cstr ": " ++ [chr "0" + v `mod` 16] ++ cstr " " ++ cstr NL.
Proof.
  intros Hro Ho Hv Hf.
  destruct (sends_output _ _ _ _ _ _ _ (sends_probe_body lit offset v fuel m Hro Ho Hf Hv))
    as (m' & Hrun & _ & Hout & _).
  exists m'. split; [done|]. rewrite Hout. unfold probe_head, probe_digit.
  by rewrite land_15_mod, <- !app_assoc.
Qed.

(** C28: when the eight probed addresses are mapped,
    [test_capdl_frame_pattern] returns after sending its heading and one line
    for each of the offsets 0, 4, ..., 28, in this order. *)
Theorem test_capdl_frame_pattern_run vs fuel m :
  rodata_ok lit pattern_literals (mem m) →
  Forall2 (λ k v, mem m !! (base_ptr + 0 + 4 * Z.of_nat k) = Some v) (seq 0 8) vs →
  10000 < Z.of_nat fuel →
  ∃ m', run (test_capdl_frame_pattern lit) fuel m = (Done tt, m') ∧
        mem m' = mem m ∧
        uart_output (trace m')
        = uart_output (trace m) ++ pattern_head ++ probe_chars 0 vs None.
Proof.
  intros Hro Hvs Hf. pose proof (pattern_run lit fuel m Hro Hf) as Hrun.
  unfold pattern_chars in Hrun. rewrite (probe_walk_mapped _ _ _ vs Hvs) in Hrun.
  destruct (sends_output _ _ _ _ _ _ _ Hrun) as (m' & ? & ? & ? & _).
  by exists m'.
Qed.

(** C14: when the first of the probed addresses that is unmapped is the
    one after [vs] have been read, [test_capdl_frame_pattern] stops with a
    trap at that address; it has sent the lines of the bytes read and the label
    of the line of the trap, and nothing after it. *)
Theorem test_capdl_frame_pattern_trap vs fuel m :
  rodata_ok lit pattern_literals (mem m) →
  Forall2 (λ k v, mem m !! (base_ptr + 0 + 4 * Z.of_nat k) = Some v)
    (seq 0 (length vs)) vs →
  (length vs < 8)%nat →
  mem m !! (base_ptr + 0 + 4 * Z.of_nat (length vs)) = None →
  10000 < Z.of_nat fuel →
  ∃ m', run (test_capdl_frame_pattern lit) fuel m
        = (Fault (Trapped (base_ptr + 4 * Z.of_nat (length vs))), m') ∧
        uart_output (trace m')
        = uart_output (trace m) ++ pattern_head ++
          probe_chars 0 vs (Some (4 * Z.of_nat (length vs))).
Proof.
  intros Hro Hvs Hl Hu Hf. pose proof (pattern_run lit fuel m Hro Hf) as Hrun.
  unfold pattern_chars in Hrun.
  rewrite (probe_walk_unmapped _ _ _ vs Hvs Hl Hu) in Hrun. cbn [fst snd] in Hrun.
  destruct (stops_output _ _ _ _ _ _ _ Hrun) as (m' & ? & _ & ? & _).
  by exists m'.
Qed.

(** C6: on every memory [test_capdl_frame_pattern] terminates once the
    budget covers the settle loop: it returns, or it traps at one of the
    eight addresses it probes, which is then unmapped; it reads guest RAM at
    the offsets 0, 4, ..., 28 only, in this order, and stops at the first
    that is unmapped. *)
Theorem test_capdl_frame_pattern_total fuel m :
  rodata_ok lit pattern_literals (mem m) → 10000 < Z.of_nat fuel →
  let r := probe_walk (mem m) 0 8 in
  ∃ m', run (test_capdl_frame_pattern lit) fuel m
        = (match r.2 with
           | None => Done tt
           | Some o => Fault (Trapped (base_ptr + o))
           end, m') ∧
        mem m' = mem m ∧
        uart_output (trace m')
        = uart_output (trace m) ++ pattern_head ++ probe_chars 0 r.1 r.2 ∧
        match r.2 with
        | None => True
        | Some o => o = 4 * Z.of_nat (length r.1) ∧ (length r.1 < 8)%nat ∧
                    mem m !! (base_ptr + o) = None
        end.
Proof.
  intros Hro Hf r. pose proof (pattern_run lit fuel m Hro Hf) as Hrun.
  fold r in Hrun. unfold pattern_chars in Hrun. fold r in Hrun.
  pose proof (probe_walk_trap (mem m) 0 8) as Ht. fold r in Ht.
  pose proof (probe_walk_length (mem m) 0 8) as Hl. fold r in Hl.
  destruct r.2 as [o|] eqn:Er.
  - destruct (stops_output _ _ _ _ _ _ _ Hrun) as (m' & ? & ? & ? & _).
    destruct (Ht o eq_refl) as [Ho Hu].
    exists m'. repeat split; [done..|lia| |done].
    destruct (decide (length r.1 = 8%nat)) as [E|]; [|lia].
    pose proof (probe_walk_full (mem m) 0 8) as Hfull. fold r in Hfull.
    rewrite Hfull in Er by done. done.
  - destruct (sends_output _ _ _ _ _ _ _ Hrun) as (m' & ? & ? & ? & _).
    by exists m'.
Qed.

(** C30: when the eight probed addresses are mapped, [main] runs both
    tests and, with a budget of [fuel] rounds, is still running after exactly
    [fuel] rounds of its loop; the round numbered [k], from 1, is labelled by
    the last decimal digit of [k], so that round 10 is labelled [0]. *)
Theorem main_tb_rounds vs fuel m :
  rodata_ok lit main_literals (mem m) →
  Forall2 (λ k v, mem m !! (base_ptr + 0 + 4 * Z.of_nat k) = Some v) (seq 0 8) vs →
  5000000 < Z.of_nat fuel < 2 ^ 31 →
  ∃ m', run (main lit) fuel m = (Fault OutOfFuel, m') ∧
        uart_output (trace m')
        = uart_output (trace m) ++ banner_chars ++ crossing_chars lit ++
          (pattern_head ++ probe_chars 0 vs None) ++ complete_chars ++
          (seqZ 1 (Z.of_nat fuel) ≫= round_chars).
Proof.
  intros Hro Hvs [Hf Hf']. pose proof (tb_main_stops lit fuel m Hro Hf) as Hrun.
  unfold pattern_chars in Hrun. rewrite (probe_walk_mapped _ _ _ vs Hvs) in Hrun.
  cbn [fst snd] in Hrun. rewrite tb_rounds_chars_seq in Hrun by lia.
  destruct (stops_output _ _ _ _ _ _ _ Hrun) as (m' & ? & _ & ? & _).
  by exists m'.
Qed.

(** C31: when one of the probed addresses is unmapped, [main] stops with
    the trap of the probe: what it has sent ends with the label of the line
    of the trap, and neither the closing message nor any round of the loop
    follows. *)
Theorem main_tb_trap vs fuel m :
  rodata_ok lit main_literals (mem m) →
  Forall2 (λ k v, mem m !! (base_ptr + 0 + 4 * Z.of_nat k) = Some v)
    (seq 0 (length vs)) vs →
  (length vs < 8)%nat →
  mem m !! (base_ptr + 0 + 4 * Z.of_nat (length vs)) = None →
  5000000 < Z.of_nat fuel →
  ∃ m', run (main lit) fuel m
        = (Fault (Trapped (base_ptr + 4 * Z.of_nat (length vs))), m') ∧
        uart_output (trace m')
        = uart_output (trace m) ++ banner_chars ++ crossing_chars lit ++
          pattern_head ++ probe_chars 0 vs (Some (4 * Z.of_nat (length vs))).
Proof.
  intros Hro Hvs Hl Hu Hf. pose proof (tb_main_stops lit fuel m Hro Hf) as Hrun.
  unfold pattern_chars in Hrun.
  rewrite (probe_walk_unmapped _ _ _ vs Hvs Hl Hu) in Hrun. cbn [fst snd] in Hrun.
  destruct (stops_output _ _ _ _ _ _ _ Hrun) as (m' & ? & _ & ? & _).
  by exists m'.
Qed.

(** C32: [main] does not return, whatever the memory and the budget. *)
Theorem main_tb_never_returns fuel m m' :
  run (main lit) fuel m ≠ (Done tt, m').
Proof.
  unfold main. intros Hrun.
  do 8 (rewrite run_bind in Hrun;
        apply and_then_done_inv in Hrun as (? & ? & _ & Hrun)).
  rewrite run_bind in Hrun.
  apply and_then_done_inv in Hrun as (s' & m1 & Hloop & _).
  revert Hloop. rewrite run_while. apply while_fix_forever.
  - by intros ????? [= <- _].
  - intros s0 f m0 r m2. rewrite run_bind. intros Hb.
    apply and_then_done_inv in Hb as (it & ? & _ & [= <- _]). eauto.
Qed.

End tb_theorems.

Lemma print_hex_addr_run_witness :
  ∃ m' digits, run (print_hex_addr tb_lit 0x4000115D) (Z.to_nat 10001) tb_machine
               = (Done tt, m') ∧
               uart_output (trace m') = cstr "0x" ++ digits ∧
               length digits = 8%nat ∧
               parse_hex digits = Some 0x4000115D.
Proof.
  exact (print_hex_addr_run tb_lit 0x4000115D (Z.to_nat 10001) tb_machine
           ltac:(by_compute) ltac:(lia)).
Defined.

Lemma analysis_run_witness :
  ∃ m', run (while (analysis_cond tb_lit) (analysis_body tb_lit) 0)
          (Z.to_nat 10001) tb_machine = (Done 100, m') ∧
        mem m' = mem tb_machine ∧
        uart_output (trace m')
        = cstr (NL +:+ "Offset 000: This is a very l" +:+
                NL +:+ "Offset 16: ong string that " +:+
                NL +:+ "Offset 32: definitely shoul" +:+
                NL +:+ "Offset 48: d cross 4KB fram" +:+
                NL +:+ "Offset 64: e boundaries in " +:+
                NL +:+ "Offset 80: the seL4 capabil" +:+
                NL +:+ "Offset 96: ity ") ∧
        length (with_labels 0 (take 100 (cstr test_string_long))) = 185%nat ∧
        chr "|" ∉ with_labels 0 (take 100 (cstr test_string_long)).
Proof.
  exact (analysis_run tb_lit (Z.to_nat 10001) tb_machine ltac:(by_compute) ltac:(lia)).
Defined.

Lemma test_4kb_boundary_crossing_run_witness :
  ∃ m', run (test_4kb_boundary_crossing tb_lit) (Z.to_nat 10001) tb_machine
        = (Done tt, m') ∧
        mem m' = mem tb_machine ∧
        uart_output (trace m')
        = cstr ("=== Testing 4KB Boundary Crossing ===" +:+ NL +:+
                "Short string addr: 0x4000115D = " +:+ DQ +:+ "Hi" +:+ DQ +:+ NL +:+
                "Medium string addr: 0x40001160 = " +:+ DQ +:+
                "Hello World Test String" +:+ DQ +:+ NL +:+
                "Long string addr: 0x40001178 = " +:+ DQ +:+ test_string_long +:+
                DQ +:+ NL +:+ NL +:+
                "=== Byte-by-byte Analysis ===" +:+ NL +:+
                "Long string bytes: [" +:+
                NL +:+ "Offset 000: This is a very l" +:+
                NL +:+ "Offset 16: ong string that " +:+
                NL +:+ "Offset 32: definitely shoul" +:+
                NL +:+ "Offset 48: d cross 4KB fram" +:+
                NL +:+ "Offset 64: e boundaries in " +:+
                NL +:+ "Offset 80: the seL4 capabil" +:+
                NL +:+ "Offset 96: ity ]" +:+ NL) ∧
        cycles m' = 6200000.
Proof.
  exact (test_4kb_boundary_crossing_run tb_lit (Z.to_nat 10001) tb_machine
           ltac:(by_compute) ltac:(lia)).
Defined.

Lemma probe_body_run_witness :
  ∃ m', run (probe_body tb_lit 12) (Z.to_nat 10001) tb_machine
        = (Done (Continue 16), m') ∧
        uart_output (trace m') = cstr ("Offset 12: < " +:+ NL).
Proof.
  exact (probe_body_run tb_lit 12 0x1C (Z.to_nat 10001) tb_machine
           ltac:(by_compute) ltac:(lia) ltac:(by vm_compute) ltac:(lia)).
Defined.

Lemma test_capdl_frame_pattern_run_witness :
  ∃ m', run (test_capdl_frame_pattern tb_lit) (Z.to_nat 10001) tb_machine
        = (Done tt, m') ∧
        mem m' = mem tb_machine ∧
        uart_output (trace m')
        = cstr (NL +:+ "=== Testing CapDL Frame Pattern ===" +:+ NL +:+
                "Based on vm_minimal.cdl analysis:" +:+ NL +:+
                "- First 8 frames: 4KB each (32768->40960 offset)" +:+ NL +:+
                "- Later frames: 64KB each" +:+ NL +:+
                "- String likely in early 4KB frames" +:+ NL +:+ NL +:+
                "Memory probe test:" +:+ NL +:+
                "Offset 000: 0 " +:+ NL +:+ "Offset 004: 4 " +:+ NL +:+
                "Offset 008: 8 " +:+ NL +:+ "Offset 12: < " +:+ NL +:+
                "Offset 16: 0 " +:+ NL +:+ "Offset 20: 4 " +:+ NL +:+
                "Offset 24: 8 " +:+ NL +:+ "Offset 28: < " +:+ NL).
Proof.
  exact (test_capdl_frame_pattern_run tb_lit tb_probed (Z.to_nat 10001) tb_machine
           ltac:(by_compute) ltac:(by_compute) ltac:(lia)).
Defined.

Lemma test_capdl_frame_pattern_trap_witness :
  ∃ m', run (test_capdl_frame_pattern tb_lit) (Z.to_nat 10001) tb_short_machine
        = (Fault (Trapped 0x4000000C), m') ∧
        uart_output (trace m')
        = cstr (NL +:+ "=== Testing CapDL Frame Pattern ===" +:+ NL +:+
                "Based on vm_minimal.cdl analysis:" +:+ NL +:+
                "- First 8 frames: 4KB each (32768->40960 offset)" +:+ NL +:+
                "- Later frames: 64KB each" +:+ NL +:+
                "- String likely in early 4KB frames" +:+ NL +:+ NL +:+
                "Memory probe test:" +:+ NL +:+
                "Offset 000: 0 " +:+ NL +:+ "Offset 004: 4 " +:+ NL +:+
                "Offset 008: 8 " +:+ NL +:+ "Offset 12: ").
Proof.
  exact (test_capdl_frame_pattern_trap tb_lit (take 3 tb_probed) (Z.to_nat 10001)
           tb_short_machine ltac:(by_compute) ltac:(by_compute) ltac:(by_compute)
           ltac:(by vm_compute) ltac:(lia)).
Defined.

Lemma test_capdl_frame_pattern_total_witness :
  ∃ m', run (test_capdl_frame_pattern tb_lit) (Z.to_nat 10001) tb_short_machine
        = (Fault (Trapped (base_ptr + 12)), m') ∧
        mem m' = mem tb_short_machine ∧
        uart_output (trace m')
        = uart_output (trace tb_short_machine) ++ pattern_head ++
          probe_chars 0 [0x10; 0x14; 0x18] (Some 12) ∧
        (12 = 4 * Z.of_nat 3 ∧ (3 < 8)%nat ∧
         mem tb_short_machine !! (base_ptr + 12) = None).
Proof.
  exact (test_capdl_frame_pattern_total tb_lit (Z.to_nat 10001) tb_short_machine
           ltac:(by_compute) ltac:(lia)).
Defined.

Lemma main_tb_rounds_witness :
  ∃ m', run (main tb_lit) (Z.to_nat 5000001) tb_machine = (Fault OutOfFuel, m') ∧
        uart_output (trace m')
        = uart_output (trace tb_machine) ++ banner_chars ++ crossing_chars tb_lit ++
          (pattern_head ++ probe_chars 0 tb_probed None) ++ complete_chars ++
          (seqZ 1 (Z.of_nat (Z.to_nat 5000001)) ≫= round_chars).
Proof.
  exact (main_tb_rounds tb_lit tb_probed (Z.to_nat 5000001) tb_machine
           ltac:(by_compute) ltac:(by_compute) ltac:(lia)).
Defined.

Lemma main_tb_trap_witness :
  ∃ m', run (main tb_lit) (Z.to_nat 5000001) tb_short_machine
        = (Fault (Trapped (base_ptr + 4 * Z.of_nat (length (take 3 tb_probed)))), m') ∧
        uart_output (trace m')
        = uart_output (trace tb_short_machine) ++ banner_chars ++
          crossing_chars tb_lit ++ pattern_head ++
          probe_chars 0 (take 3 tb_probed)
            (Some (4 * Z.of_nat (length (take 3 tb_probed)))).
Proof.
  exact (main_tb_trap tb_lit (take 3 tb_probed) (Z.to_nat 5000001) tb_short_machine
           ltac:(by_compute) ltac:(by_compute) ltac:(by_compute)
           ltac:(by vm_compute) ltac:(lia)).
Defined.

End Boundaries.
