(* ===== verification/Virt.v ===== *)
(** * Virt: the greeting program, minimal_main_virt.c

    The control program of the experiment: it sends its two messages one
    character at a time with [uart_putc], each character an immediate operand
    of the call, so that no byte of a message is ever read from memory.  Its
    [uart_puts] is the string walk of the other two programs and is never
    called.  [main] announces the start and then repeats the greeting and
    [delay 5000] for ever.

    The theorems say what is sent, that the program runs on a machine with no
    memory mapped at all, and that [main] never returns. *)

From Stdlib Require Import ZArith Lia Ascii String.
From stdpp Require Import base tactics option numbers list strings gmap.
From S2P Require Import Prelude CInt Machine Uart.

#[local] Open Scope Z_scope.

Module Virt.

(** ** The program *)

Definition UART0_DR : Z := 0x9000000.
Definition UART0_FR : Z := 0x9000018.

Definition uart_putc (c : Z) : M unit :=
  mmio_write UART0_DR (to_char c);;
  busy_wait 10000.

Definition uart_puts (s : Z) : M unit :=
  _ ← while (λ s, ch ← load s; mret (negb (ch =? 0)))
            (λ s, ch ← load s; uart_putc ch;; mret (Continue (s + 1)))
            s;
  mret tt.

(** [while (count--) { for (volatile int i = 0; i < 1000000; i++) {} }] *)
Definition delay (count : Z) : M unit :=
  _ ← while (λ count, mret (negb (count =? 0)))
            (λ count, let count := to_uint (count - 1) in
                      busy_wait 1000000;;
                      mret (Continue count))
            (to_uint count);
  mret tt.

Definition print_freertos_starting : M unit :=
  uart_putc (chr "F");; uart_putc (chr "r");; uart_putc (chr "e");; uart_putc (chr "e");;
  uart_putc (chr "R");; uart_putc (chr "T");; uart_putc (chr "O");; uart_putc (chr "S");;
  uart_putc (chr " ");; uart_putc (chr "s");; uart_putc (chr "t");; uart_putc (chr "a");;
  uart_putc (chr "r");; uart_putc (chr "t");; uart_putc (chr "i");; uart_putc (chr "n");;
  uart_putc (chr "g");; uart_putc (chr ".");; uart_putc (chr ".");; uart_putc (chr ".");;
  uart_putc (chr "010").

Definition print_hello_message : M unit :=
  uart_putc (chr "H");; uart_putc (chr "e");; uart_putc (chr "l");; uart_putc (chr "l");;
  uart_putc (chr "o");; uart_putc (chr " ");; uart_putc (chr "f");; uart_putc (chr "r");;
  uart_putc (chr "o");; uart_putc (chr "m");; uart_putc (chr " ");; uart_putc (chr "A");;
  uart_putc (chr "R");; uart_putc (chr "M");; uart_putc (chr "-");; uart_putc (chr "V");;
  uart_putc (chr "I");; uart_putc (chr "R");; uart_putc (chr "T");; uart_putc (chr "!");;
  uart_putc (chr "010").

(** One round of the loop of [main]. *)
Definition main_round : M unit :=
  print_hello_message;;
  delay 5000.

Definition main : M unit :=
  print_freertos_starting;;
  _ ← while (λ _ : unit, mret true)
            (λ _, main_round;; mret (Continue tt))
            tt;
  mret tt.

(** ** What the program sends *)

Definition starting_chars : list Z := cstr ("FreeRTOS starting..." +:+ NL).
Definition hello_chars : list Z := cstr ("Hello from ARM-VIRT!" +:+ NL).

(** The iterations one round spins: 21 characters and the delay. *)
Definition round_cycles : Z := 21 * 10000 + 5000 * 1000000.

(** * Lemmas *)

(** ** The driver is the driver of the other programs *)

Lemma virt_putc_eq : uart_putc = Uart.uart_putc.
Proof. reflexivity. Qed.

Lemma virt_puts_eq : uart_puts = uart_puts_safe.
Proof. reflexivity. Qed.

#[export] Instance virt_putc_driver : UartDriver uart_putc.
Proof. rewrite virt_putc_eq. apply _. Qed.

(** A call of [uart_putc] followed by the rest of a function. *)
Lemma run_putc_then {A} c (k : M A) fuel m :
  10000 < Z.of_nat fuel →
  run (uart_putc c;; k) fuel m = run k fuel (advance (putc_trace c) 10000 m).
Proof. intros Hf. by rewrite run_bind, virt_putc_eq, uart_putc_spec by done. Qed.

(** ** The messages *)

Lemma print_freertos_starting_spec fuel m :
  10000 < Z.of_nat fuel →
  run print_freertos_starting fuel m
  = (Done tt, advance (emit_trace starting_chars) (21 * 10000) m).
Proof.
  intros Hf. unfold print_freertos_starting.
  rewrite !run_putc_then by done. rewrite virt_putc_eq, uart_putc_spec by done.
  by autorewrite with mrun.
Qed.

Lemma print_hello_message_spec fuel m :
  10000 < Z.of_nat fuel →
  run print_hello_message fuel m
  = (Done tt, advance (emit_trace hello_chars) (21 * 10000) m).
Proof.
  intros Hf. unfold print_hello_message.
  rewrite !run_putc_then by done. rewrite virt_putc_eq, uart_putc_spec by done.
  by autorewrite with mrun.
Qed.

(** ** The delay *)

Lemma delay_virt_spec count fuel m :
  0 ≤ count < 2 ^ 32 → count < Z.of_nat fuel → 1000000 < Z.of_nat fuel →
  run (delay count) fuel m = (Done tt, advance [] (1000000 * count) m).
Proof.
  intros Hc Hf1 Hf2. unfold delay. rewrite run_bind, run_while, to_uint_small by done.
  rewrite <- (Z2Nat.id count) by lia. rewrite delay_loop_run by lia.
  by autorewrite with mrun.
Qed.

(** ** The loop *)

Lemma virt_round_spec fuel m :
  1000000 < Z.of_nat fuel →
  run main_round fuel m = (Done tt, advance (emit_trace hello_chars) round_cycles m).
Proof.
  intros Hf. unfold main_round.
  rewrite run_bind, print_hello_message_spec by lia. autorewrite with mrun.
  rewrite delay_virt_spec by lia. by autorewrite with mrun.
Qed.

Lemma virt_loop_run (k : nat) fuel m :
  1000000 < Z.of_nat fuel →
  run (while_fix k (λ _ : unit, mret true)
         (λ _, main_round;; mret (Continue tt)) tt) fuel m
  = (Fault OutOfFuel,
     advance (emit_trace (mjoin (replicate k hello_chars)))
       (round_cycles * Z.of_nat k) m).
Proof.
  intros Hf. revert m. induction k as [|k IH]; intros m.
  { rewrite while_fix_O. cbn. rewrite Z.mul_0_r. by autorewrite with mrun. }
  rewrite while_fix_S. autorewrite with mrun.
  rewrite virt_round_spec by done. autorewrite with mrun. rewrite IH.
  autorewrite with mrun. cbn [replicate mjoin list_join].
  rewrite emit_trace_app. do 2 f_equal. lia.
Qed.

Lemma virt_main_spec fuel m :
  1000000 < Z.of_nat fuel →
  run main fuel m
  = (Fault OutOfFuel,
     advance (emit_trace (starting_chars ++ mjoin (replicate fuel hello_chars)))
       (21 * 10000 + round_cycles * Z.of_nat fuel) m).
Proof.
  intros Hf. unfold main.
  rewrite run_bind, print_freertos_starting_spec by lia. autorewrite with mrun.
  rewrite run_while, virt_loop_run by done. autorewrite with mrun.
  by rewrite emit_trace_app.
Qed.

Lemma starting_chars_bytes : to_char <$> starting_chars = starting_chars.
Proof. reflexivity. Qed.

Lemma hello_chars_bytes : to_char <$> hello_chars = hello_chars.
Proof. reflexivity. Qed.

Lemma fmap_to_char_rounds (n : nat) :
  to_char <$> mjoin (replicate n hello_chars) = mjoin (replicate n hello_chars).
Proof.
  apply fmap_to_char_bytes, Forall_join, Forall_replicate, cstr_range.
Qed.

(** * Theorems *)

(** C38: [print_freertos_starting] sends [FreeRTOS starting...] and a line
    feed on every machine, mapped memory or none: it returns, reads no byte of
    memory, leaves memory unchanged and spins 10000 iterations for each of its
    21 characters. *)
Theorem print_freertos_starting_run fuel m :
  10000 < Z.of_nat fuel →
  ∃ m', run print_freertos_starting fuel m = (Done tt, m') ∧
        mem m' = mem m ∧
        loads (trace m') = loads (trace m) ∧
        uart_output (trace m')
        = uart_output (trace m) ++ cstr ("FreeRTOS starting..." +:+ NL) ∧
        cycles m' = cycles m + 210000.
Proof.
  intros Hf. rewrite print_freertos_starting_spec by done.
  eexists. split; [done|]. autorewrite with mrun.
  by rewrite starting_chars_bytes, app_nil_r.
Qed.

(** [print_hello_message] sends [Hello from ARM-VIRT!] and a line feed
    on every machine: it returns, reads no byte of memory and leaves memory
    unchanged. *)
Lemma print_hello_message_run fuel m :
  10000 < Z.of_nat fuel →
  ∃ m', run print_hello_message fuel m = (Done tt, m') ∧
        mem m' = mem m ∧
        loads (trace m') = loads (trace m) ∧
        uart_output (trace m')
        = uart_output (trace m) ++ cstr ("Hello from ARM-VIRT!" +:+ NL) ∧
        cycles m' = cycles m + 210000.
Proof.
  intros Hf. rewrite print_hello_message_spec by done.
  eexists. split; [done|]. autorewrite with mrun.
  by rewrite hello_chars_bytes, app_nil_r.
Qed.

(** [delay count] returns after exactly [1000000 * count] iterations of its
    inner loop and does nothing else. *)
Lemma delay_virt_run count fuel m :
  0 ≤ count < 2 ^ 32 → count < Z.of_nat fuel → 1000000 < Z.of_nat fuel →
  run (delay count) fuel m
  = (Done tt, Machine (mem m) (trace m) (cycles m + 1000000 * count)).
Proof.
  intros. rewrite delay_virt_spec by done. unfold advance. by rewrite app_nil_r.
Qed.

(** C37: with a budget of [fuel] rounds, [main] is still running after the
    start message and exactly [fuel] greetings, each followed by a delay of
    [5000 * 1000000] iterations; it has read no byte of memory, so that it
    runs the same on a machine with no memory mapped. *)
Theorem main_virt_rounds fuel m :
  1000000 < Z.of_nat fuel →
  ∃ m', run main fuel m = (Fault OutOfFuel, m') ∧
        mem m' = mem m ∧
        loads (trace m') = loads (trace m) ∧
        uart_output (trace m')
        = uart_output (trace m) ++ cstr ("FreeRTOS starting..." +:+ NL) ++
          mjoin (replicate fuel (cstr ("Hello from ARM-VIRT!" +:+ NL))) ∧
        cycles m' = cycles m + 210000 + 5000210000 * Z.of_nat fuel.
Proof.
  intros Hf. rewrite virt_main_spec by done.
  eexists. split; [done|]. autorewrite with mrun.
  rewrite fmap_app, starting_chars_bytes, fmap_to_char_rounds, app_nil_r.
  repeat split. unfold round_cycles. lia.
Qed.

(** C39: [main] does not return, whatever the memory and the budget. *)
Theorem main_virt_never_returns fuel m m' :
  run main fuel m ≠ (Done tt, m').
Proof.
  unfold main. intros Hrun.
  rewrite run_bind in Hrun. apply and_then_done_inv in Hrun as (? & ? & _ & Hrun).
  rewrite run_bind in Hrun. apply and_then_done_inv in Hrun as (s' & m1 & Hloop & _).
  revert Hloop. rewrite run_while. apply while_fix_forever.
  - by intros ????? [= <- _].
  - intros s0 f m0 r m2. rewrite run_bind. intros Hb.
    apply and_then_done_inv in Hb as (? & ? & _ & [= <- _]). eauto.
Qed.

Lemma print_freertos_starting_run_witness :
  ∃ m', run print_freertos_starting (Z.to_nat 10001) (Machine ∅ [] 0)
        = (Done tt, m') ∧
        mem m' = ∅ ∧
        loads (trace m') = [] ∧
        uart_output (trace m') = cstr ("FreeRTOS starting..." +:+ NL) ∧
        cycles m' = 210000.
Proof.
  exact (print_freertos_starting_run (Z.to_nat 10001) (Machine ∅ [] 0) ltac:(lia)).
Defined.

Lemma print_hello_message_run_witness :
  ∃ m', run print_hello_message (Z.to_nat 10001) (Machine ∅ [] 0)
        = (Done tt, m') ∧
        mem m' = ∅ ∧
        loads (trace m') = [] ∧
        uart_output (trace m') = cstr ("Hello from ARM-VIRT!" +:+ NL) ∧
        cycles m' = 210000.
Proof.
  exact (print_hello_message_run (Z.to_nat 10001) (Machine ∅ [] 0) ltac:(lia)).
Defined.

Lemma main_virt_rounds_witness :
  ∃ m', run main (Z.to_nat 1000001) (Machine ∅ [] 0) = (Fault OutOfFuel, m') ∧
        mem m' = mem (Machine ∅ [] 0) ∧
        loads (trace m') = loads (trace (Machine ∅ [] 0)) ∧
        uart_output (trace m')
        = uart_output (trace (Machine ∅ [] 0)) ++
          cstr ("FreeRTOS starting..." +:+ NL) ++
          mjoin (replicate (Z.to_nat 1000001) (cstr ("Hello from ARM-VIRT!" +:+ NL))) ∧
        cycles m'
        = cycles (Machine ∅ [] 0) + 210000 + 5000210000 * Z.of_nat (Z.to_nat 1000001).
Proof.
  exact (main_virt_rounds (Z.to_nat 1000001) (Machine ∅ [] 0) ltac:(lia)).
Defined.

End Virt.
